(** * d3-funnel: the funnel chart of [src/d3-funnel/d3-funnel.js]

    A shallow embedding of the [D3Funnel] class: option resolution
    ([_initialize]), the path geometry ([_makePaths]), the entry point
    ([draw], [destroy]) and the colour helper ([shadeColor]).

    Numbers.  The geometry needs a square root, so a JavaScript number is
    modelled as [num = option R]: [Some x] is the finite number [x], computed
    exactly, and [None] stands for a value that is not finite ([NaN] or an
    infinity).  A division by zero and the square root of a negative number
    give [None], and [None] is absorbing for the arithmetic, the way [NaN] is.
    Rounding and overflow of IEEE doubles are not modelled, nor is a finite
    result obtained from an infinite operand ([x / Infinity]); in
    [_makePaths] that last case needs a height of 0, which [_initialize]
    replaces by the default.  A test on the sign of a number is decided on
    the exact value: it agrees with the doubles where the exact value is away
    from 0 by more than the rounding error, and may differ where the exact
    value is 0.  The only such test in the geometry is the one [Math.sqrt]
    makes on its radicand in the dynamic mode; the theorems on that mode
    assume a bottom width of at least a thousandth of the width, and show
    that every radicand is then at least the square of the smaller of the
    width and the bottom width.  The
    colour helper works on integers and one fraction, which is modelled as a
    rational ([Q]), so that it computes. *)

From Stdlib Require Import Reals Lra Lia Psatz ZArith QArith Qround Qabs String Ascii List Bool.
From stdpp Require Import gmap strings.
Import ListNotations.

Close Scope Q_scope.
Local Open Scope string_scope.
Local Open Scope list_scope.

(** ** JavaScript numbers *)

Module JSNum.

Definition num : Type := option R.

Definition fin (x : R) : num := Some x.
Arguments fin x%_R.
Definition NaN : num := None.

Definition lift2 (f : R -> R -> R) (x y : num) : num :=
  match x, y with
  | Some a, Some b => Some (f a b)
  | _, _ => None
  end.

Definition nadd : num -> num -> num := lift2 Rplus.
Definition nsub : num -> num -> num := lift2 Rminus.
Definition nmul : num -> num -> num := lift2 Rmult.

Definition ndiv (x y : num) : num :=
  match x, y with
  | Some a, Some b => if Req_dec_T b 0 then None else Some (a / b)%R
  | _, _ => None
  end.

(** [Math.sqrt]: [NaN] below 0, on the exact value of the radicand. *)
Definition nsqrt (x : num) : num :=
  match x with
  | Some a => if Rlt_dec a 0 then None else Some (sqrt a)
  | None => None
  end.

(** [x <= y]: a comparison with [NaN] is false. *)
Definition nle (x y : num) : bool :=
  match x, y with
  | Some a, Some b => if Rle_dec a b then true else false
  | _, _ => false
  end.

Definition of_Z (z : Z) : num := Some (IZR z).
Definition of_nat (n : nat) : num := Some (INR n).

End JSNum.

Export JSNum.

Declare Scope num_scope.
Delimit Scope num_scope with num.
Bind Scope num_scope with num.
Infix "+" := nadd : num_scope.
Infix "-" := nsub : num_scope.
Infix "*" := nmul : num_scope.
Infix "/" := ndiv : num_scope.
Notation "x <=? y" := (nle x y) : num_scope.

(** ** Rows and paths *)

(** The value cell of a row: a number, or [[value, formattedValue]]. *)
Inductive rowvalue :=
| VNum (x : num)
| VPair (x : num) (formatted : string).

(** A row [[label, value, color?, labelColor?]]. *)
Record row := {
  r_label : string;
  r_value : rowvalue;
  r_color : option string;
  r_labelColor : option string
}.

(** [isArray(row[1]) ? row[1][0] : row[1]] *)
Definition row_count (r : row) : num :=
  match r_value r with
  | VPair x _ => x
  | VNum x => x
  end.

(** One entry [[x, y, command]] of a block path. *)
Record point := { px : num; py : num; pcmd : string }.

Definition path : Type := list point.

Definition pt (x y : num) (c : string) : point := {| px := x; py := y; pcmd := c |}.

(** ** The chart object *)

(** The settings object of [_initialize], after the user's options were
    merged over the defaults. *)
Record settings := {
  s_width : num;
  s_height : num;
  s_bottomWidth : num;
  s_bottomPinch : Z;
  s_isCurved : bool;
  s_curveHeight : num;
  s_fillType : string;
  s_isInverted : bool;
  s_hoverEffects : bool;
  s_dynamicArea : bool;
  s_minHeight : option num;      (* [None] is [false] *)
  s_animation : option num;      (* [None] is [false] *)
  s_onItemClick : bool           (* whether a handler is set *)
}.

(** The fields of the chart object [this] that [_initialize] sets. *)
Record funnel := {
  data : list row;
  width : num;
  height : num;
  bottomWidth : num;
  bottomPinch : Z;
  isCurved : bool;
  curveHeight : num;
  fillType : string;
  isInverted : bool;
  hoverEffects : bool;
  dynamicArea : bool;
  minHeight : option num;
  animation : option num;
  bottomLeftX : num;
  dx : num;
  dy : num;
  onItemClick : bool
}.

Local Open Scope num_scope.

(** [_initialize], lines 161-190: the chart fields from the settings. *)
Definition init_fields (s : settings) (rows : list row) : funnel :=
  let width := s_width s in
  let height := s_height s in
  let bottomWidth := s_width s * s_bottomWidth s in
  let bottomPinch := s_bottomPinch s in
  let bottomLeftX := (width - bottomWidth) / fin 2 in
  let n := length rows in
  {| data := rows;
     width := width;
     height := height;
     bottomWidth := bottomWidth;
     bottomPinch := bottomPinch;
     isCurved := s_isCurved s;
     curveHeight := s_curveHeight s;
     fillType := s_fillType s;
     isInverted := s_isInverted s;
     hoverEffects := s_hoverEffects s;
     dynamicArea := s_dynamicArea s;
     minHeight := s_minHeight s;
     animation := s_animation s;
     bottomLeftX := bottomLeftX;
     dx := if (bottomPinch >? 0)%Z
           then bottomLeftX / of_Z (Z.of_nat n - bottomPinch)
           else bottomLeftX / of_nat n;
     dy := if s_isCurved s
           then (height - s_curveHeight s) / of_nat n
           else height / of_nat n;
     onItemClick := s_onItemClick s |}.

(** ** [_makePaths] *)

(** The local variables of [_makePaths] that the loop reads and writes. *)
Record vars := {
  v_dx : num;
  v_dy : num;
  prevLeftX : num;
  prevRightX : num;
  prevHeight : num;
  nextLeftX : num;
  nextRightX : num;
  nextHeight : num;
  topBase : num;
  bottomBase : num;
  paths : list path
}.

Section MakePaths.

Variable this : funnel.

Definition middle : num := width this / fin 2.

(** Lines 233-242. *)
Definition totalArea : num :=
  match minHeight this with
  | None => height this * (width this + bottomWidth this) / fin 2
  | Some mh =>
      let height := height this - mh * of_nat (length (data this)) in
      height * (width this + bottomWidth this) / fin 2
  end.

Definition slope : num := fin 2 * height this / (width this - bottomWidth this).

(** Lines 247-250. *)
Definition totalCount : num :=
  fold_left (fun acc r => acc + row_count r) (data this) (fin 0).

(** Lines 201-231: the variables before the loop. *)
Definition vars_init : vars :=
  {| v_dx := dx this;
     v_dy := dy this;
     prevLeftX := if isInverted this then bottomLeftX this else fin 0;
     prevRightX := if isInverted this then width this - bottomLeftX this else width this;
     prevHeight := if isCurved this then fin 10 else fin 0;
     nextLeftX := fin 0;
     nextRightX := fin 0;
     nextHeight := fin 0;
     topBase := width this;
     bottomBase := fin 0;
     paths := [] |}.

(** Lines 255-345: one turn of the loop, for row [r] at index [i]. *)
Definition loop_body (i : nat) (r : row) (v : vars) : vars :=
  let n := length (data this) in
  let count := row_count r in
  (* lines 258-275 *)
  let '(dx1, dy1, topBase1, bottomBase1) :=
    if dynamicArea this then
      let ratio := count / totalCount in
      let area := ratio * totalArea in
      let area :=
        match minHeight this with
        | Some mh => area + mh * (width this + bottomWidth this) / fin 2
        | None => area
        end in
      let bottomBase := nsqrt ((slope * topBase v * topBase v - (fin 4 * area)) / slope) in
      let dx := (topBase v / fin 2) - (bottomBase / fin 2) in
      let dy := (area * fin 2) / (topBase v + bottomBase) in
      let dy := if isCurved this then dy - (curveHeight this / of_nat n) else dy in
      (dx, dy, bottomBase, bottomBase)
    else (v_dx v, v_dy v, topBase v, bottomBase v) in
  (* lines 278-297 *)
  let dx2 :=
    if (bottomPinch this >? 0)%Z then
      if negb (isInverted this) then
        if (Z.of_nat i >=? Z.of_nat n - bottomPinch this)%Z then fin 0 else dx1
      else
        let dx := if negb (dynamicArea this) then dx this else dx1 in
        if (Z.of_nat i <? bottomPinch this)%Z then fin 0 else dx
    else dx1 in
  (* lines 300-308 *)
  let nextLeftX := if isInverted this then prevLeftX v - dx2 else prevLeftX v + dx2 in
  let nextRightX := if isInverted this then prevRightX v + dx2 else prevRightX v - dx2 in
  let nextHeight := prevHeight v + dy1 in
  (* lines 311-340 *)
  let p :=
    if isCurved this then
      [ pt (prevLeftX v) (prevHeight v) "M";
        pt middle (prevHeight v + (curveHeight this - fin 10)) "Q";
        pt (prevRightX v) (prevHeight v) "";
        pt nextRightX nextHeight "L";
        pt nextRightX nextHeight "M";
        pt middle (nextHeight + curveHeight this) "Q";
        pt nextLeftX nextHeight "";
        pt (prevLeftX v) (prevHeight v) "L" ]
    else
      [ pt (prevLeftX v) (prevHeight v) "M";
        pt (prevRightX v) (prevHeight v) "L";
        pt nextRightX nextHeight "L";
        pt nextLeftX nextHeight "L";
        pt (prevLeftX v) (prevHeight v) "L" ] in
  (* lines 343-345 *)
  {| v_dx := dx2;
     v_dy := dy1;
     prevLeftX := nextLeftX;
     prevRightX := nextRightX;
     prevHeight := nextHeight;
     nextLeftX := nextLeftX;
     nextRightX := nextRightX;
     nextHeight := nextHeight;
     topBase := topBase1;
     bottomBase := bottomBase1;
     paths := paths v ++ [p] |}.

(** The loop of line 254 from index [i] on, over the rows still to visit. *)
Fixpoint loop (i : nat) (rows : list row) (v : vars) : vars :=
  match rows with
  | [] => v
  | r :: rest => loop (S i) rest (loop_body i r v)
  end.

Definition makePaths : list path := paths (loop 0 (data this) vars_init).

End MakePaths.

(** ** JavaScript values and strings *)

#[warnings="-register-all"]
Inductive jsval :=
| JUndefined
| JNull
| JBool (b : bool)
| JNum (x : num)
| JStr (s : string)
| JArr (elems : list jsval).

Definition isArray (v : jsval) : bool :=
  match v with
  | JArr _ => true
  | _ => false
  end.

(** [v[i]] *)
Definition js_index (v : jsval) (i : nat) : jsval :=
  match v with
  | JArr elems => nth i elems JUndefined
  | _ => JUndefined
  end.

(** [v.length] of an array *)
Definition js_length (v : jsval) : nat :=
  match v with
  | JArr elems => length elems
  | _ => 0
  end.

(** A cell read as a number by [+=] and [/] (lines 249, 259): [null] counts
    as 0, a boolean as 0 or 1, [undefined] as [NaN].  A string or an array
    (which [+=] would concatenate) reads as [NaN]. *)
Definition to_num (v : jsval) : num :=
  match v with
  | JNum x => x
  | JNull => fin 0
  | JBool b => if b then fin 1 else fin 0
  | _ => NaN
  end.

Definition ascii_in (lo hi c : ascii) : bool :=
  (nat_of_ascii lo <=? nat_of_ascii c)%nat && (nat_of_ascii c <=? nat_of_ascii hi)%nat.

(** The value of a digit in a radix up to 36. *)
Definition digit_value (c : ascii) : option Z :=
  if ascii_in "0" "9" c then Some (Z.of_nat (nat_of_ascii c) - 48)%Z
  else if ascii_in "a" "z" c then Some (Z.of_nat (nat_of_ascii c) - 87)%Z
  else if ascii_in "A" "Z" c then Some (Z.of_nat (nat_of_ascii c) - 55)%Z
  else None.

Definition is_white_space (c : ascii) : bool :=
  (nat_of_ascii c =? 32)%nat || ascii_in "009" "013" c.

Fixpoint skip_white_space (s : string) : string :=
  match s with
  | String c rest => if is_white_space c then skip_white_space rest else s
  | EmptyString => s
  end.

(** The longest prefix of digits of the radix, read as a number;
    [None] when there is no digit. *)
Fixpoint parse_digits (radix : Z) (acc : option Z) (s : string) : option Z :=
  match s with
  | String c rest =>
      match digit_value c with
      | Some d =>
          if (d <? radix)%Z
          then parse_digits radix (Some (radix * default 0 acc + d)%Z) rest
          else acc
      | None => acc
      end
  | EmptyString => acc
  end.

Definition strip_hex_prefix (radix : Z) (s : string) : string :=
  match s with
  | String "0" (String x rest) =>
      if ((radix =? 16)%Z && (Ascii.eqb x "x" || Ascii.eqb x "X"))%bool then rest else s
  | _ => s
  end.

(** [parseInt(s, radix)]; [None] is [NaN]. *)
Definition parseInt (s : string) (radix : Z) : option Z :=
  let s := skip_white_space s in
  let '(sign, s) :=
    match s with
    | String "-" rest => ((-1)%Z, rest)
    | String "+" rest => (1%Z, rest)
    | _ => (1%Z, s)
    end in
  option_map (Z.mul sign) (parse_digits radix None (strip_hex_prefix radix s)).

Definition num_of_parse (z : option Z) : num :=
  match z with
  | Some z => of_Z z
  | None => NaN
  end.

Definition is_hex_digit (c : ascii) : bool :=
  ascii_in "0" "9" c || ascii_in "a" "f" c || ascii_in "A" "F" c.

Fixpoint all_hex (s : string) : bool :=
  match s with
  | String c rest => is_hex_digit c && all_hex rest
  | EmptyString => true
  end.

(** [/^#([0-9a-f]{3}|[0-9a-f]{6})$/i.test(s)] *)
Definition hexExpression (s : string) : bool :=
  match s with
  | String "#" rest =>
      all_hex rest && ((String.length rest =? 3)%nat || (String.length rest =? 6)%nat)
  | _ => false
  end.

Fixpoint starts_with (p s : string) : bool :=
  match p, s with
  | EmptyString, _ => true
  | String a p', String b s' => Ascii.eqb a b && starts_with p' s'
  | String _ _, EmptyString => false
  end.

(** Whether [p] occurs somewhere in [s]. *)
Fixpoint occurs_in (p s : string) : bool :=
  starts_with p s ||
  match s with
  | String _ rest => occurs_in p rest
  | EmptyString => false
  end.

(** [key.match(/fontSize|fill/)] is not null *)
Definition validLabelOptions (key : string) : bool :=
  occurs_in "fontSize" key || occurs_in "fill" key.

(** ** Options, the container and the chart instance *)

(** The [options] argument of [draw]: the recognised keys, each absent
    ([None]) or set.  The [label] key holds an object. *)
Record options := {
  o_width : option num;
  o_height : option num;
  o_bottomWidth : option num;
  o_bottomPinch : option Z;
  o_isCurved : option bool;
  o_curveHeight : option num;
  o_fillType : option string;
  o_isInverted : option bool;
  o_hoverEffects : option bool;
  o_dynamicArea : option bool;
  o_minHeight : option (option num);
  o_animation : option (option num);
  o_onItemClick : option bool;
  o_label : option (gmap string jsval)
}.

Definition no_options : options :=
  {| o_width := None; o_height := None; o_bottomWidth := None; o_bottomPinch := None;
     o_isCurved := None; o_curveHeight := None; o_fillType := None; o_isInverted := None;
     o_hoverEffects := None; o_dynamicArea := None; o_minHeight := None;
     o_animation := None; o_onItemClick := None; o_label := None |}.

(** An element of the page: its tag and its children.  Attributes, text
    and handlers are not modelled: two lists of nodes that are equal have the
    same elements in the same places, and may differ in the fill, the font
    size or the path data of an element. *)
#[warnings="-register-all"]
Inductive node := Node (tag : string) (children : list node).

Inductive exn :=
| Error (msg : string)
| TypeError.

(** The chart instance together with the container it selects: the
    children of the container, its computed [width] and [height] styles, the
    label object of [this.defaults] and the fields [draw] assigns. *)
Record chart := {
  container : list node;
  style_width : string;
  style_height : string;
  defaults_label : gmap string jsval;
  label : gmap string jsval;
  fields : option funnel;
  blockPaths : list path
}.

(** [this.defaults], lines 20-37, without its [label]. *)
Definition defaults : settings :=
  {| s_width := fin 350;
     s_height := fin 400;
     s_bottomWidth := fin 1 / fin 3;
     s_bottomPinch := 0;
     s_isCurved := false;
     s_curveHeight := fin 20;
     s_fillType := "solid";
     s_isInverted := false;
     s_hoverEffects := false;
     s_dynamicArea := false;
     s_minHeight := None;
     s_animation := None;
     s_onItemClick := false |}.

(** The constructor, lines 15-38, for a container. *)
Definition new_chart (children : list node) (w h : string) : chart :=
  {| container := children;
     style_width := w;
     style_height := h;
     defaults_label := {[ "fontSize" := JStr "14px"; "fill" := JStr "#fff" ]};
     label := ∅;
     fields := None;
     blockPaths := [] |}.

(** [selectAll('svg').remove()] below one node: every [svg] element goes,
    at any depth. *)
Fixpoint remove_svg (n : node) : list node :=
  match n with
  | Node tag children =>
      if String.eqb tag "svg" then [] else [Node tag (flat_map remove_svg children)]
  end.

(** [destroy], lines 45-49. *)
Definition destroy (c : chart) : chart :=
  {| container := flat_map remove_svg (container c);
     style_width := style_width c;
     style_height := style_height c;
     defaults_label := defaults_label c;
     label := label c;
     fields := fields c;
     blockPaths := blockPaths c |}.

(** ** [_initialize] *)

(** Line 103. *)
Definition invalid_data (d : jsval) : bool :=
  negb (isArray d) || (js_length d =? 0)%nat ||
  negb (isArray (js_index d 0)) || (js_length (js_index d 0) <? 2)%nat.

(** Lines 117-119: the defaults with the measured size of the container. *)
Definition measured (c : chart) : settings :=
  {| s_width := num_of_parse (parseInt (style_width c) 10);
     s_height := num_of_parse (parseInt (style_height c) 10);
     s_bottomWidth := s_bottomWidth defaults;
     s_bottomPinch := s_bottomPinch defaults;
     s_isCurved := s_isCurved defaults;
     s_curveHeight := s_curveHeight defaults;
     s_fillType := s_fillType defaults;
     s_isInverted := s_isInverted defaults;
     s_hoverEffects := s_hoverEffects defaults;
     s_dynamicArea := s_dynamicArea defaults;
     s_minHeight := s_minHeight defaults;
     s_animation := s_animation defaults;
     s_onItemClick := s_onItemClick defaults |}.

(** Lines 122-127: every key of the options but [label] overwrites. *)
Definition merge_options (s : settings) (o : options) : settings :=
  {| s_width := default (s_width s) (o_width o);
     s_height := default (s_height s) (o_height o);
     s_bottomWidth := default (s_bottomWidth s) (o_bottomWidth o);
     s_bottomPinch := default (s_bottomPinch s) (o_bottomPinch o);
     s_isCurved := default (s_isCurved s) (o_isCurved o);
     s_curveHeight := default (s_curveHeight s) (o_curveHeight o);
     s_fillType := default (s_fillType s) (o_fillType o);
     s_isInverted := default (s_isInverted s) (o_isInverted o);
     s_hoverEffects := default (s_hoverEffects s) (o_hoverEffects o);
     s_dynamicArea := default (s_dynamicArea s) (o_dynamicArea o);
     s_minHeight := default (s_minHeight s) (o_minHeight o);
     s_animation := default (s_animation s) (o_animation o);
     s_onItemClick := default (s_onItemClick s) (o_onItemClick o) |}.

(** Lines 130-138.  [settings.label] is the label object of the defaults
    itself ([extend] copies the reference), so the loop writes into it. *)
Definition merge_label (lbl : gmap string jsval) (o : options) : gmap string jsval :=
  match o_label o with
  | Some user =>
      map_fold (fun labelOption v acc =>
                  if validLabelOptions labelOption then <[labelOption := v]> acc else acc)
               lbl user
  | None => lbl
  end.

(** Lines 143-148. *)
Definition fix_size (s : settings) : settings :=
  {| s_width := if s_width s <=? fin 0 then s_width defaults else s_width s;
     s_height := if s_height s <=? fin 0 then s_height defaults else s_height s;
     s_bottomWidth := s_bottomWidth s;
     s_bottomPinch := s_bottomPinch s;
     s_isCurved := s_isCurved s;
     s_curveHeight := s_curveHeight s;
     s_fillType := s_fillType s;
     s_isInverted := s_isInverted s;
     s_hoverEffects := s_hoverEffects s;
     s_dynamicArea := s_dynamicArea s;
     s_minHeight := s_minHeight s;
     s_animation := s_animation s;
     s_onItemClick := s_onItemClick s |}.

(** Lines 117-148: the settings [_initialize] resolves. *)
Definition resolve (c : chart) (o : options) : settings :=
  fix_size (merge_options (measured c) o).

(** A row as [_initialize] and [_makePaths] read it.  A row that is not an
    array makes ['2' in this.data[i]] throw a [TypeError] (the writes
    [_initialize] made before it are not tracked); a label or a colour of
    another type than a string reads as absent, and a value of another type
    than a number reads as the number [to_num] gives.  What [_getBlockData]
    does with a value that is [undefined] or [null] is [value_throws]
    below, which [draw] tests on the data itself. *)
Definition row_of_js (v : jsval) : option row :=
  match v with
  | JArr _ =>
      Some {| r_label := match js_index v 0 with JStr s => s | _ => "" end;
              r_value := match js_index v 1 with
                         | JArr (x :: JStr f :: _) => VPair (to_num x) f
                         | JArr (x :: _) => VPair (to_num x) ""
                         | w => VNum (to_num w)
                         end;
              r_color := match js_index v 2 with JStr s => Some s | _ => None end;
              r_labelColor := match js_index v 3 with JStr s => Some s | _ => None end |}
  | _ => None
  end.

Fixpoint rows_of_js (l : list jsval) : option (list row) :=
  match l with
  | [] => Some []
  | v :: rest =>
      match row_of_js v, rows_of_js rest with
      | Some r, Some rs => Some (r :: rs)
      | _, _ => None
      end
  end.

Section Draw.

(** [d3.scale.category10()], the palette of the rendering library. *)
Variable colorScale : nat -> string.

(** Lines 152-159, from row [i] on. *)
Fixpoint init_colors (i : nat) (rows : list row) : list row :=
  match rows with
  | [] => []
  | r :: rest =>
      let has_color :=
        match r_color r with
        | Some s => hexExpression s
        | None => false
        end in
      {| r_label := r_label r;
         r_value := r_value r;
         r_color := if has_color then r_color r else Some (colorScale i);
         r_labelColor := r_labelColor r |} :: init_colors (S i) rest
  end.

(** [_initialize], lines 101-191: the exception, or the chart with its
    fields set. *)
Definition initialize (d : jsval) (o : options) (c : chart) : exn + chart :=
  if invalid_data d then inl (Error "Funnel data is not valid.")
  else
    let lbl := merge_label (defaults_label c) o in
    match rows_of_js (match d with JArr l => l | _ => [] end) with
    | None => inl TypeError
    | Some rows =>
        inr {| container := container c;
               style_width := style_width c;
               style_height := style_height c;
               defaults_label := lbl;
               label := lbl;
               fields := Some (init_fields (resolve c o) (init_colors 0 rows));
               blockPaths := blockPaths c |}
    end.

(** ** [draw] *)

(** [_defineColorGradients], lines 358-390. *)
Definition defineColorGradients (rows : list row) : node :=
  Node "defs" (map (fun _ => Node "linearGradient" (repeat (Node "stop" []) 4)) rows).

(** [this.data[index][1].toLocaleString()] of [_getBlockData], lines
    551-553: a value cell that is [undefined] (a row too short) or [null] has
    no such method, and the call throws a [TypeError]; an array takes the
    other branch, and every other value has the method. *)
Definition value_throws (v : jsval) : bool :=
  match js_index v 1 with
  | JUndefined | JNull => true
  | _ => false
  end.

(** [_drawBlock(index)], lines 433-475, over the rows of [this.data] from
    [index] on: the exception thrown, if any, and the groups appended before
    [draw] returns.  The group and its path are appended first (lines
    440-443), then [_getBlockData] is called (line 444).  Without an
    animation the next block is drawn (line 460) before the label of this one
    is added (line 474), so an exception for a later row leaves this group
    without its text.  With an animation the next block waits for the end of
    the transition, after [draw] has returned. *)
Fixpoint drawBlock (animated : bool) (rows : list jsval) : option exn * list node :=
  match rows with
  | [] => (None, [])
  | v :: rest =>
      if value_throws v then (Some TypeError, [Node "g" [Node "path" []]])
      else if animated then (None, [Node "g" [Node "path" []; Node "text" []]])
      else
        match drawBlock animated rest with
        | (None, groups) => (None, Node "g" [Node "path" []; Node "text" []] :: groups)
        | (Some e, groups) => (Some e, Node "g" [Node "path" []] :: groups)
        end
  end.

(** [draw], lines 63-91: the exception thrown, if any, and the chart and
    container afterwards.  [this.data] is the array [d] itself (line 110), so
    [_drawBlock] reads the rows of [d]; when it throws, the [svg] element,
    what was appended to it and the block paths stay. *)
Definition draw (d : jsval) (o : options) (c : chart) : option exn * chart :=
  let c := destroy c in
  match initialize d o c with
  | inl e => (Some e, c)
  | inr c =>
      match fields c with
      | None => (None, c)
      | Some this =>
          let gradients :=
            if String.eqb (fillType this) "gradient"
            then [defineColorGradients (data this)] else [] in
          let topOval := if isCurved this then [Node "path" []] else [] in
          let blocks :=
            drawBlock (match animation this with Some _ => true | None => false end)
                      (match d with JArr l => l | _ => [] end) in
          (fst blocks,
           {| container := container c ++ [Node "svg" (gradients ++ topOval ++ snd blocks)];
              style_width := style_width c;
              style_height := style_height c;
              defaults_label := defaults_label c;
              label := label c;
              fields := fields c;
              blockPaths := makePaths this |})
      end
  end.

End Draw.

(** ** [shadeColor] *)

Module Shade.

Local Open Scope Z_scope.

(** [ToInt32], the conversion the bitwise operators apply. *)
Definition toInt32 (z : Z) : Z := (z + 2 ^ 31) mod 2 ^ 32 - 2 ^ 31.

(** The operand of a bitwise operator: [NaN] converts to 0. *)
Definition int32_of (f : option Z) : Z :=
  match f with
  | Some z => toInt32 z
  | None => 0
  end.

(** [Math.round]: the nearest integer, a half going up. *)
Definition round (x : Q) : Z := Qfloor (x + (1 # 2))%Q.

(** [s.slice(1)] *)
Definition slice1 (s : string) : string :=
  match s with
  | String _ rest => rest
  | EmptyString => EmptyString
  end.

Definition hex_char (d : Z) : ascii :=
  if d <? 10 then ascii_of_nat (Z.to_nat (48 + d)) else ascii_of_nat (Z.to_nat (87 + d)).

Fixpoint hex_digits (fuel : nat) (z : Z) (acc : string) : string :=
  match fuel with
  | O => acc
  | S fuel' =>
      let acc' := String (hex_char (z mod 16)) acc in
      if z / 16 =? 0 then acc' else hex_digits fuel' (z / 16) acc'
  end.

(** [z.toString(16)] of an integer. *)
Definition toString16 (z : Z) : string :=
  if z <? 0
  then String "-" (hex_digits (S (Z.to_nat (Z.log2 (- z)))) (- z) EmptyString)
  else hex_digits (S (Z.to_nat (Z.log2 z))) z EmptyString.

(** [shadeColor], lines 687-700. *)
Definition shadeColor (color : string) (shade : Q) : string :=
  let f := int32_of (parseInt (slice1 color) 16) in
  let neg := negb (Qle_bool 0 shade) in
  let t := if neg then 0 else 255 in
  let p := if neg then (shade * - (1))%Q else shade in
  let R := Z.shiftr f 16 in
  let G := Z.land (Z.shiftr f 8) 255 in
  let B := Z.land f 255 in
  let converted :=
    16777216 + (round (inject_Z (t - R) * p) + R) * 65536
             + (round (inject_Z (t - G) * p) + G) * 256
             + (round (inject_Z (t - B) * p) + B) in
  String "#" (slice1 (toString16 converted)).

(** *** The helper as the specification words it *)

(** The red, green and blue channels of a [#rgb] or [#rrggbb] colour. *)
Definition channels (color : string) : option (Z * Z * Z) :=
  match color with
  | String "#" (String r (String g (String b EmptyString))) =>
      match digit_value r, digit_value g, digit_value b with
      | Some r, Some g, Some b => Some (17 * r, 17 * g, 17 * b)
      | _, _, _ => None
      end
  | String "#" (String r1 (String r2 (String g1 (String g2 (String b1 (String b2 EmptyString)))))) =>
      match digit_value r1, digit_value r2, digit_value g1,
            digit_value g2, digit_value b1, digit_value b2 with
      | Some r1, Some r2, Some g1, Some g2, Some b1, Some b2 =>
          Some (16 * r1 + r2, 16 * g1 + g2, 16 * b1 + b2)
      | _, _, _, _, _, _ => None
      end
  | _ => None
  end.

(** One channel moved toward 0 (negative shade) or 255 by [|shade|], rounded. *)
Definition interpolate (c : Z) (shade : Q) : Z :=
  let target := if negb (Qle_bool 0 shade) then 0 else 255 in
  round (inject_Z c + inject_Z (target - c) * Qabs shade)%Q.

Definition hex2 (c : Z) : string :=
  String (hex_char (c / 16)) (String (hex_char (c mod 16)) EmptyString).

(** The colour the specification describes. *)
Definition shade_spec (color : string) (shade : Q) : option string :=
  match channels color with
  | Some (r, g, b) =>
      Some (String "#" (hex2 (interpolate r shade) ++ hex2 (interpolate g shade)
                        ++ hex2 (interpolate b shade))%string)
  | None => None
  end.

End Shade.

(** ** Reading the result of [_makePaths] *)

Section Blocks.

Variable this : funnel.

(** The variables after the first [k] turns of the loop. *)
Definition state_at (k : nat) : vars :=
  loop this 0 (firstn k (data this)) (vars_init this).

(** The path pushed by a turn that starts in [v] and ends in [v']
    (lines 311-340). *)
Definition block_path (v v' : vars) : path :=
  if isCurved this then
    [ pt (prevLeftX v) (prevHeight v) "M";
      pt (middle this) (prevHeight v + (curveHeight this - fin 10)) "Q";
      pt (prevRightX v) (prevHeight v) "";
      pt (nextRightX v') (nextHeight v') "L";
      pt (nextRightX v') (nextHeight v') "M";
      pt (middle this) (nextHeight v' + curveHeight this) "Q";
      pt (nextLeftX v') (nextHeight v') "";
      pt (prevLeftX v) (prevHeight v) "L" ]
  else
    [ pt (prevLeftX v) (prevHeight v) "M";
      pt (prevRightX v) (prevHeight v) "L";
      pt (nextRightX v') (nextHeight v') "L";
      pt (nextLeftX v') (nextHeight v') "L";
      pt (prevLeftX v) (prevHeight v) "L" ].

(** The corners of a block in its path: entries 0, 1, 2, 3 of a straight
    block and 0, 2, 3, 6 of a curved one. *)
Definition entry (p : path) (i : nat) : point := nth i p (pt NaN NaN "").

Definition topLeft_x (p : path) : num := px (entry p 0).
Definition topRight_x (p : path) : num := px (entry p (if isCurved this then 2 else 1)).
Definition bottomRight_x (p : path) : num := px (entry p (if isCurved this then 3 else 2)).
Definition bottomLeft_x (p : path) : num := px (entry p (if isCurved this then 6 else 3)).

(** The area [dy * (topBase + bottomBase) / 2] of the trapezoid of a turn
    of the loop that starts in [v] and ends in [v']. *)
Definition trapezoid_area (v v' : vars) : num :=
  v_dy v' * (topBase v + bottomBase v') / fin 2.

(** The area between the corners of a block path: the distance of its
    edges times the mean of their widths. *)
Definition path_area (p : path) : num :=
  let top := topRight_x p - topLeft_x p in
  let bottom := bottomRight_x p - bottomLeft_x p in
  let depth := py (entry p (if isCurved this then 3 else 2))
               - py (entry p (if isCurved this then 2 else 1)) in
  depth * (top + bottom) / fin 2.

Definition block_areas : list num :=
  map (fun k => trapezoid_area (state_at k) (state_at (S k))) (seq 0 (length (data this))).

End Blocks.

Definition nsum (l : list num) : num := fold_right nadd (fin 0) l.

(** ** Sample inputs *)

Definition plain_row (l : string) (x : R) : row :=
  {| r_label := l; r_value := VNum (fin x); r_color := None; r_labelColor := None |}.

(** The rows [[["A", 40], ["B", 20], ["C", 10]]]. *)
Definition sample_rows : list row := [plain_row "A" 40; plain_row "B" 20; plain_row "C" 10].

(** The default settings in a container of 350 by 400, with some switches. *)
Definition sample_settings (inverted dynamic curved : bool) (pinch : Z) (ratio : R) : settings :=
  {| s_width := fin 350;
     s_height := fin 400;
     s_bottomWidth := fin ratio;
     s_bottomPinch := pinch;
     s_isCurved := curved;
     s_curveHeight := fin 20;
     s_fillType := "solid";
     s_isInverted := inverted;
     s_hoverEffects := false;
     s_dynamicArea := dynamic;
     s_minHeight := None;
     s_animation := None;
     s_onItemClick := false |}.

(** ** Predicates used in the statements *)

(** [x === y] on numbers: both finite and the same ([NaN] equals nothing). *)
Definition num_eq (x y : num) : Prop :=
  match x, y with
  | Some a, Some b => a = b
  | _, _ => False
  end.

(** The running left and right x are finite and symmetric about the middle
    of a chart of width [w], or neither is finite. *)
Definition centred (w : R) (v : vars) : Prop :=
  match prevLeftX v, prevRightX v with
  | Some l, Some r => (l + r = w)%R
  | None, None => True
  | _, _ => False
  end.

(** The value of a row as a real number, and the total of the values. *)
Definition count_value (r : row) : R :=
  match row_count r with
  | Some c => c
  | None => 0%R
  end.

Definition total_value (rows : list row) : R :=
  fold_right (fun r acc => (count_value r + acc)%R) 0%R rows.

(** The row has a finite, positive value. *)
Definition positive_row (r : row) : Prop :=
  exists c : R, row_count r = fin c /\ (0 < c)%R.

(** ** Malformed data and the container *)

(** The malformed inputs the specification lists: the empty list, a value
    that is not a list, a first row with fewer than two fields (a list that
    is too short, or no list at all). *)
Inductive malformed : jsval -> Prop :=
| malformed_empty : malformed (JArr [])
| malformed_not_list (d : jsval) : isArray d = false -> malformed d
| malformed_first_row (cells rest : list jsval) :
    (length cells < 2)%nat -> malformed (JArr (JArr cells :: rest))
| malformed_first_not_row (first : jsval) (rest : list jsval) :
    isArray first = false -> malformed (JArr (first :: rest)).

(** No [svg] element in a node, at any depth. *)
Fixpoint svg_free (n : node) : bool :=
  match n with
  | Node tag children => negb (String.eqb tag "svg") && forallb svg_free children
  end.

(** The ten colours of the category10 palette of the rendering library. *)
Definition category10 (i : nat) : string :=
  nth (i mod 10)
      ["#1f77b4"; "#ff7f0e"; "#2ca02c"; "#d62728"; "#9467bd";
       "#8c564b"; "#e377c2"; "#7f7f7f"; "#bcbd22"; "#17becf"] "#1f77b4".

(** A container of 350 by 400 that holds a heading and the [svg] of an
    earlier [draw]. *)
Definition drawn_chart : chart :=
  new_chart [Node "h1" []; Node "svg" [Node "g" [Node "path" []; Node "text" []]]]
            "350px" "400px".

(** [[["A", 40], ["B", 20], ["C", 10]]] as a value. *)
Definition sample_data : jsval :=
  JArr [JArr [JStr "A"; JNum (fin 40)]; JArr [JStr "B"; JNum (fin 20)];
        JArr [JStr "C"; JNum (fin 10)]].

(** The options [{label: l}]. *)
Definition label_options (l : gmap string jsval) : options :=
  {| o_width := None; o_height := None; o_bottomWidth := None; o_bottomPinch := None;
     o_isCurved := None; o_curveHeight := None; o_fillType := None; o_isInverted := None;
     o_hoverEffects := None; o_dynamicArea := None; o_minHeight := None;
     o_animation := None; o_onItemClick := None; o_label := Some l |}.

(** A container of 350 by 400 with nothing drawn in it. *)
Definition sample_chart : chart := new_chart [] "350px" "400px".

(** The options [{bottomWidth: ratio, dynamicArea: true}]. *)
Definition dynamic_options (ratio : R) : options :=
  {| o_width := None; o_height := None; o_bottomWidth := Some (fin ratio);
     o_bottomPinch := None; o_isCurved := None; o_curveHeight := None; o_fillType := None;
     o_isInverted := None; o_hoverEffects := None; o_dynamicArea := Some true;
     o_minHeight := None; o_animation := None; o_onItemClick := None; o_label := None |}.

(** ** More of the class: what the renderer reads and writes *)

From stdpp Require Import pretty.

Local Open Scope num_scope.

Section Heights.

Variable this : funnel.

(** The y of the top and of the bottom edge of a block, in its path. *)
Definition top_y (p : path) : num := py (entry p 0).
Definition bottom_y (p : path) : num := py (entry p (if isCurved this then 3 else 2)).

End Heights.

(** ** Counting elements *)

(** The number of [svg] elements in a node, at any depth. *)
Fixpoint svg_count (n : node) : nat :=
  match n with
  | Node tag children =>
      (if String.eqb tag "svg" then 1 else 0) + list_sum (map svg_count children)
  end.

(** The children [draw] gives the [svg] element before it returns or
    throws (lines 79-90), for the chart fields [this] and the rows of the
    data. *)
Definition chart_children (this : funnel) (rows : list jsval) : list node :=
  (if String.eqb (fillType this) "gradient" then [defineColorGradients (data this)] else [])
  ++ (if isCurved this then [Node "path" []] else [])
  ++ snd (drawBlock (match animation this with Some _ => true | None => false end) rows).

(** ** Fills, gradients and labels *)

(** [_getColor(index)], lines 566-573.  [None] when the row has no colour,
    or does not exist (the read then throws). *)
Definition getColor (this : funnel) (index : nat) : option string :=
  if String.eqb (fillType this) "solid" then
    match data this !! index with
    | Some r => r_color r
    | None => None
    end
  else Some ("url(#gradient-" ++ pretty index ++ ")")%string.

(** A [linearGradient] element: its [id] and its stops, each an offset
    and a colour. *)
Record gradient := {
  g_id : string;
  g_stops : list (string * string)
}.

(** Lines 364-388, for the row of index [i] and its colour. *)
Definition gradient_of (i : nat) (color : string) : gradient :=
  let shade := Shade.shadeColor color (-1 # 4) in
  {| g_id := ("gradient-" ++ pretty i)%string;
     g_stops := [("0%", shade); ("40%", color); ("60%", color); ("100%", shade)] |}.

(** [_defineColorGradients], lines 358-390, from row [i] on: the gradients
    it defines; [None] when a row has no colour ([shadeColor] then
    throws). *)
Fixpoint colorGradients (i : nat) (rows : list row) : option (list gradient) :=
  match rows with
  | [] => Some []
  | r :: rest =>
      match r_color r, colorGradients (S i) rest with
      | Some color, Some gradients => Some (gradient_of i color :: gradients)
      | _, _ => None
      end
  end.

(** The [text] element of a block. *)
Record text_label := {
  t_text : string;
  t_x : num;
  t_y : num;
  t_fill : option jsval;
  t_fontSize : option jsval
}.

Section Labels.

(** [Number.prototype.toLocaleString], the formatting of the platform. *)
Variable toLocaleString : num -> string.

(** The [formattedValue] of [_getBlockData], lines 551-553, for a value
    that is a number or a pair.  ([draw] does not come to the label of a row
    whose value is [undefined] or [null]: see [value_throws].) *)
Definition formattedValue (r : row) : string :=
  match r_value r with
  | VPair _ formatted => formatted
  | VNum x => toLocaleString x
  end.

(** [_addBlockLabel], lines 620-644: the text element added for the row
    [index], from the label settings and the block paths; [None] when the
    row or its path does not exist (the reads then throw). *)
Definition addBlockLabel (this : funnel) (lbl : gmap string jsval) (blockPaths : list path)
    (index : nat) : option text_label :=
  match data this !! index, blockPaths !! index with
  | Some r, Some paths =>
      Some {| t_text := (r_label r ++ ": " ++ formattedValue r)%string;
              t_x := width this / fin 2;
              t_y := if negb (isCurved this)
                     then (py (entry paths 1) + py (entry paths 2)) / fin 2
                     else (py (entry paths 2) + py (entry paths 3)) / fin 2
                          + (curveHeight this / of_nat (length (data this)));
              t_fill := match r_labelColor r with
                        | Some s => if String.eqb s "" then lbl !! "fill" else Some (JStr s)
                        | None => lbl !! "fill"
                        end;
              t_fontSize := lbl !! "fontSize" |}
  | _, _ => None
  end.

End Labels.

(** * Properties *)

(** ** Arithmetic of [num] *)

Lemma ndiv_fin (a b : R) : b <> 0%R -> fin a / fin b = fin (a / b).
Proof.
  intros Hb. unfold ndiv, fin. destruct (Req_dec_T b 0) as [E | _]; [contradiction | reflexivity].
Qed.

Lemma ndiv_by_zero (x : num) : x / fin 0 = NaN.
Proof.
  destruct x as [a |]; [| reflexivity].
  unfold ndiv, fin. destruct (Req_dec_T 0 0) as [_ | N]; [reflexivity | contradiction].
Qed.

Lemma nsqrt_fin (a : R) : (0 <= a)%R -> nsqrt (fin a) = fin (sqrt a).
Proof.
  intros Ha. unfold nsqrt, fin. destruct (Rlt_dec a 0) as [L | _]; [lra | reflexivity].
Qed.

Lemma nle_fin_true (a b : R) : (a <= b)%R -> (fin a <=? fin b) = true.
Proof.
  intros H. unfold nle, fin. destruct (Rle_dec a b); [reflexivity | contradiction].
Qed.

Lemma nle_fin_false (a b : R) : (b < a)%R -> (fin a <=? fin b) = false.
Proof.
  intros H. unfold nle, fin. destruct (Rle_dec a b); [lra | reflexivity].
Qed.

Lemma INR_length_pos {A} (l : list A) : l <> [] -> (0 < INR (length l))%R.
Proof.
  intros H. destruct l as [| a l]; [contradiction |].
  change (length (a :: l)) with (S (length l)). rewrite S_INR.
  pose proof (pos_INR (length l)). lra.
Qed.

(** ** The loop *)

Section LoopFacts.

Variable this : funnel.

Lemma loop_app (l1 l2 : list row) (i : nat) (v : vars) :
  loop this i (l1 ++ l2) v = loop this (i + length l1) l2 (loop this i l1 v).
Proof.
  revert i v. induction l1 as [| r l1 IH]; intros i v; simpl.
  - now rewrite Nat.add_0_r.
  - rewrite IH. f_equal. lia.
Qed.

Lemma loop_body_paths (i : nat) (r : row) (v : vars) :
  paths (loop_body this i r v) = paths v ++ [block_path this v (loop_body this i r v)].
Proof.
  unfold loop_body, block_path.
  destruct (dynamicArea this); destruct (isCurved this); reflexivity.
Qed.

Lemma state_at_0 : state_at this 0 = vars_init this.
Proof. reflexivity. Qed.

Lemma state_at_S (k : nat) (r : row) :
  data this !! k = Some r ->
  state_at this (S k) = loop_body this k r (state_at this k).
Proof.
  intros Hk. unfold state_at.
  pose proof (lookup_lt_Some _ _ _ Hk) as Hlen.
  rewrite (take_S_r _ _ _ Hk), loop_app. simpl.
  rewrite length_take, Nat.min_l by lia. reflexivity.
Qed.

End LoopFacts.

(** ** One path per row *)

Section PathsFacts.

Variable this : funnel.

Lemma state_at_all : state_at this (length (data this)) = loop this 0 (data this) (vars_init this).
Proof. unfold state_at. now rewrite firstn_all. Qed.

Lemma paths_state_at (k : nat) :
  (k <= length (data this))%nat ->
  paths (state_at this k)
  = map (fun j => block_path this (state_at this j) (state_at this (S j))) (seq 0 k).
Proof.
  induction k as [| k IH]; intros Hk; [reflexivity |].
  destruct (lookup_lt_is_Some_2 (data this) k) as [r Hr]; [lia |].
  rewrite seq_S, map_app. simpl. rewrite <- IH by lia.
  rewrite (state_at_S this k r Hr) at 1. rewrite loop_body_paths.
  now rewrite <- (state_at_S this k r Hr).
Qed.

Lemma makePaths_blocks :
  makePaths this
  = map (fun j => block_path this (state_at this j) (state_at this (S j)))
        (seq 0 (length (data this))).
Proof.
  unfold makePaths. rewrite <- state_at_all. now apply paths_state_at.
Qed.

Lemma makePaths_length : length (makePaths this) = length (data this).
Proof. rewrite makePaths_blocks. now rewrite length_map, length_seq. Qed.

Lemma makePaths_lookup (i : nat) :
  (i < length (data this))%nat ->
  makePaths this !! i = Some (block_path this (state_at this i) (state_at this (S i))).
Proof.
  intros Hi. rewrite makePaths_blocks, list_lookup_fmap.
  now rewrite lookup_seq_lt by lia.
Qed.

Lemma block_path_length (v v' : vars) :
  length (block_path this v v') = if isCurved this then 8%nat else 5%nat.
Proof. unfold block_path. now destruct (isCurved this). Qed.

End PathsFacts.

(** C3.  [_makePaths] returns as many paths as there are rows; the path at
    index [i] is the one the turn of the loop for row [i] pushes, built from
    the variables left by the rows before it; it has 5 entries, or 8 when the
    chart is curved. *)
Theorem makePaths_one_path_per_row (this : funnel) :
  length (makePaths this) = length (data this) /\
  forall (i : nat) (r : row),
    data this !! i = Some r ->
    exists p : path,
      makePaths this !! i = Some p /\
      p = block_path this (state_at this i) (loop_body this i r (state_at this i)) /\
      length p = if isCurved this then 8%nat else 5%nat.
Proof.
  split; [apply makePaths_length |].
  intros i r Hr. eexists. split; [| split].
  - apply makePaths_lookup. now apply lookup_lt_Some in Hr.
  - now rewrite (state_at_S this i r Hr).
  - apply block_path_length.
Qed.

Lemma makePaths_one_path_per_row_witness :
  length (makePaths (init_fields (sample_settings false false false 0 (1 / 3)) sample_rows)) = 3%nat /\
  exists p : path,
    makePaths (init_fields (sample_settings false false false 0 (1 / 3)) sample_rows) !! 1%nat
    = Some p /\ length p = 5%nat.
Proof.
  destruct (makePaths_one_path_per_row
              (init_fields (sample_settings false false false 0 (1 / 3)) sample_rows))
    as [Hlen Hrows].
  split; [exact Hlen |].
  destruct (Hrows 1%nat (plain_row "B" 20) eq_refl) as (p & Hp & _ & Hl).
  exists p. split; [exact Hp | exact Hl].
Defined.

(** ** What a turn of the loop writes *)

Section BodyFacts.

Variable this : funnel.

Lemma body_prevLeftX (i : nat) (r : row) (v : vars) :
  prevLeftX (loop_body this i r v)
  = if isInverted this then prevLeftX v - v_dx (loop_body this i r v)
    else prevLeftX v + v_dx (loop_body this i r v).
Proof. unfold loop_body. now destruct (dynamicArea this). Qed.

Lemma body_prevRightX (i : nat) (r : row) (v : vars) :
  prevRightX (loop_body this i r v)
  = if isInverted this then prevRightX v + v_dx (loop_body this i r v)
    else prevRightX v - v_dx (loop_body this i r v).
Proof. unfold loop_body. now destruct (dynamicArea this). Qed.

Lemma body_nextLeftX (i : nat) (r : row) (v : vars) :
  nextLeftX (loop_body this i r v) = prevLeftX (loop_body this i r v).
Proof. unfold loop_body. now destruct (dynamicArea this). Qed.

Lemma body_nextRightX (i : nat) (r : row) (v : vars) :
  nextRightX (loop_body this i r v) = prevRightX (loop_body this i r v).
Proof. unfold loop_body. now destruct (dynamicArea this). Qed.

Lemma body_static_dx (i : nat) (r : row) (v : vars) :
  dynamicArea this = false ->
  v_dx (loop_body this i r v)
  = if (bottomPinch this >? 0)%Z then
      if negb (isInverted this) then
        if (Z.of_nat i >=? Z.of_nat (length (data this)) - bottomPinch this)%Z
        then fin 0 else v_dx v
      else if (Z.of_nat i <? bottomPinch this)%Z then fin 0 else dx this
    else v_dx v.
Proof. intros Hd. unfold loop_body. now rewrite Hd. Qed.

(** The corners of the block of row [i] are the running x before and after
    its turn. *)
Lemma block_corners (v v' : vars) :
  topLeft_x (block_path this v v') = prevLeftX v /\
  topRight_x this (block_path this v v') = prevRightX v /\
  bottomRight_x this (block_path this v v') = nextRightX v' /\
  bottomLeft_x this (block_path this v v') = nextLeftX v'.
Proof.
  unfold topLeft_x, topRight_x, bottomRight_x, bottomLeft_x, block_path.
  now destruct (isCurved this).
Qed.

Lemma state_next_x (k : nat) :
  (k < length (data this))%nat ->
  nextLeftX (state_at this (S k)) = prevLeftX (state_at this (S k)) /\
  nextRightX (state_at this (S k)) = prevRightX (state_at this (S k)).
Proof.
  intros Hk. destruct (lookup_lt_is_Some_2 (data this) k Hk) as [r Hr].
  rewrite (state_at_S this k r Hr). split; [apply body_nextLeftX | apply body_nextRightX].
Qed.

(** The corners of the path at index [i], from the running variables. *)
Lemma path_corners (i : nat) (p : path) :
  makePaths this !! i = Some p ->
  (i < length (data this))%nat /\
  topLeft_x p = prevLeftX (state_at this i) /\
  topRight_x this p = prevRightX (state_at this i) /\
  bottomRight_x this p = prevRightX (state_at this (S i)) /\
  bottomLeft_x this p = prevLeftX (state_at this (S i)).
Proof.
  intros Hp.
  assert (Hi : (i < length (data this))%nat).
  { apply lookup_lt_Some in Hp. now rewrite makePaths_length in Hp. }
  rewrite (makePaths_lookup this i Hi) in Hp. injection Hp as <-.
  destruct (block_corners (state_at this i) (state_at this (S i))) as (-> & -> & -> & ->).
  destruct (state_next_x i Hi) as [-> ->]. auto.
Qed.

(** *** Symmetry about the middle *)

Lemma centred_init (w : R) : width this = fin w -> centred w (vars_init this).
Proof.
  intros Hw. unfold centred, vars_init. simpl. rewrite Hw.
  destruct (isInverted this).
  - destruct (bottomLeftX this) as [b |]; simpl; [lra | exact I].
  - simpl. lra.
Qed.

Lemma centred_body (w : R) (i : nat) (r : row) (v : vars) :
  centred w v -> centred w (loop_body this i r v).
Proof.
  unfold centred. rewrite body_prevLeftX, body_prevRightX.
  destruct (v_dx (loop_body this i r v)) as [d |];
    destruct (prevLeftX v) as [l |]; destruct (prevRightX v) as [x |];
    destruct (isInverted this); simpl; intros H; try exact I; try contradiction; lra.
Qed.

Lemma centred_state (w : R) (k : nat) :
  width this = fin w -> (k <= length (data this))%nat -> centred w (state_at this k).
Proof.
  intros Hw. induction k as [| k IH]; intros Hk.
  - now apply centred_init.
  - destruct (lookup_lt_is_Some_2 (data this) k) as [r Hr]; [lia |].
    rewrite (state_at_S this k r Hr). apply centred_body, IH. lia.
Qed.

End BodyFacts.

(** ** Static mode: the running x stay finite *)

Lemma nadd_fin (a b : R) : fin a + fin b = fin (a + b).
Proof. reflexivity. Qed.

Lemma nsub_fin (a b : R) : fin a - fin b = fin (a - b).
Proof. reflexivity. Qed.

Lemma nmul_fin (a b : R) : fin a * fin b = fin (a * b).
Proof. reflexivity. Qed.

Lemma of_Z_fin (z : Z) : of_Z z = fin (IZR z).
Proof. reflexivity. Qed.

Lemma of_nat_fin (n : nat) : of_nat n = fin (INR n).
Proof. reflexivity. Qed.

Lemma fin_inj (a b : R) : fin a = fin b -> a = b.
Proof. now intros [= ->]. Qed.

Create Rewrite HintDb num.
#[local] Hint Rewrite nadd_fin nsub_fin nmul_fin of_Z_fin of_nat_fin : num.

Section Static.

Variables (s : settings) (rows : list row) (w q : R).
Hypothesis Hw : s_width s = fin w.
Hypothesis Hq : s_bottomWidth s = fin q.

Let this := init_fields s rows.

Lemma init_width : width this = fin w.
Proof. exact Hw. Qed.

Lemma init_bottomWidth : bottomWidth this = fin (w * q).
Proof. unfold this. simpl. now rewrite Hw, Hq. Qed.

Lemma init_bottomLeftX : bottomLeftX this = fin ((w - w * q) / 2).
Proof.
  unfold this. simpl. rewrite Hw, Hq. autorewrite with num.
  apply ndiv_fin. lra.
Qed.

Lemma init_data : data this = rows.
Proof. reflexivity. Qed.

Lemma init_dx_plain :
  (s_bottomPinch s <= 0)%Z -> rows <> [] ->
  dx this = fin ((w - w * q) / 2 / INR (length rows)).
Proof.
  intros Hp Hn. pose proof init_bottomLeftX as Hb. unfold this in *. simpl in *.
  destruct (Z.gtb_spec (s_bottomPinch s) 0) as [Hgt | _]; [lia |].
  rewrite Hb. autorewrite with num. apply ndiv_fin.
  pose proof (INR_length_pos rows Hn). lra.
Qed.

Lemma init_dx_pinch :
  (0 < s_bottomPinch s)%Z -> (s_bottomPinch s < Z.of_nat (length rows))%Z ->
  dx this = fin ((w - w * q) / 2 / IZR (Z.of_nat (length rows) - s_bottomPinch s)).
Proof.
  intros Hp Hn. pose proof init_bottomLeftX as Hb. unfold this in *. simpl in *.
  destruct (Z.gtb_spec (s_bottomPinch s) 0) as [_ | Hle]; [| lia].
  rewrite Hb. autorewrite with num. apply ndiv_fin.
  apply not_0_IZR. lia.
Qed.

Hypothesis Hd : s_dynamicArea s = false.

(** In static mode the step of a turn is 0 or the initial step, and it is
    finite. *)
Lemma static_step (k : nat) (r : row) (v : vars) :
  (k < length rows)%nat ->
  v_dx v = dx this \/ v_dx v = fin 0 ->
  exists d : R,
    v_dx (loop_body this k r v) = fin d /\
    (v_dx (loop_body this k r v) = dx this \/ d = 0%R).
Proof.
  intros Hk Hv.
  assert (Hrows : rows <> []) by (intros ->; simpl in Hk; lia).
  rewrite (body_static_dx this k r v Hd).
  change (bottomPinch this) with (s_bottomPinch s).
  change (isInverted this) with (s_isInverted s).
  change (data this) with rows.
  destruct (Z.gtb_spec (s_bottomPinch s) 0) as [Hp | Hp].
  - destruct (s_isInverted s); cbn [negb].
    + destruct (Z.ltb_spec (Z.of_nat k) (s_bottomPinch s)) as [Hlt | Hge].
      * exists 0%R. auto.
      * rewrite init_dx_pinch by lia. eexists. split; [reflexivity | now left].
    + destruct (Z.geb_spec (Z.of_nat k) (Z.of_nat (length rows) - s_bottomPinch s)) as [Hge | Hlt].
      * exists 0%R. auto.
      * destruct Hv as [-> | ->]; [| exists 0%R; auto].
        rewrite init_dx_pinch by lia. eexists. split; [reflexivity | now left].
  - destruct Hv as [-> | ->]; [| exists 0%R; auto].
    rewrite init_dx_plain by (lia || assumption). eexists. split; [reflexivity | now left].
Qed.

Lemma static_finite (k : nat) :
  (k <= length rows)%nat ->
  exists l r : R,
    prevLeftX (state_at this k) = fin l /\
    prevRightX (state_at this k) = fin r /\
    (v_dx (state_at this k) = dx this \/ v_dx (state_at this k) = fin 0).
Proof.
  induction k as [| k IH]; intros Hk.
  - rewrite state_at_0. unfold vars_init.
    change (isInverted this) with (s_isInverted s).
    cbn [prevLeftX prevRightX v_dx].
    rewrite init_bottomLeftX, init_width.
    destruct (s_isInverted s); autorewrite with num; eauto 6.
  - destruct IH as (l & r & Hl & Hr & Hv); [lia |].
    destruct (lookup_lt_is_Some_2 rows k) as [x Hx]; [lia |].
    rewrite (state_at_S this k x Hx).
    destruct (static_step k x (state_at this k)) as (d & Hdx & Hor); [lia | exact Hv |].
    rewrite body_prevLeftX, body_prevRightX, Hdx, Hl, Hr.
    change (isInverted this) with (s_isInverted s).
    destruct (s_isInverted s); autorewrite with num;
      (do 2 eexists; split; [reflexivity | split; [reflexivity |]]);
      (destruct Hor as [<- | ->]; [left | right]; congruence).
Qed.

End Static.

(** ** Values that are not finite *)

Lemma nadd_NaN_r (x : num) : x + NaN = NaN.
Proof. now destruct x. Qed.

Lemma nsub_NaN_r (x : num) : x - NaN = NaN.
Proof. now destruct x. Qed.

Lemma nmul_NaN_r (x : num) : x * NaN = NaN.
Proof. now destruct x. Qed.

Lemma ndiv_NaN_r (x : num) : x / NaN = NaN.
Proof. now destruct x. Qed.

Section DynamicNaN.

Variable this : funnel.
Hypothesis Hdyn : dynamicArea this = true.

Lemma dynamic_topBase (i : nat) (r : row) (v : vars) :
  topBase (loop_body this i r v) = bottomBase (loop_body this i r v).
Proof. unfold loop_body. now rewrite Hdyn. Qed.

Lemma dynamic_dx (i : nat) (r : row) (v : vars) :
  (bottomPinch this <= 0)%Z ->
  v_dx (loop_body this i r v) = topBase v / fin 2 - bottomBase (loop_body this i r v) / fin 2.
Proof.
  intros Hp. unfold loop_body. rewrite Hdyn.
  destruct (Z.gtb_spec (bottomPinch this) 0) as [Hgt | _]; [lia | reflexivity].
Qed.

(** When the slope is not finite, neither is the bottom base. *)
Lemma dynamic_bottomBase_NaN (i : nat) (r : row) (v : vars) :
  slope this = NaN -> bottomBase (loop_body this i r v) = NaN.
Proof.
  intros Hs. unfold loop_body. rewrite Hdyn, Hs. cbn [bottomBase].
  now rewrite ndiv_NaN_r.
Qed.

End DynamicNaN.

(** A bottom width equal to the width makes the slope a division by zero. *)
Lemma slope_ratio_one (s : settings) (rows : list row) (w h : R) :
  s_width s = fin w -> s_height s = fin h -> s_bottomWidth s = fin 1 ->
  slope (init_fields s rows) = NaN.
Proof.
  intros Hw Hh Hq. unfold slope. simpl. rewrite Hw, Hh, Hq. autorewrite with num.
  replace (w - w * 1)%R with 0%R by lra. apply ndiv_by_zero.
Qed.

(** ** The resolved size *)

(** A width or height that is a number is strictly positive after
    [_initialize]: a number that is not is replaced by the default. *)
Lemma fix_size_positive (s : settings) (w h : R) :
  (s_width (fix_size s) = fin w -> (0 < w)%R) /\
  (s_height (fix_size s) = fin h -> (0 < h)%R).
Proof.
  unfold fix_size. cbn [s_width s_height]. split.
  - destruct (s_width s) as [x |]; [| discriminate].
    unfold nle, fin. destruct (Rle_dec x 0) as [Hle | Hgt]; intros [= <-]; lra.
  - destruct (s_height s) as [x |]; [| discriminate].
    unfold nle, fin. destruct (Rle_dec x 0) as [Hle | Hgt]; intros [= <-]; lra.
Qed.

Lemma fix_size_fallback (s : settings) (w h : R) :
  (s_width s = fin w -> (w <= 0)%R -> s_width (fix_size s) = fin 350) /\
  (s_height s = fin h -> (h <= 0)%R -> s_height (fix_size s) = fin 400).
Proof.
  split; intros Hx Hle; unfold fix_size; cbn [s_width s_height]; rewrite Hx;
    now rewrite nle_fin_true.
Qed.

(** The size [_initialize] resolves, when it is a number, is positive. *)
Lemma resolve_positive (c : chart) (o : options) (w h : R) :
  (s_width (resolve c o) = fin w -> (0 < w)%R) /\
  (s_height (resolve c o) = fin h -> (0 < h)%R).
Proof. apply fix_size_positive. Qed.

(** The size resolved for the sample container, when the options give none. *)
Lemma resolve_sample (o : options) :
  o_width o = None -> o_height o = None ->
  s_width (resolve sample_chart o) = fin 350 /\ s_height (resolve sample_chart o) = fin 400.
Proof.
  intros Hw Hh. unfold resolve, fix_size, merge_options. cbn [s_width s_height].
  rewrite Hw, Hh. cbn [default from_option].
  change (s_width (measured sample_chart)) with (fin 350).
  change (s_height (measured sample_chart)) with (fin 400).
  now rewrite !nle_fin_false by lra.
Qed.

(** ** C10: the blocks are centred *)

(** C10, as stated, fails: with [dynamicArea] and a bottom width of 1 the
    slope is [2 * height / 0], the bottom base is [NaN], and so are the bottom
    corners of the first block: their sum is not the width. *)
Lemma centred_fails_for_bottom_width_one :
  let this := init_fields (resolve sample_chart (dynamic_options 1)) sample_rows in
  exists p : path,
    makePaths this !! 0%nat = Some p /\
    ~ num_eq (bottomLeft_x this p + bottomRight_x this p) (width this).
Proof.
  intros this.
  destruct (resolve_sample (dynamic_options 1) eq_refl eq_refl) as [Hw Hh].
  assert (Hlen : (0 < length (data this))%nat).
  { change (length (data this)) with 3%nat. lia. }
  eexists. split; [apply (makePaths_lookup this 0 Hlen) |].
  destruct (path_corners this 0 _ (makePaths_lookup this 0 Hlen)) as (_ & _ & _ & _ & ->).
  rewrite (state_at_S this 0 (plain_row "A" 40) eq_refl), body_prevLeftX.
  change (isInverted this) with false. cbv iota.
  rewrite (dynamic_dx this eq_refl)
    by (change (bottomPinch this) with 0%Z; lia).
  rewrite (dynamic_bottomBase_NaN this eq_refl)
    by (apply (slope_ratio_one _ _ 350 400); [exact Hw | exact Hh | reflexivity]).
  change (NaN / fin 2) with NaN. rewrite nsub_NaN_r, nadd_NaN_r.
  intros H. exact H.
Qed.

(** C10.  In a chart of finite width [w] and bottom width: a top or bottom
    edge whose two x are finite has them at equal distances from the sides,
    whatever the modes; and without [dynamicArea] every edge is finite. *)
Theorem blocks_centred (s : settings) (rows : list row) (w q : R) (i : nat) (p : path) :
  s_width s = fin w ->
  s_bottomWidth s = fin q ->
  makePaths (init_fields s rows) !! i = Some p ->
  (forall l r : R,
     topLeft_x p = fin l -> topRight_x (init_fields s rows) p = fin r -> (l + r = w)%R) /\
  (forall l r : R,
     bottomLeft_x (init_fields s rows) p = fin l ->
     bottomRight_x (init_fields s rows) p = fin r -> (l + r = w)%R) /\
  (s_dynamicArea s = false ->
   exists l r l' r' : R,
     topLeft_x p = fin l /\ topRight_x (init_fields s rows) p = fin r /\
     bottomLeft_x (init_fields s rows) p = fin l' /\
     bottomRight_x (init_fields s rows) p = fin r' /\
     (l + r = w)%R /\ (l' + r' = w)%R).
Proof.
  intros Hw Hq Hp. set (this := init_fields s rows) in *.
  destruct (path_corners this i p Hp) as (Hi & -> & -> & -> & ->).
  assert (Hc : forall k l r, (k <= length (data this))%nat ->
             prevLeftX (state_at this k) = fin l ->
             prevRightX (state_at this k) = fin r -> (l + r = w)%R).
  { intros k l r Hk Hl Hr. pose proof (centred_state this w k Hw Hk) as C.
    unfold centred in C. now rewrite Hl, Hr in C. }
  split; [| split].
  - intros l r. apply Hc. lia.
  - intros l r. apply Hc. lia.
  - intros Hd.
    destruct (static_finite s rows w q Hw Hq Hd i) as (l & r & Hl & Hr & _);
      [change (length rows) with (length (data this)); lia |].
    destruct (static_finite s rows w q Hw Hq Hd (S i)) as (l' & r' & Hl' & Hr' & _);
      [change (length rows) with (length (data this)); lia |].
    fold this in Hl, Hr, Hl', Hr'.
    exists l, r, l', r'. repeat split; try assumption.
    + apply (Hc i); [lia | assumption | assumption].
    + apply (Hc (S i)); [lia | assumption | assumption].
Qed.

Lemma blocks_centred_witness :
  let this := init_fields (sample_settings false false false 0 (1 / 3)) sample_rows in
  exists l r l' r' : R,
    topLeft_x (block_path this (state_at this 0) (state_at this 1)) = fin l /\
    topRight_x this (block_path this (state_at this 0) (state_at this 1)) = fin r /\
    bottomLeft_x this (block_path this (state_at this 0) (state_at this 1)) = fin l' /\
    bottomRight_x this (block_path this (state_at this 0) (state_at this 1)) = fin r' /\
    (l + r = 350)%R /\ (l' + r' = 350)%R.
Proof.
  intros this.
  assert (Hlen : (0 < length (data this))%nat) by (simpl; lia).
  exact (proj2 (proj2 (blocks_centred (sample_settings false false false 0 (1 / 3)) sample_rows
                         350 (1 / 3) 0 _ eq_refl eq_refl (makePaths_lookup this 0 Hlen)))
               eq_refl).
Defined.

(** The rows [[["A", 40], ["B", 20], ["C", 10]]] with the default options
    in a container of 350 by 400: three paths, fifteen entries. *)
Example sample_paths_entries :
  length (concat (makePaths (init_fields (resolve sample_chart no_options) sample_rows)))
  = 15%nat.
Proof.
  rewrite makePaths_blocks.
  change (length (data (init_fields (resolve sample_chart no_options) sample_rows)))
    with 3%nat.
  cbn [seq map concat]. rewrite !length_app, !block_path_length. reflexivity.
Qed.

(** ** C8: pinched blocks have vertical sides *)

(** C8.  Not inverted, no [dynamicArea], a pinch count [0 < p <= n]: each
    of the last [p] blocks has its top-left x equal to its bottom-left x and
    its top-right x equal to its bottom-right x. *)
Theorem pinched_blocks_vertical (s : settings) (rows : list row) (w q : R) (i : nat) (p : path) :
  s_width s = fin w ->
  s_bottomWidth s = fin q ->
  s_isInverted s = false ->
  s_dynamicArea s = false ->
  (0 < s_bottomPinch s <= Z.of_nat (length rows))%Z ->
  (Z.of_nat (length rows) - s_bottomPinch s <= Z.of_nat i)%Z ->
  makePaths (init_fields s rows) !! i = Some p ->
  exists l r : R,
    topLeft_x p = fin l /\ bottomLeft_x (init_fields s rows) p = fin l /\
    topRight_x (init_fields s rows) p = fin r /\ bottomRight_x (init_fields s rows) p = fin r.
Proof.
  intros Hw Hq Hinv Hd Hp Hi Hpath. set (this := init_fields s rows) in *.
  destruct (path_corners this i p Hpath) as (Hlt & -> & -> & -> & ->).
  change (length (data this)) with (length rows) in Hlt.
  destruct (static_finite s rows w q Hw Hq Hd i) as (l & r & Hl & Hr & _); [lia |].
  fold this in Hl, Hr.
  destruct (lookup_lt_is_Some_2 rows i Hlt) as [x Hx].
  rewrite (state_at_S this i x Hx), body_prevLeftX, body_prevRightX.
  rewrite (body_static_dx this i x _ Hd), Hl, Hr.
  change (bottomPinch this) with (s_bottomPinch s).
  change (isInverted this) with (s_isInverted s).
  change (data this) with rows. rewrite Hinv. cbn [negb].
  destruct (Z.gtb_spec (s_bottomPinch s) 0) as [_ | Hle]; [| lia].
  destruct (Z.geb_spec (Z.of_nat i) (Z.of_nat (length rows) - s_bottomPinch s)) as [_ | Hlt'];
    [| lia].
  autorewrite with num. rewrite Rplus_0_r, Rminus_0_r.
  exists l, r. auto.
Qed.

Lemma pinched_blocks_vertical_witness :
  let this := init_fields (sample_settings false false false 1 (1 / 3)) sample_rows in
  exists l r : R,
    topLeft_x (block_path this (state_at this 2) (state_at this 3)) = fin l /\
    bottomLeft_x this (block_path this (state_at this 2) (state_at this 3)) = fin l /\
    topRight_x this (block_path this (state_at this 2) (state_at this 3)) = fin r /\
    bottomRight_x this (block_path this (state_at this 2) (state_at this 3)) = fin r.
Proof.
  intros this.
  assert (Hlen : (2 < length (data this))%nat) by (simpl; lia).
  apply (pinched_blocks_vertical (sample_settings false false false 1 (1 / 3)) sample_rows
           350 (1 / 3) 2);
    [reflexivity | reflexivity | reflexivity | reflexivity | simpl; lia | simpl; lia |].
  exact (makePaths_lookup this 2 Hlen).
Defined.

(** ** C6 and C7: the outer edges of a plain funnel *)

Section Plain.

Variables (s : settings) (rows : list row) (w q : R).
Hypothesis Hw : s_width s = fin w.
Hypothesis Hq : s_bottomWidth s = fin q.
Hypothesis Hd : s_dynamicArea s = false.
Hypothesis Hp : s_bottomPinch s = 0%Z.
Hypothesis Hrows : rows <> [].

Let this := init_fields s rows.
Let d : R := ((w - w * q) / 2 / INR (length rows))%R.

Lemma plain_dx : dx this = fin d.
Proof. apply init_dx_plain; try assumption. lia. Qed.

Lemma plain_body_dx (k : nat) (r : row) (v : vars) :
  v_dx (loop_body this k r v) = v_dx v.
Proof.
  rewrite (body_static_dx this k r v Hd).
  change (bottomPinch this) with (s_bottomPinch s). now rewrite Hp.
Qed.

(** Without a pinch the x move by [d] at each row, inward, or outward when
    inverted. *)
Lemma plain_state (k : nat) :
  (k <= length rows)%nat ->
  v_dx (state_at this k) = fin d /\
  prevLeftX (state_at this k)
  = fin (if s_isInverted s then (w - w * q) / 2 - INR k * d else INR k * d) /\
  prevRightX (state_at this k)
  = fin (if s_isInverted s then w - (w - w * q) / 2 + INR k * d else w - INR k * d).
Proof.
  induction k as [| k IH]; intros Hk.
  - rewrite state_at_0. unfold vars_init. cbn [v_dx prevLeftX prevRightX].
    change (isInverted this) with (s_isInverted s).
    rewrite plain_dx. unfold this.
    rewrite (init_bottomLeftX s rows w q Hw Hq), (init_width s rows w Hw).
    destruct (s_isInverted s); autorewrite with num; simpl INR;
      (split; [reflexivity | split; f_equal; lra]).
  - destruct IH as (Hdx & Hl & Hr); [lia |].
    destruct (lookup_lt_is_Some_2 rows k) as [x Hx]; [lia |].
    rewrite (state_at_S this k x Hx), body_prevLeftX, body_prevRightX, plain_body_dx.
    rewrite Hdx, Hl, Hr. change (isInverted this) with (s_isInverted s).
    rewrite S_INR.
    destruct (s_isInverted s); autorewrite with num;
      (split; [reflexivity | split; f_equal; lra]).
Qed.

Lemma plain_total_step : (INR (length rows) * d = (w - w * q) / 2)%R.
Proof.
  unfold d. pose proof (INR_length_pos rows Hrows). field. lra.
Qed.

(** The first and the last path, with the width of the top edge of the one
    and of the bottom edge of the other. *)
Lemma plain_edges :
  exists first last : path,
    makePaths this !! 0%nat = Some first /\
    makePaths this !! (length rows - 1)%nat = Some last /\
    topRight_x this first - topLeft_x first
    = fin (if s_isInverted s then w * q else w) /\
    bottomRight_x this last - bottomLeft_x this last
    = fin (if s_isInverted s then w else w * q).
Proof.
  assert (Hn : (0 < length rows)%nat).
  { destruct rows; [contradiction | simpl; lia]. }
  assert (H0 : (0 < length (data this))%nat) by exact Hn.
  assert (Hl : (length rows - 1 < length (data this))%nat).
  { change (length (data this)) with (length rows). lia. }
  do 2 eexists.
  split; [exact (makePaths_lookup this 0 H0) |].
  split; [exact (makePaths_lookup this _ Hl) |].
  destruct (path_corners this 0 _ (makePaths_lookup this 0 H0)) as (_ & -> & -> & _ & _).
  destruct (path_corners this _ _ (makePaths_lookup this _ Hl)) as (_ & _ & _ & -> & ->).
  replace (S (length rows - 1)) with (length rows) by lia.
  destruct (plain_state 0) as (_ & -> & ->); [lia |].
  destruct (plain_state (length rows)) as (_ & -> & ->); [lia |].
  pose proof plain_total_step as Ht. simpl INR.
  destruct (s_isInverted s); autorewrite with num; split; f_equal; lra.
Qed.

End Plain.

(** C6.  Not inverted, no pinch, no [dynamicArea], not curved, at least one
    row: the top edge of the first block is as wide as the chart, and the
    bottom edge of the last block is as wide as the bottom width
    [width * bottomWidth]. *)
Theorem plain_funnel_edges (s : settings) (rows : list row) (w q : R) :
  rows <> [] ->
  s_width s = fin w ->
  s_bottomWidth s = fin q ->
  s_isInverted s = false ->
  s_bottomPinch s = 0%Z ->
  s_dynamicArea s = false ->
  s_isCurved s = false ->
  exists first last : path,
    makePaths (init_fields s rows) !! 0%nat = Some first /\
    makePaths (init_fields s rows) !! (length rows - 1)%nat = Some last /\
    topRight_x (init_fields s rows) first - topLeft_x first = fin w /\
    bottomRight_x (init_fields s rows) last - bottomLeft_x (init_fields s rows) last
    = fin (w * q) /\
    bottomWidth (init_fields s rows) = fin (w * q).
Proof.
  intros Hrows Hw Hq Hinv Hp Hd _.
  destruct (plain_edges s rows w q Hw Hq Hd Hp Hrows) as (first & last & H0 & Hl & Ht & Hb).
  rewrite Hinv in Ht, Hb.
  exists first, last. repeat split; try assumption.
  now apply init_bottomWidth.
Qed.

Lemma plain_funnel_edges_witness :
  exists first last : path,
    makePaths (init_fields (sample_settings false false false 0 (1 / 3)) sample_rows) !! 0%nat
    = Some first /\
    makePaths (init_fields (sample_settings false false false 0 (1 / 3)) sample_rows) !! 2%nat
    = Some last /\
    topRight_x (init_fields (sample_settings false false false 0 (1 / 3)) sample_rows) first
    - topLeft_x first = fin 350 /\
    bottomRight_x (init_fields (sample_settings false false false 0 (1 / 3)) sample_rows) last
    - bottomLeft_x (init_fields (sample_settings false false false 0 (1 / 3)) sample_rows) last
    = fin (350 * (1 / 3)).
Proof.
  destruct (plain_funnel_edges (sample_settings false false false 0 (1 / 3)) sample_rows
              350 (1 / 3))
    as (first & last & H0 & Hl & Ht & Hb & _);
    [discriminate | reflexivity | reflexivity | reflexivity | reflexivity
     | reflexivity | reflexivity |].
  exists first, last. repeat split; assumption.
Defined.

(** C7.  Inverted, no pinch, no [dynamicArea], not curved, at least one
    row: the widths of C6 are swapped; the top edge of the first block is as
    wide as the bottom width, the bottom edge of the last block as wide as the
    chart. *)
Theorem inverted_funnel_edges (s : settings) (rows : list row) (w q : R) :
  rows <> [] ->
  s_width s = fin w ->
  s_bottomWidth s = fin q ->
  s_isInverted s = true ->
  s_bottomPinch s = 0%Z ->
  s_dynamicArea s = false ->
  s_isCurved s = false ->
  exists first last : path,
    makePaths (init_fields s rows) !! 0%nat = Some first /\
    makePaths (init_fields s rows) !! (length rows - 1)%nat = Some last /\
    topRight_x (init_fields s rows) first - topLeft_x first = fin (w * q) /\
    bottomRight_x (init_fields s rows) last - bottomLeft_x (init_fields s rows) last
    = fin w /\
    bottomWidth (init_fields s rows) = fin (w * q).
Proof.
  intros Hrows Hw Hq Hinv Hp Hd _.
  destruct (plain_edges s rows w q Hw Hq Hd Hp Hrows) as (first & last & H0 & Hl & Ht & Hb).
  rewrite Hinv in Ht, Hb.
  exists first, last. repeat split; try assumption.
  now apply init_bottomWidth.
Qed.

Lemma inverted_funnel_edges_witness :
  exists first last : path,
    makePaths (init_fields (sample_settings true false false 0 (1 / 3)) sample_rows) !! 0%nat
    = Some first /\
    makePaths (init_fields (sample_settings true false false 0 (1 / 3)) sample_rows) !! 2%nat
    = Some last /\
    topRight_x (init_fields (sample_settings true false false 0 (1 / 3)) sample_rows) first
    - topLeft_x first = fin (350 * (1 / 3)) /\
    bottomRight_x (init_fields (sample_settings true false false 0 (1 / 3)) sample_rows) last
    - bottomLeft_x (init_fields (sample_settings true false false 0 (1 / 3)) sample_rows) last
    = fin 350.
Proof.
  destruct (inverted_funnel_edges (sample_settings true false false 0 (1 / 3)) sample_rows
              350 (1 / 3))
    as (first & last & H0 & Hl & Ht & Hb & _);
    [discriminate | reflexivity | reflexivity | reflexivity | reflexivity
     | reflexivity | reflexivity |].
  exists first, last. repeat split; assumption.
Defined.

(** ** C1: dynamic areas *)

Lemma positive_row_value (r : row) :
  positive_row r -> row_count r = fin (count_value r) /\ (0 < count_value r)%R.
Proof. intros (c & Hc & Hpos). unfold count_value. now rewrite Hc. Qed.

Lemma total_value_nonneg (rows : list row) :
  Forall positive_row rows -> (0 <= total_value rows)%R.
Proof.
  induction 1 as [| r rows Hr _ IH]; simpl; [lra |].
  destruct (positive_row_value r Hr) as [_ Hpos]. lra.
Qed.

Lemma total_value_pos (rows : list row) :
  Forall positive_row rows -> rows <> [] -> (0 < total_value rows)%R.
Proof.
  intros H Hne. destruct H as [| r rows Hr Hrest]; [contradiction |]. simpl.
  destruct (positive_row_value r Hr) as [_ Hpos].
  pose proof (total_value_nonneg rows Hrest). lra.
Qed.

Lemma total_value_app (l1 l2 : list row) :
  total_value (l1 ++ l2) = (total_value l1 + total_value l2)%R.
Proof. induction l1 as [| r l1 IH]; simpl; [lra | rewrite IH; lra]. Qed.

Lemma total_value_take_S (rows : list row) (k : nat) (r : row) :
  rows !! k = Some r ->
  total_value (take (S k) rows) = (total_value (take k rows) + count_value r)%R.
Proof.
  intros Hk. rewrite (take_S_r _ _ _ Hk), total_value_app. simpl. lra.
Qed.

(** The total of the first [k] values is below the total when a row is
    left, for positive values. *)
Lemma total_value_take_lt (rows : list row) (k : nat) (r : row) :
  Forall positive_row rows -> rows !! k = Some r ->
  (0 <= total_value (take k rows))%R /\
  (total_value (take k rows) + count_value r <= total_value rows)%R /\
  (0 < count_value r)%R.
Proof.
  intros Hall Hk.
  rewrite <- (take_drop_middle rows k r Hk) at 3.
  rewrite total_value_app. simpl.
  assert (H1 : Forall positive_row (take k rows)) by now apply Forall_take.
  assert (H2 : Forall positive_row (drop (S k) rows)) by now apply Forall_drop.
  pose proof (total_value_nonneg _ H1). pose proof (total_value_nonneg _ H2).
  assert (Hr : positive_row r).
  { rewrite Forall_forall in Hall. apply Hall, list_elem_of_lookup. eauto. }
  destruct (positive_row_value r Hr) as [_ Hpos]. lra.
Qed.

Lemma totalCount_fold (rows : list row) (a : R) :
  Forall positive_row rows ->
  fold_left (fun acc r => acc + row_count r) rows (fin a) = fin (a + total_value rows).
Proof.
  intros H. revert a. induction H as [| r rows Hr _ IH]; intros a; cbn [fold_left].
  - f_equal. simpl. lra.
  - destruct (positive_row_value r Hr) as [-> _]. autorewrite with num.
    rewrite IH. f_equal.
    change (total_value (r :: rows)) with (count_value r + total_value rows)%R. lra.
Qed.

Lemma nsum_fin_map (rows : list row) (g : row -> R) :
  nsum (map (fun r => fin (g r)) rows) = fin (fold_right (fun r acc => (g r + acc)%R) 0%R rows).
Proof.
  induction rows as [| r rows IH]; [reflexivity |].
  simpl map. unfold nsum in *. simpl fold_right. rewrite IH. reflexivity.
Qed.

Lemma sum_shares (rows : list row) (k : R) :
  fold_right (fun r acc => (count_value r * k + acc)%R) 0%R rows = (total_value rows * k)%R.
Proof. induction rows as [| r rows IH]; simpl; [lra | rewrite IH; lra]. Qed.

Lemma share_bounds (a c T : R) :
  (0 <= a)%R -> (0 < c)%R -> (a + c <= T)%R ->
  (0 <= a / T)%R /\ (0 < c / T)%R /\ (a / T + c / T <= 1)%R.
Proof.
  intros Ha Hc HT.
  assert (HTpos : (0 < T)%R) by lra.
  pose proof (Rinv_0_lt_compat T HTpos) as Hi.
  assert (H1 : (T * / T = 1)%R) by (apply Rinv_r; lra).
  unfold Rdiv. repeat split; nra.
Qed.

Lemma convex_square_nonneg (w b x : R) :
  (0 <= x <= 1)%R -> (0 <= w * w - x * (w * w - b * b))%R.
Proof.
  intros [H0 H1].
  replace (w * w - x * (w * w - b * b))%R with ((1 - x) * (w * w) + x * (b * b))%R by ring.
  pose proof (Rle_0_sqr w) as Hw. pose proof (Rle_0_sqr b) as Hb. unfold Rsqr in *.
  apply Rplus_le_le_0_compat; apply Rmult_le_pos; lra.
Qed.

Lemma convex_square_pos (w b x : R) :
  (0 < w)%R -> (0 <= x < 1)%R -> (0 < w * w - x * (w * w - b * b))%R.
Proof.
  intros Hw [H0 H1].
  replace (w * w - x * (w * w - b * b))%R with ((1 - x) * (w * w) + x * (b * b))%R by ring.
  pose proof (Rle_0_sqr b) as Hb. unfold Rsqr in *.
  apply Rplus_lt_le_0_compat; [| apply Rmult_le_pos; lra].
  apply Rmult_lt_0_compat; [lra |]. now apply Rmult_lt_0_compat.
Qed.

Section DynamicArea.

Variables (s : settings) (rows : list row) (w h q : R).
Hypothesis Hw : s_width s = fin w.
Hypothesis Hh : s_height s = fin h.
Hypothesis Hq : s_bottomWidth s = fin q.
Hypothesis Hdyn : s_dynamicArea s = true.
Hypothesis Hcur : s_isCurved s = false.
Hypothesis Hmin : s_minHeight s = None.
Hypothesis Hwpos : (0 < w)%R.
Hypothesis Hhpos : (0 < h)%R.
Hypothesis Hq1 : q <> 1%R.
Hypothesis Hall : Forall positive_row rows.
Hypothesis Hrows : rows <> [].

Let this := init_fields s rows.
Let T : R := total_value rows.
Let A : R := (h * (w + w * q) / 2)%R.
Let D : R := (w * w - (w * q) * (w * q))%R.
Let sl : R := (2 * h / (w - w * q))%R.

Lemma dyn_T_pos : (0 < T)%R.
Proof. now apply total_value_pos. Qed.

Lemma dyn_base_diff : (w - w * q <> 0)%R.
Proof. intros H. apply Hq1. nra. Qed.

Lemma dyn_totalCount : totalCount this = fin T.
Proof.
  unfold totalCount. change (data this) with rows.
  rewrite totalCount_fold by assumption. f_equal. unfold T. lra.
Qed.

Lemma dyn_totalArea : totalArea this = fin A.
Proof.
  unfold totalArea. change (minHeight this) with (s_minHeight s). rewrite Hmin.
  unfold this. rewrite (init_bottomWidth s rows w q Hw Hq), (init_width s rows w Hw).
  change (height (init_fields s rows)) with (s_height s). rewrite Hh.
  autorewrite with num. apply ndiv_fin. lra.
Qed.

Lemma dyn_slope : slope this = fin sl.
Proof.
  unfold slope, this. rewrite (init_bottomWidth s rows w q Hw Hq), (init_width s rows w Hw).
  change (height (init_fields s rows)) with (s_height s). rewrite Hh.
  autorewrite with num. apply ndiv_fin, dyn_base_diff.
Qed.

Lemma dyn_sl_neq : sl <> 0%R.
Proof.
  unfold sl. pose proof dyn_base_diff as Hb.
  intros H. apply (Rmult_eq_compat_r (w - w * q)) in H.
  unfold Rdiv in H. rewrite Rmult_assoc, Rinv_l, Rmult_0_l in H by assumption. lra.
Qed.

(** Lines 258-275 for this chart: no minimum height, not curved. *)
Lemma dyn_body (i : nat) (r : row) (v : vars) :
  bottomBase (loop_body this i r v)
  = nsqrt ((slope this * topBase v * topBase v
            - fin 4 * (row_count r / totalCount this * totalArea this)) / slope this) /\
  v_dy (loop_body this i r v)
  = (row_count r / totalCount this * totalArea this * fin 2)
    / (topBase v + bottomBase (loop_body this i r v)) /\
  topBase (loop_body this i r v) = bottomBase (loop_body this i r v).
Proof.
  unfold loop_body.
  change (dynamicArea this) with (s_dynamicArea s).
  change (minHeight this) with (s_minHeight s).
  change (isCurved this) with (s_isCurved s).
  rewrite Hdyn, Hmin, Hcur. auto.
Qed.

(** One turn from a positive top base [t], for a row of value [c] whose
    share leaves a radicand that is not negative. *)
Lemma dyn_step (i : nat) (r : row) (v : vars) (t c : R) :
  topBase v = fin t -> (0 < t)%R -> row_count r = fin c ->
  (0 <= t * t - c / T * D)%R ->
  bottomBase (loop_body this i r v) = fin (sqrt (t * t - c / T * D)) /\
  topBase (loop_body this i r v) = fin (sqrt (t * t - c / T * D)) /\
  trapezoid_area v (loop_body this i r v) = fin (c / T * A) /\
  v_dy (loop_body this i r v) = fin (c / T * A * 2 / (t + sqrt (t * t - c / T * D))).
Proof.
  intros Ht Htpos Hc Hrad.
  destruct (dyn_body i r v) as (Hb & Hdy & Htop).
  pose proof dyn_T_pos as HT. pose proof dyn_sl_neq as Hsl. pose proof dyn_base_diff as Hwq.
  assert (Hbb : bottomBase (loop_body this i r v) = fin (sqrt (t * t - c / T * D))).
  { rewrite Hb, dyn_slope, dyn_totalCount, dyn_totalArea, Ht, Hc.
    rewrite (ndiv_fin c T) by lra. autorewrite with num.
    rewrite ndiv_fin by assumption.
    replace ((sl * t * t - 4 * (c / T * A)) / sl)%R with (t * t - c / T * D)%R.
    - now apply nsqrt_fin.
    - unfold sl, A, D. field. repeat split; lra. }
  pose proof (sqrt_pos (t * t - c / T * D)) as Hs.
  assert (Hdyv : v_dy (loop_body this i r v)
                 = fin (c / T * A * 2 / (t + sqrt (t * t - c / T * D)))).
  { rewrite Hdy, Hbb, dyn_totalCount, dyn_totalArea, Ht, Hc.
    rewrite (ndiv_fin c T) by lra. autorewrite with num.
    now rewrite ndiv_fin by lra. }
  split; [exact Hbb |]. split; [now rewrite Htop |]. split; [| exact Hdyv].
  unfold trapezoid_area. rewrite Hdyv, Hbb, Ht. autorewrite with num.
  rewrite ndiv_fin by lra. f_equal. field. lra.
Qed.

(** The top base after [k] rows: its square is the square of the width
    less the share of the first [k] values in [D]. *)
Lemma dyn_topBase (k : nat) :
  (k <= length rows)%nat ->
  exists t : R,
    topBase (state_at this k) = fin t /\ (0 <= t)%R /\
    (t * t = w * w - total_value (take k rows) / T * D)%R.
Proof.
  induction k as [| k IH]; intros Hk.
  - exists w. rewrite state_at_0. cbn [vars_init topBase].
    split; [exact Hw |]. split; [lra |].
    change (total_value (take 0 rows)) with 0%R. unfold Rdiv. ring.
  - destruct IH as (t & Ht & Ht0 & Hsq); [lia |].
    destruct (lookup_lt_is_Some_2 rows k) as [r Hr]; [lia |].
    destruct (total_value_take_lt rows k r Hall Hr) as (Hs0 & HsT & Hc0).
    destruct (share_bounds _ _ T Hs0 Hc0 HsT) as (Hx0 & Hy0 & Hxy).
    assert (Hr' : positive_row r).
    { rewrite Forall_forall in Hall. apply Hall, list_elem_of_lookup. eauto. }
    destruct (positive_row_value r Hr') as [Hc _].
    set (x := (total_value (take k rows) / T)%R) in *.
    set (y := (count_value r / T)%R) in *.
    assert (Htpos : (0 < t * t)%R).
    { rewrite Hsq. apply convex_square_pos; [assumption | lra]. }
    assert (Ht1 : (0 < t)%R) by nra.
    assert (Hrad : (t * t - y * D = w * w - (x + y) * (w * w - w * q * (w * q)))%R).
    { rewrite Hsq. unfold D. ring. }
    assert (Hnn : (0 <= t * t - y * D)%R).
    { rewrite Hrad. apply convex_square_nonneg. lra. }
    destruct (dyn_step k r (state_at this k) t (count_value r) Ht Ht1 Hc Hnn) as (_ & Htop & _ & _).
    exists (sqrt (t * t - y * D)).
    rewrite (state_at_S this k r Hr). split; [exact Htop |].
    split; [apply sqrt_pos |].
    rewrite sqrt_sqrt by assumption.
    rewrite (total_value_take_S rows k r Hr), Hrad. unfold D, x, y. field.
    pose proof dyn_T_pos. lra.
Qed.

(** The area of the block of row [k] is the share of the row in the total
    area. *)
Lemma dyn_block_area (k : nat) (r : row) :
  rows !! k = Some r ->
  trapezoid_area (state_at this k) (state_at this (S k)) = fin (count_value r / T * A).
Proof.
  intros Hr. pose proof (lookup_lt_Some _ _ _ Hr) as Hk.
  destruct (dyn_topBase k) as (t & Ht & Ht0 & Hsq); [lia |].
  destruct (total_value_take_lt rows k r Hall Hr) as (Hs0 & HsT & Hc0).
  destruct (share_bounds _ _ T Hs0 Hc0 HsT) as (Hx0 & Hy0 & Hxy).
  assert (Hr' : positive_row r).
  { rewrite Forall_forall in Hall. apply Hall, list_elem_of_lookup. eauto. }
  destruct (positive_row_value r Hr') as [Hc _].
  set (x := (total_value (take k rows) / T)%R) in *.
  set (y := (count_value r / T)%R) in *.
  assert (Htpos : (0 < t * t)%R).
  { rewrite Hsq. apply convex_square_pos; [assumption | lra]. }
  assert (Ht1 : (0 < t)%R) by nra.
  assert (Hnn : (0 <= t * t - y * D)%R).
  { replace (t * t - y * D)%R with (w * w - (x + y) * (w * w - w * q * (w * q)))%R
      by (rewrite Hsq; unfold D; ring).
    apply convex_square_nonneg. lra. }
  rewrite (state_at_S this k r Hr).
  now destruct (dyn_step k r (state_at this k) t (count_value r) Ht Ht1 Hc Hnn) as (_ & _ & -> & _).
Qed.

(** The bases and the depth of the block of row [k] are finite. *)
Lemma dyn_turn (k : nat) (r : row) :
  rows !! k = Some r ->
  exists t b depth : R,
    topBase (state_at this k) = fin t /\
    bottomBase (state_at this (S k)) = fin b /\
    topBase (state_at this (S k)) = fin b /\
    v_dy (state_at this (S k)) = fin depth.
Proof.
  intros Hr. pose proof (lookup_lt_Some _ _ _ Hr) as Hk.
  destruct (dyn_topBase k) as (t & Ht & Ht0 & Hsq); [lia |].
  destruct (total_value_take_lt rows k r Hall Hr) as (Hs0 & HsT & Hc0).
  destruct (share_bounds _ _ T Hs0 Hc0 HsT) as (Hx0 & Hy0 & Hxy).
  assert (Hr' : positive_row r).
  { rewrite Forall_forall in Hall. apply Hall, list_elem_of_lookup. eauto. }
  destruct (positive_row_value r Hr') as [Hc _].
  set (x := (total_value (take k rows) / T)%R) in *.
  set (y := (count_value r / T)%R) in *.
  assert (Htpos : (0 < t * t)%R).
  { rewrite Hsq. apply convex_square_pos; [assumption | lra]. }
  assert (Ht1 : (0 < t)%R) by nra.
  assert (Hnn : (0 <= t * t - y * D)%R).
  { replace (t * t - y * D)%R with (w * w - (x + y) * (w * w - w * q * (w * q)))%R
      by (rewrite Hsq; unfold D; ring).
    apply convex_square_nonneg. lra. }
  rewrite (state_at_S this k r Hr).
  destruct (dyn_step k r (state_at this k) t (count_value r) Ht Ht1 Hc Hnn)
    as (Hb & Htop & _ & Hdyv).
  eauto 8.
Qed.

(** The radicand of line 266 for the row [k]: with a positive bottom width
    it is at least the square of the smaller of the width and the bottom
    width, so the square root is taken of a number above 0. *)
Lemma dyn_radicand (k : nat) (r : row) :
  (0 < q)%R ->
  rows !! k = Some r ->
  exists rad : R,
    (slope this * topBase (state_at this k) * topBase (state_at this k)
     - fin 4 * (row_count r / totalCount this * totalArea this)) / slope this
    = fin rad /\
    (Rmin w (w * q) * Rmin w (w * q) <= rad)%R /\
    bottomBase (state_at this (S k)) = fin (sqrt rad).
Proof.
  intros Hq0 Hr. pose proof (lookup_lt_Some _ _ _ Hr) as Hk.
  destruct (dyn_topBase k) as (t & Ht & Ht0 & Hsq); [lia |].
  destruct (total_value_take_lt rows k r Hall Hr) as (Hs0 & HsT & Hc0).
  destruct (share_bounds _ _ T Hs0 Hc0 HsT) as (Hx0 & Hy0 & Hxy).
  assert (Hr' : positive_row r).
  { rewrite Forall_forall in Hall. apply Hall, list_elem_of_lookup. eauto. }
  destruct (positive_row_value r Hr') as [Hc _].
  pose proof dyn_T_pos as HT. pose proof dyn_sl_neq as Hsl. pose proof dyn_base_diff as Hwq.
  set (x := (total_value (take k rows) / T)%R) in *.
  set (y := (count_value r / T)%R) in *.
  assert (Hrad : (t * t - y * D = (1 - (x + y)) * (w * w) + (x + y) * (w * q * (w * q)))%R).
  { rewrite Hsq. unfold D. ring. }
  assert (Hm : (Rmin w (w * q) * Rmin w (w * q) <= t * t - y * D)%R).
  { rewrite Hrad.
    assert (Hwq0 : (0 < w * q)%R) by now apply Rmult_lt_0_compat.
    assert (Hm0 : (0 < Rmin w (w * q))%R) by now apply Rmin_glb_lt.
    pose proof (Rmin_l w (w * q)) as Hl. pose proof (Rmin_r w (w * q)) as Hmr.
    set (m := Rmin w (w * q)) in *.
    assert (H1 : (m * m <= w * w)%R) by nra.
    assert (H2 : (m * m <= w * q * (w * q))%R) by nra.
    nra. }
  assert (Htpos : (0 < t * t)%R).
  { rewrite Hsq. apply convex_square_pos; [assumption | lra]. }
  assert (Ht1 : (0 < t)%R) by nra.
  assert (Hnn : (0 <= t * t - y * D)%R).
  { pose proof (Rle_0_sqr (Rmin w (w * q))) as H0. unfold Rsqr in H0. lra. }
  exists (t * t - y * D)%R. split; [| split; [exact Hm |]].
  - rewrite dyn_slope, dyn_totalCount, dyn_totalArea, Ht, Hc.
    rewrite (ndiv_fin (count_value r) T) by lra. autorewrite with num.
    rewrite ndiv_fin by assumption. f_equal.
    unfold y, sl, A, D. field. repeat split; lra.
  - rewrite (state_at_S this k r Hr).
    now destruct (dyn_step k r (state_at this k) t (count_value r) Ht Ht1 Hc Hnn) as (-> & _).
Qed.

Lemma dyn_block_areas :
  block_areas this = map (fun r => fin (count_value r * (A / T))) rows.
Proof.
  apply list_eq. intros k. unfold block_areas. change (data this) with rows.
  rewrite !list_lookup_fmap.
  destruct (rows !! k) as [r |] eqn:Hr.
  - rewrite lookup_seq_lt by (now apply lookup_lt_Some in Hr). simpl.
    rewrite (dyn_block_area k r Hr). do 2 f_equal. unfold Rdiv. ring.
  - rewrite lookup_seq_ge by (now apply lookup_ge_None in Hr). reflexivity.
Qed.

Lemma dyn_total_area : nsum (block_areas this) = fin A.
Proof.
  rewrite dyn_block_areas, nsum_fin_map, sum_shares. f_equal.
  fold T. pose proof dyn_T_pos. field. lra.
Qed.

(** *** The trapezoid is the one the path outlines

    Not inverted and without a pinch, the running x are the ends of the
    bases. *)

Hypothesis Hinv : s_isInverted s = false.
Hypothesis Hpinch : (s_bottomPinch s <= 0)%Z.

Lemma dyn_body_height (i : nat) (r : row) (v : vars) :
  prevHeight (loop_body this i r v) = prevHeight v + v_dy (loop_body this i r v) /\
  nextHeight (loop_body this i r v) = prevHeight (loop_body this i r v).
Proof.
  unfold loop_body. change (dynamicArea this) with (s_dynamicArea s).
  now rewrite Hdyn.
Qed.

Lemma dyn_run (k : nat) :
  (k <= length rows)%nat ->
  exists l x y t : R,
    prevLeftX (state_at this k) = fin l /\
    prevRightX (state_at this k) = fin x /\
    prevHeight (state_at this k) = fin y /\
    topBase (state_at this k) = fin t /\
    (x - l = t)%R.
Proof.
  induction k as [| k IH]; intros Hk.
  - exists 0%R, w, 0%R, w. rewrite state_at_0. unfold vars_init.
    change (isInverted this) with (s_isInverted s).
    change (isCurved this) with (s_isCurved s).
    rewrite Hinv, Hcur. cbn [prevLeftX prevRightX prevHeight topBase].
    repeat split; try reflexivity; try exact Hw. lra.
  - destruct IH as (l & x & y & t & Hl & Hx & Hy & Ht & Hxl); [lia |].
    destruct (lookup_lt_is_Some_2 rows k) as [r Hr]; [lia |].
    destruct (dyn_turn k r Hr) as (t' & b & depth & Ht' & Hb & Htop & Hdepth).
    rewrite Ht in Ht'. apply fin_inj in Ht'. subst t'.
    rewrite (state_at_S this k r Hr) in *.
    destruct (dyn_body_height k r (state_at this k)) as [Hdown _].
    exists (l + (t / 2 - b / 2))%R, (x - (t / 2 - b / 2))%R, (y + depth)%R, b.
    rewrite body_prevLeftX, body_prevRightX, Hdown, Hdepth, Hy, Hl, Hx.
    rewrite (dynamic_dx this Hdyn) by exact Hpinch.
    rewrite Hb, Ht. change (isInverted this) with (s_isInverted s). rewrite Hinv.
    rewrite !ndiv_fin by lra. autorewrite with num.
    repeat split; try reflexivity; try assumption. lra.
Qed.

Lemma dyn_path_area (k : nat) (r : row) :
  rows !! k = Some r ->
  path_area this (block_path this (state_at this k) (state_at this (S k)))
  = trapezoid_area (state_at this k) (state_at this (S k)).
Proof.
  intros Hr. pose proof (lookup_lt_Some _ _ _ Hr) as Hk.
  destruct (dyn_run k) as (l & x & y & t & Hl & Hx & Hy & Ht & Hxl); [lia |].
  destruct (dyn_run (S k)) as (l' & x' & y' & b & Hl' & Hx' & Hy' & Hb & Hxl'); [lia |].
  destruct (dyn_turn k r Hr) as (t' & b' & depth & Ht' & Hbb & Htop & Hdepth).
  rewrite Ht in Ht'. apply fin_inj in Ht'. subst t'.
  rewrite Hb in Htop. apply fin_inj in Htop. subst b'.
  destruct (state_next_x this k Hk) as [Hnl Hnx].
  assert (Hy2 : prevHeight (state_at this (S k)) = fin (y + depth)
                /\ nextHeight (state_at this (S k)) = fin (y + depth)).
  { rewrite (state_at_S this k r Hr) in *.
    destruct (dyn_body_height k r (state_at this k)) as [Hdown Hn].
    rewrite Hn, Hdown, Hy, Hdepth. auto. }
  destruct Hy2 as [_ Hn].
  unfold path_area, trapezoid_area, topRight_x, topLeft_x, bottomRight_x, bottomLeft_x,
    block_path.
  change (isCurved this) with (s_isCurved s). rewrite Hcur. cbn [entry nth px py pt].
  rewrite Hnl, Hnx, Hn, Hl, Hx, Hy, Hl', Hx', Hdepth, Ht, Hbb.
  autorewrite with num. rewrite !ndiv_fin by lra. f_equal.
  rewrite Hxl, Hxl'. field.
Qed.

(** The areas the paths outline are the areas of the loop. *)
Lemma dyn_paths_areas : map (path_area this) (makePaths this) = block_areas this.
Proof.
  apply list_eq. intros k. unfold block_areas.
  rewrite makePaths_blocks, !list_lookup_fmap. change (data this) with rows.
  destruct (decide (k < length rows)%nat) as [Hk | Hk].
  - rewrite lookup_seq_lt by assumption. cbn [fmap option_fmap option_map].
    destruct (lookup_lt_is_Some_2 rows k Hk) as [r Hr].
    change (0 + k)%nat with k. now rewrite (dyn_path_area k r Hr).
  - rewrite lookup_seq_ge by lia. reflexivity.
Qed.

End DynamicArea.

(** C1, as stated, fails: with a bottom width of 1 the slope is
    [2 * height / 0]; no bottom base and no area is a finite number, so the
    areas do not add up to the total area. *)
Lemma dynamic_area_fails_for_bottom_width_one :
  let this := init_fields (resolve sample_chart (dynamic_options 1)) sample_rows in
  ~ num_eq (nsum (block_areas this)) (height this * (width this + bottomWidth this) / fin 2).
Proof.
  intros this.
  destruct (resolve_sample (dynamic_options 1) eq_refl eq_refl) as [Hw Hh].
  assert (H0 : trapezoid_area (state_at this 0) (state_at this 1) = NaN).
  { unfold trapezoid_area.
    rewrite (state_at_S this 0 (plain_row "A" 40) eq_refl).
    rewrite (dynamic_bottomBase_NaN this eq_refl)
      by (apply (slope_ratio_one _ _ 350 400); [exact Hw | exact Hh | reflexivity]).
    now rewrite nadd_NaN_r, nmul_NaN_r. }
  unfold block_areas. change (length (data this)) with 3%nat.
  cbn [seq map nsum fold_right]. rewrite H0.
  intros H. exact H.
Qed.

Lemma sqrt_of_square (x y : R) : (0 <= y)%R -> (x = y * y)%R -> sqrt x = y.
Proof. intros Hy ->. now apply sqrt_square. Qed.

(** The areas of the loop are those of the paths only when the chart is not
    inverted.  An inverted chart of 350 by 400 with the bottom width 1/3 and
    the values 5 and 3: the loop computes the areas 175000/3 and 35000, the
    shares of the rows, and the paths it pushes outline 35000 and 175000/3,
    the shares in the other order (the loop narrows [topBase] from the width
    down while the inverted block widens from the bottom width up). *)
Lemma dynamic_area_inverted_blocks :
  let this := init_fields (sample_settings true true false 0 (1 / 3))
                          [plain_row "A" 5; plain_row "B" 3] in
  block_areas this = [fin (175000 / 3); fin 35000] /\
  map (path_area this) (makePaths this) = [fin 35000; fin (175000 / 3)].
Proof.
  cbv zeta.
  set (s := sample_settings true true false 0 (1 / 3)).
  set (rows := [plain_row "A" 5; plain_row "B" 3]).
  set (this := init_fields s rows).
  assert (Hall : Forall positive_row rows).
  { repeat constructor; eexists; (split; [reflexivity | lra]). }
  assert (Hrows : rows <> []) by discriminate.
  assert (Hq1 : (1 / 3 <> 1)%R) by lra.
  assert (Hw0 : (0 < 350)%R) by lra.
  assert (Hh0 : (0 < 400)%R) by lra.
  assert (HT : total_value rows = 8%R).
  { cbv [total_value count_value rows plain_row row_count fold_right r_value fin]. lra. }
  pose proof (dyn_step s rows 350 400 (1 / 3) eq_refl eq_refl eq_refl eq_refl eq_refl eq_refl
                Hw0 Hh0 Hq1 Hall Hrows) as Hstep.
  rewrite HT in Hstep. fold this in Hstep.
  assert (Hrun : forall (k : nat) (r : row) (t c b l x y : R),
             rows !! k = Some r -> row_count r = fin c ->
             topBase (state_at this k) = fin t -> (0 < t)%R ->
             (0 <= b)%R -> (t * t - c / 8 * (350 * 350 - 350 * (1 / 3) * (350 * (1 / 3))) = b * b)%R ->
             prevLeftX (state_at this k) = fin l ->
             prevRightX (state_at this k) = fin x ->
             prevHeight (state_at this k) = fin y ->
             topBase (state_at this (S k)) = fin b /\
             bottomBase (state_at this (S k)) = fin b /\
             v_dy (state_at this (S k)) = fin (c / 8 * (400 * (350 + 350 * (1 / 3)) / 2) * 2 / (t + b)) /\
             prevLeftX (state_at this (S k)) = fin (l - (t / 2 - b / 2)) /\
             prevRightX (state_at this (S k)) = fin (x + (t / 2 - b / 2)) /\
             prevHeight (state_at this (S k))
             = fin (y + c / 8 * (400 * (350 + 350 * (1 / 3)) / 2) * 2 / (t + b))).
  { intros k r t c b l x y Hr Hc Ht Ht0 Hb Hsq Hl Hx Hy.
    rewrite (state_at_S this k r Hr).
    destruct (Hstep k r (state_at this k) t c Ht Ht0 Hc) as (Hbb & Htop & _ & Hdy).
    { rewrite Hsq. nra. }
    rewrite (sqrt_of_square _ b Hb Hsq) in Hbb, Htop, Hdy.
    destruct (dyn_body_height s rows eq_refl k r (state_at this k)) as [Hdown _].
    fold this in Hdown.
    rewrite body_prevLeftX, body_prevRightX, Hdown, Hdy, Hl, Hx, Hy.
    rewrite (dynamic_dx this eq_refl) by (cbn; lia).
    rewrite Hbb, Ht. change (isInverted this) with true. cbn iota.
    rewrite !ndiv_fin by lra. autorewrite with num. auto 10. }
  assert (H0 : prevLeftX (state_at this 0) = fin (350 / 3)
               /\ prevRightX (state_at this 0) = fin (700 / 3)
               /\ prevHeight (state_at this 0) = fin 0
               /\ topBase (state_at this 0) = fin 350).
  { rewrite state_at_0. unfold vars_init.
    change (isInverted this) with true. change (isCurved this) with false.
    cbn [prevLeftX prevRightX prevHeight topBase].
    pose proof (init_bottomLeftX s rows 350 (1 / 3) eq_refl eq_refl) as Hb. fold this in Hb.
    rewrite Hb. change (width this) with (fin 350). autorewrite with num.
    repeat split; apply (f_equal fin); lra. }
  destruct H0 as (Hl0 & Hx0 & Hy0 & Ht0).
  destruct (Hrun 0%nat (plain_row "A" 5) 350 5 (700 / 3) (350 / 3) (700 / 3) 0
              eq_refl eq_refl Ht0)%R
    as (Ht1 & Hb1 & Hd1 & Hl1 & Hx1 & Hy1); [lra | lra | lra | exact Hl0 | exact Hx0 | exact Hy0 |].
  replace (350 / 3 - (350 / 2 - 700 / 3 / 2))%R with (175 / 3)%R in Hl1 by lra.
  replace (700 / 3 + (350 / 2 - 700 / 3 / 2))%R with (875 / 3)%R in Hx1 by lra.
  replace (5 / 8 * (400 * (350 + 350 * (1 / 3)) / 2) * 2 / (350 + 700 / 3))%R with 200%R
    in Hd1, Hy1 by lra.
  replace (0 + 200)%R with 200%R in Hy1 by lra.
  destruct (Hrun 1%nat (plain_row "B" 3) (700 / 3) 3 (350 / 3) (175 / 3) (875 / 3) 200
              eq_refl eq_refl Ht1)%R
    as (Ht2 & Hb2 & Hd2 & Hl2 & Hx2 & Hy2); [lra | lra | lra | exact Hl1 | exact Hx1 | exact Hy1 |].
  replace (175 / 3 - (700 / 3 / 2 - 350 / 3 / 2))%R with 0%R in Hl2 by lra.
  replace (875 / 3 + (700 / 3 / 2 - 350 / 3 / 2))%R with 350%R in Hx2 by lra.
  replace (3 / 8 * (400 * (350 + 350 * (1 / 3)) / 2) * 2 / (700 / 3 + 350 / 3))%R with 200%R
    in Hd2, Hy2 by lra.
  replace (200 + 200)%R with 400%R in Hy2 by lra.
  split.
  - unfold block_areas. change (length (data this)) with 2%nat. cbn [seq map].
    unfold trapezoid_area. rewrite Hd1, Hd2, Ht0, Ht1, Hb1, Hb2. autorewrite with num.
    rewrite !ndiv_fin by lra. f_equal; [| f_equal]; apply (f_equal fin); lra.
  - rewrite makePaths_blocks. change (length (data this)) with 2%nat. cbn [seq map].
    destruct (state_next_x this 0) as [Hnl1 Hnx1]; [cbn; lia |].
    destruct (state_next_x this 1) as [Hnl2 Hnx2]; [cbn; lia |].
    assert (Hn1 : nextHeight (state_at this 1) = fin 200).
    { rewrite <- Hy1. rewrite (state_at_S this 0 (plain_row "A" 5) eq_refl).
      destruct (dyn_body_height s rows eq_refl 0 (plain_row "A" 5) (state_at this 0)) as [_ Hn].
      exact Hn. }
    assert (Hn2 : nextHeight (state_at this 2) = fin 400).
    { rewrite <- Hy2. rewrite (state_at_S this 1 (plain_row "B" 3) eq_refl).
      destruct (dyn_body_height s rows eq_refl 1 (plain_row "B" 3) (state_at this 1)) as [_ Hn].
      exact Hn. }
    unfold path_area, topRight_x, topLeft_x, bottomRight_x, bottomLeft_x, block_path.
    change (isCurved this) with false. cbn [entry nth px py pt].
    rewrite Hnl1, Hnx1, Hnl2, Hnx2, Hn1, Hn2, Hl0, Hx0, Hy0, Hl1, Hx1, Hy1, Hl2, Hx2.
    autorewrite with num. rewrite !ndiv_fin by lra.
    f_equal; [| f_equal]; apply (f_equal fin); lra.
Qed.

(** The areas for settings with a positive width and height and a positive
    bottom width other than 1, not inverted and without a pinch. *)
Lemma dynamic_area_settings (s : settings) (rows : list row) (w h q : R) :
  rows <> [] ->
  Forall positive_row rows ->
  s_width s = fin w -> (0 < w)%R ->
  s_height s = fin h -> (0 < h)%R ->
  s_bottomWidth s = fin q -> (0 < q)%R -> q <> 1%R ->
  s_dynamicArea s = true ->
  s_isCurved s = false ->
  s_minHeight s = None ->
  s_isInverted s = false ->
  (s_bottomPinch s <= 0)%Z ->
  height (init_fields s rows)
  * (width (init_fields s rows) + bottomWidth (init_fields s rows)) / fin 2
  = fin (h * (w + w * q) / 2) /\
  nsum (map (path_area (init_fields s rows)) (makePaths (init_fields s rows)))
  = fin (h * (w + w * q) / 2) /\
  nsum (block_areas (init_fields s rows)) = fin (h * (w + w * q) / 2) /\
  (forall (k : nat) (r : row),
     rows !! k = Some r ->
     exists (p : path) (rad : R),
       makePaths (init_fields s rows) !! k = Some p /\
       path_area (init_fields s rows) p
       = fin (count_value r / total_value rows * (h * (w + w * q) / 2)) /\
       block_areas (init_fields s rows) !! k = Some (path_area (init_fields s rows) p) /\
       (slope (init_fields s rows)
        * topBase (state_at (init_fields s rows) k) * topBase (state_at (init_fields s rows) k)
        - fin 4 * (row_count r / totalCount (init_fields s rows)
                   * totalArea (init_fields s rows)))
       / slope (init_fields s rows)
       = fin rad /\
       (Rmin w (w * q) * Rmin w (w * q) <= rad)%R /\
       bottomBase (state_at (init_fields s rows) (S k)) = fin (sqrt rad)).
Proof.
  intros Hrows Hall Hw Hwpos Hh Hhpos Hq Hq0 Hq1 Hdyn Hcur Hmin Hinv Hpinch.
  assert (Harea : forall (k : nat) (r : row), rows !! k = Some r ->
            trapezoid_area (state_at (init_fields s rows) k) (state_at (init_fields s rows) (S k))
            = fin (count_value r / total_value rows * (h * (w + w * q) / 2))).
  { intros k r Hr. now apply dyn_block_area. }
  assert (Hpath : forall (k : nat) (r : row), rows !! k = Some r ->
            path_area (init_fields s rows)
              (block_path (init_fields s rows) (state_at (init_fields s rows) k)
                 (state_at (init_fields s rows) (S k)))
            = fin (count_value r / total_value rows * (h * (w + w * q) / 2))).
  { intros k r Hr. rewrite <- (Harea k r Hr).
    now apply (dyn_path_area s rows w h q) with (r := r). }
  split; [| split; [| split]].
  - rewrite <- (dyn_totalArea s rows w h q Hw Hh Hq Hmin).
    unfold totalArea. change (minHeight (init_fields s rows)) with (s_minHeight s).
    now rewrite Hmin.
  - rewrite (dyn_paths_areas s rows w h q) by assumption. now apply dyn_total_area.
  - now apply dyn_total_area.
  - intros k r Hr.
    destruct (dyn_radicand s rows w h q Hw Hh Hq Hdyn Hcur Hmin Hwpos Hhpos Hq1 Hall Hrows
                k r Hq0 Hr) as (rad & Hexpr & Hmargin & Hbase).
    eexists _, rad. split; [| split; [| split; [| split; [| split]]]].
    + apply makePaths_lookup. change (data (init_fields s rows)) with rows.
      now apply lookup_lt_Some in Hr.
    + exact (Hpath k r Hr).
    + unfold block_areas. rewrite list_lookup_fmap.
      change (data (init_fields s rows)) with rows.
      rewrite lookup_seq_lt by (now apply lookup_lt_Some in Hr). simpl.
      now rewrite (Harea k r Hr), (Hpath k r Hr).
    + exact Hexpr.
    + exact Hmargin.
    + exact Hbase.
Qed.

(** C1.  With [dynamicArea], not curved, no [minHeight], not inverted,
    without a pinch and with positive values, for resolved settings whose
    width, height and bottom width are numbers and whose bottom width is at
    least 1/1000 and not 1: the areas between the corners of the paths
    [_makePaths] returns add up to the total area
    [height * (width + bottomWidth) / 2]; the area of the path of each row is
    [value / total] of it, and is the area [dy * (topBase + bottomBase) / 2]
    of the loop for that row.  The radicand of the square root for each row
    is at least the square of the smaller of the width and the bottom width
    in pixels, that is at least a millionth of the square of the width: no
    square root is taken within the rounding error of 0. *)
Theorem dynamic_area_shares (c : chart) (o : options) (rows : list row) (w h q : R) :
  rows <> [] ->
  Forall positive_row rows ->
  s_width (resolve c o) = fin w ->
  s_height (resolve c o) = fin h ->
  s_bottomWidth (resolve c o) = fin q -> (1 / 1000 <= q)%R -> q <> 1%R ->
  s_dynamicArea (resolve c o) = true ->
  s_isCurved (resolve c o) = false ->
  s_minHeight (resolve c o) = None ->
  s_isInverted (resolve c o) = false ->
  (s_bottomPinch (resolve c o) <= 0)%Z ->
  height (init_fields (resolve c o) rows)
  * (width (init_fields (resolve c o) rows) + bottomWidth (init_fields (resolve c o) rows))
  / fin 2
  = fin (h * (w + w * q) / 2) /\
  nsum (map (path_area (init_fields (resolve c o) rows))
            (makePaths (init_fields (resolve c o) rows)))
  = fin (h * (w + w * q) / 2) /\
  nsum (block_areas (init_fields (resolve c o) rows)) = fin (h * (w + w * q) / 2) /\
  (forall (k : nat) (r : row),
     rows !! k = Some r ->
     exists (p : path) (rad : R),
       makePaths (init_fields (resolve c o) rows) !! k = Some p /\
       path_area (init_fields (resolve c o) rows) p
       = fin (count_value r / total_value rows * (h * (w + w * q) / 2)) /\
       block_areas (init_fields (resolve c o) rows) !! k
       = Some (path_area (init_fields (resolve c o) rows) p) /\
       (slope (init_fields (resolve c o) rows)
        * topBase (state_at (init_fields (resolve c o) rows) k)
        * topBase (state_at (init_fields (resolve c o) rows) k)
        - fin 4 * (row_count r / totalCount (init_fields (resolve c o) rows)
                   * totalArea (init_fields (resolve c o) rows)))
       / slope (init_fields (resolve c o) rows)
       = fin rad /\
       (Rmin w (w * q) * Rmin w (w * q) <= rad)%R /\
       bottomBase (state_at (init_fields (resolve c o) rows) (S k)) = fin (sqrt rad)).
Proof.
  intros Hrows Hall Hw Hh Hq Hq0 Hq1 Hdyn Hcur Hmin Hinv Hpinch.
  destruct (resolve_positive c o w h) as [Hwpos Hhpos].
  apply dynamic_area_settings; auto. lra.
Qed.

Lemma sample_rows_positive : Forall positive_row sample_rows.
Proof.
  repeat constructor; eexists; (split; [reflexivity | lra]).
Defined.

Lemma dynamic_area_shares_witness :
  nsum (map (path_area (init_fields (resolve sample_chart (dynamic_options (1 / 3)))
                          sample_rows))
            (makePaths (init_fields (resolve sample_chart (dynamic_options (1 / 3)))
                          sample_rows)))
  = fin (400 * (350 + 350 * (1 / 3)) / 2) /\
  block_areas (init_fields (resolve sample_chart (dynamic_options (1 / 3))) sample_rows)
    !! 1%nat
  = Some (fin (count_value (plain_row "B" 20) / total_value sample_rows
               * (400 * (350 + 350 * (1 / 3)) / 2))).
Proof.
  destruct (resolve_sample (dynamic_options (1 / 3)) eq_refl eq_refl) as [Hw Hh].
  destruct (dynamic_area_shares sample_chart (dynamic_options (1 / 3)) sample_rows
              350 400 (1 / 3)) as (_ & Hsum & _ & Hshare);
    [discriminate | exact sample_rows_positive | exact Hw | exact Hh
     | reflexivity | lra | lra | reflexivity | reflexivity | reflexivity | reflexivity
     | discriminate |].
  split; [exact Hsum |].
  destruct (Hshare 1%nat (plain_row "B" 20) eq_refl) as (p & rad & _ & Harea & Hblock & _).
  now rewrite Hblock, Harea.
Defined.

(** ** C2: malformed data *)

Lemma malformed_invalid (d : jsval) : malformed d -> invalid_data d = true.
Proof.
  intros H. destruct H as [| d Hd | cells rest Hlen | first rest Hf]; unfold invalid_data.
  - reflexivity.
  - now rewrite Hd.
  - simpl. destruct (Nat.ltb_spec (length cells) 2) as [_ | Hge]; [reflexivity | lia].
  - simpl. now rewrite Hf.
Qed.

Lemma remove_svg_free (n : node) : svg_free n = true -> remove_svg n = [n].
Proof.
  revert n. fix IH 1. intros [tag children] H. simpl in *.
  apply andb_prop in H as [Htag Hch].
  destruct (String.eqb tag "svg"); [discriminate |].
  do 2 f_equal. clear Htag.
  induction children as [| c cs IHcs]; [reflexivity |].
  simpl in *. apply andb_prop in Hch as [Hc Hcs].
  rewrite (IH c Hc), IHcs by assumption. reflexivity.
Qed.

Lemma destroy_svg_free (c : chart) :
  forallb svg_free (container c) = true -> destroy c = c.
Proof.
  intros H. destruct c as [nodes sw sh dl l f bp]. unfold destroy. simpl in *. f_equal.
  induction nodes as [| n ns IH]; [reflexivity |].
  simpl in *. apply andb_prop in H as [Hn Hns].
  rewrite (remove_svg_free n Hn), IH by assumption. reflexivity.
Qed.

(** C2, as stated, fails: [draw] removes the earlier [svg] before it
    looks at the data, so the container is not left as it was. *)
Lemma malformed_draw_changes_container :
  fst (draw category10 (JArr []) no_options drawn_chart)
  = Some (Error "Funnel data is not valid.") /\
  container (snd (draw category10 (JArr []) no_options drawn_chart)) = [Node "h1" []] /\
  container (snd (draw category10 (JArr []) no_options drawn_chart)) <> container drawn_chart.
Proof.
  split; [reflexivity |]. split; [reflexivity |]. discriminate.
Qed.

(** C2.  On malformed data [draw] throws the error of [_initialize] and
    adds nothing: the chart is left as [destroy] leaves it, that is without
    the [svg] elements it held, and unchanged when it held none. *)
Theorem malformed_draw (colorScale : nat -> string) (d : jsval) (o : options) (c : chart) :
  malformed d ->
  draw colorScale d o c = (Some (Error "Funnel data is not valid."), destroy c) /\
  container (destroy c) = flat_map remove_svg (container c) /\
  (forallb svg_free (container c) = true ->
   draw colorScale d o c = (Some (Error "Funnel data is not valid."), c)).
Proof.
  intros Hd. apply malformed_invalid in Hd.
  assert (H : draw colorScale d o c = (Some (Error "Funnel data is not valid."), destroy c)).
  { unfold draw, initialize. now rewrite Hd. }
  split; [exact H |]. split; [reflexivity |].
  intros Hfree. rewrite H. now rewrite destroy_svg_free.
Qed.

Lemma malformed_draw_witness :
  draw category10 (JArr [JArr [JStr "A"]]) no_options drawn_chart
  = (Some (Error "Funnel data is not valid."), destroy drawn_chart).
Proof.
  exact (proj1 (malformed_draw category10 (JArr [JArr [JStr "A"]]) no_options drawn_chart
                  (malformed_first_row [JStr "A"] [] (Nat.lt_succ_diag_r 1)))).
Defined.

(** ** C4: the resolved size *)

(** C4 at a container whose computed width is ["auto"]: [parseInt] gives
    [NaN], the test [NaN <= 0] is false, and the resolved width stays [NaN]
    instead of the default 350.  The chart fields carry it on. *)
Lemma resolve_keeps_NaN_width :
  parseInt "auto" 10 = None /\
  s_width (resolve (new_chart [] "auto" "400px") no_options) = NaN /\
  option_map width
    (fields (snd (draw category10 sample_data no_options (new_chart [] "auto" "400px"))))
  = Some NaN.
Proof. repeat split; reflexivity. Qed.

(** ** C5: the label settings *)

(** What the loop of lines 133-137 leaves in the label object. *)
Lemma merge_label_lookup (lbl user : gmap string jsval) (k : string) :
  merge_label lbl (label_options user) !! k
  = match user !! k with
    | Some v => if validLabelOptions k then Some v else lbl !! k
    | None => lbl !! k
    end.
Proof.
  unfold merge_label, label_options. cbn [o_label].
  apply (map_fold_weak_ind
           (fun (r : gmap string jsval) (m : gmap string jsval) =>
              r !! k = match m !! k with
                       | Some v => if validLabelOptions k then Some v else lbl !! k
                       | None => lbl !! k
                       end)).
  - now rewrite lookup_empty.
  - intros i x m r Hi IH.
    destruct (decide (i = k)) as [-> | Hne].
    + rewrite lookup_insert_eq. rewrite Hi in IH.
      destruct (validLabelOptions k); [now rewrite lookup_insert_eq | exact IH].
    + rewrite (lookup_insert_ne m) by assumption.
      destruct (validLabelOptions i); [now rewrite lookup_insert_ne by assumption | exact IH].
Qed.

(** C5 at the label options [{fillOpacity: "0.5"}]: the key is not one of
    [fontSize] and [fill], yet the pattern [/fontSize|fill/] finds [fill]
    in it, and the key lands in the resolved label settings. *)
Lemma merge_label_keeps_fillOpacity :
  validLabelOptions "fillOpacity" = true /\
  merge_label (defaults_label (new_chart [] "350px" "400px"))
              (label_options {[ "fillOpacity" := JStr "0.5" ]}) !! "fillOpacity"
  = Some (JStr "0.5") /\
  label (snd (draw category10 sample_data (label_options {[ "fillOpacity" := JStr "0.5" ]})
                   (new_chart [] "350px" "400px"))) !! "fillOpacity"
  = Some (JStr "0.5").
Proof.
  split; [reflexivity |]. split.
  - rewrite merge_label_lookup. now rewrite lookup_singleton_eq.
  - change (label (snd (draw category10 sample_data
                          (label_options {[ "fillOpacity" := JStr "0.5" ]})
                          (new_chart [] "350px" "400px"))))
      with (merge_label (defaults_label (new_chart [] "350px" "400px"))
                        (label_options {[ "fillOpacity" := JStr "0.5" ]})).
    rewrite merge_label_lookup. now rewrite lookup_singleton_eq.
Qed.

(** ** C9: [shadeColor] *)

(** C9 at the colour [#f00] and the shade -0.25, as [_defineColorGradients]
    calls it: the resolver accepts the colour; its channels are (255, 0, 0)
    and the darkened colour is [#bf0000]; the helper reads the three digits as
    the number [0x000f00] and returns [#000b00]. *)
Lemma shadeColor_three_digits :
  hexExpression "#f00" = true /\
  Shade.shadeColor "#f00" (-1 # 4) = "#000b00" /\
  Shade.shade_spec "#f00" (-1 # 4) = Some "#bf0000".
Proof. repeat split; vm_compute; reflexivity. Qed.

(** *** Colours of six digits *)

Module ShadeFacts.

Import Shade.

Local Open Scope Z_scope.

Lemma hex_digit_facts (c : ascii) :
  is_hex_digit c = true ->
  exists d : Z,
    digit_value c = Some d /\ 0 <= d < 16 /\
    Ascii.eqb c "x" = false /\ Ascii.eqb c "X" = false.
Proof.
  destruct c as [b0 b1 b2 b3 b4 b5 b6 b7].
  destruct b0, b1, b2, b3, b4, b5, b6, b7; intros H;
    try (vm_compute in H; discriminate H);
    (eexists; split; [vm_compute; reflexivity | split; [lia | split; reflexivity]]).
Qed.

Lemma parseInt_unsigned (c : ascii) (rest : string) :
  is_hex_digit c = true ->
  parseInt (String c rest) 16
  = option_map (Z.mul 1) (parse_digits 16 None (strip_hex_prefix 16 (String c rest))).
Proof.
  destruct c as [b0 b1 b2 b3 b4 b5 b6 b7].
  destruct b0, b1, b2, b3, b4, b5, b6, b7; intros H;
    try (vm_compute in H; discriminate H); reflexivity.
Qed.

Lemma strip_hex_prefix_digits (c1 c2 : ascii) (rest : string) :
  is_hex_digit c2 = true ->
  strip_hex_prefix 16 (String c1 (String c2 rest)) = String c1 (String c2 rest).
Proof.
  intros H2. destruct (hex_digit_facts c2 H2) as (d & _ & _ & Hx & HX).
  destruct c1 as [b0 b1 b2 b3 b4 b5 b6 b7].
  destruct b0, b1, b2, b3, b4, b5, b6, b7; cbn [strip_hex_prefix]; try reflexivity.
  now rewrite Hx, HX.
Qed.

Lemma parse_digits_step (acc : option Z) (c : ascii) (rest : string) (d : Z) :
  digit_value c = Some d -> 0 <= d < 16 ->
  parse_digits 16 acc (String c rest) = parse_digits 16 (Some (16 * default 0 acc + d)) rest.
Proof.
  intros Hd Hr. cbn [parse_digits]. rewrite Hd.
  destruct (Z.ltb_spec d 16) as [_ | Hge]; [reflexivity | lia].
Qed.

Lemma six_digits (color : string) :
  hexExpression color = true -> String.length color = 7%nat ->
  exists c1 c2 c3 c4 c5 c6 : ascii,
    color = String "#" (String c1 (String c2 (String c3 (String c4 (String c5
              (String c6 EmptyString)))))) /\
    is_hex_digit c1 = true /\ is_hex_digit c2 = true /\ is_hex_digit c3 = true /\
    is_hex_digit c4 = true /\ is_hex_digit c5 = true /\ is_hex_digit c6 = true.
Proof.
  intros Hhex Hlen.
  destruct color as [| a [| c1 [| c2 [| c3 [| c4 [| c5 [| c6 [| c7 rest]]]]]]]];
    try discriminate Hlen.
  assert (Ha : a = "#"%char).
  { destruct a as [b0 b1 b2 b3 b4 b5 b6 b7].
    destruct b0, b1, b2, b3, b4, b5, b6, b7; try discriminate Hhex; reflexivity. }
  subst a. cbn [hexExpression all_hex] in Hhex.
  apply andb_prop in Hhex as [Hall _].
  repeat (apply andb_prop in Hall as [? Hall]).
  exists c1, c2, c3, c4, c5, c6. repeat split; assumption.
Qed.

Lemma parseInt_six (c1 c2 c3 c4 c5 c6 : ascii) (d1 d2 d3 d4 d5 d6 : Z) :
  is_hex_digit c1 = true -> is_hex_digit c2 = true ->
  digit_value c1 = Some d1 -> 0 <= d1 < 16 ->
  digit_value c2 = Some d2 -> 0 <= d2 < 16 ->
  digit_value c3 = Some d3 -> 0 <= d3 < 16 ->
  digit_value c4 = Some d4 -> 0 <= d4 < 16 ->
  digit_value c5 = Some d5 -> 0 <= d5 < 16 ->
  digit_value c6 = Some d6 -> 0 <= d6 < 16 ->
  parseInt (String c1 (String c2 (String c3 (String c4 (String c5 (String c6 EmptyString))))))
           16
  = Some (65536 * (16 * d1 + d2) + 256 * (16 * d3 + d4) + (16 * d5 + d6)).
Proof.
  intros H1 H2 E1 R1 E2 R2 E3 R3 E4 R4 E5 R5 E6 R6.
  rewrite parseInt_unsigned, strip_hex_prefix_digits by assumption.
  rewrite (parse_digits_step _ c1 _ d1), (parse_digits_step _ c2 _ d2),
    (parse_digits_step _ c3 _ d3), (parse_digits_step _ c4 _ d4),
    (parse_digits_step _ c5 _ d5), (parse_digits_step _ c6 _ d6) by assumption.
  cbn [parse_digits option_map default from_option]. unfold Datatypes.id. f_equal. lia.
Qed.

(** The three channels the helper extracts from a number below [2 ^ 24]. *)
Lemma channels_of_number (r g b : Z) :
  0 <= r < 256 -> 0 <= g < 256 -> 0 <= b < 256 ->
  let f := int32_of (Some (65536 * r + 256 * g + b)) in
  Z.shiftr f 16 = r /\ Z.land (Z.shiftr f 8) 255 = g /\ Z.land f 255 = b.
Proof.
  intros Hr Hg Hb f.
  assert (Hf : f = 65536 * r + 256 * g + b).
  { unfold f, int32_of, toInt32. change (2 ^ 31) with 2147483648.
    change (2 ^ 32) with 4294967296. rewrite Z.mod_small by lia. lia. }
  rewrite Hf. change 255 with (Z.ones 8).
  rewrite !Z.shiftr_div_pow2, !Z.land_ones by lia.
  change (2 ^ 16) with 65536. change (2 ^ 8) with 256.
  repeat split; Z.div_mod_to_equations; lia.
Qed.

Lemma Qfloor_unique (z : Z) (y : Q) :
  (inject_Z z <= y)%Q -> (y < inject_Z (z + 1))%Q -> Qfloor y = z.
Proof.
  intros Hlo Hhi.
  pose proof (Qfloor_le y) as H1. pose proof (Qlt_floor y) as H2.
  assert (Ha : (inject_Z z < inject_Z (Qfloor y + 1))%Q) by lra.
  assert (Hb : (inject_Z (Qfloor y) < inject_Z (z + 1))%Q) by lra.
  rewrite <- Zlt_Qlt in Ha, Hb. lia.
Qed.

Lemma round_shift (c : Z) (x : Q) : round (inject_Z c + x) = c + round x.
Proof.
  unfold round. apply Qfloor_unique.
  - pose proof (Qfloor_le (x + (1 # 2))) as H. rewrite inject_Z_plus. lra.
  - pose proof (Qlt_floor (x + (1 # 2))) as H.
    rewrite <- Z.add_assoc, inject_Z_plus. lra.
Qed.

(** The magnitude [p] the helper computes is [|shade|]. *)
Lemma shade_magnitude (shade : Q) :
  ((if negb (Qle_bool 0 shade) then shade * - (1) else shade) == Qabs shade)%Q.
Proof.
  destruct (Qle_bool 0 shade) eqn:E; cbn [negb].
  - apply Qle_bool_iff in E. symmetry. now apply Qabs_pos.
  - assert (Hneg : (shade <= 0)%Q).
    { destruct (Qlt_le_dec 0 shade) as [Hlt | Hle]; [| exact Hle].
      assert (Hc : Qle_bool 0 shade = true) by (apply Qle_bool_iff; lra).
      congruence. }
    rewrite (Qabs_neg shade Hneg). ring.
Qed.

(** A channel as the helper computes it is the interpolation of the
    specification. *)
Lemma channel_interpolate (c : Z) (shade : Q) :
  round (inject_Z ((if negb (Qle_bool 0 shade) then 0 else 255) - c)
         * (if negb (Qle_bool 0 shade) then shade * - (1) else shade)) + c
  = interpolate c shade.
Proof.
  unfold interpolate. rewrite Z.add_comm, <- round_shift.
  unfold round. apply Qfloor_comp. now rewrite shade_magnitude.
Qed.

Lemma interpolate_range (c : Z) (shade : Q) :
  0 <= c <= 255 -> (- (1) <= shade <= 1)%Q -> 0 <= interpolate c shade <= 255.
Proof.
  intros Hc Hs. unfold interpolate, round.
  assert (Hq : (0 <= inject_Z c <= 255)%Q).
  { split; [change 0%Q with (inject_Z 0) | change 255%Q with (inject_Z 255)];
      rewrite <- Zle_Qle; lia. }
  assert (Ha : (0 <= Qabs shade <= 1)%Q).
  { split; [apply Qabs_nonneg | apply Qabs_Qle_condition; lra]. }
  set (a := Qabs shade) in *. set (x := inject_Z c) in *.
  assert (Ht : forall t : Z, (t = 0 \/ t = 255) ->
               (0 <= x + inject_Z (t - c) * a + (1 # 2))%Q /\
               (x + inject_Z (t - c) * a + (1 # 2) < 256)%Q).
  { intros t Ht. unfold Z.sub. rewrite inject_Z_plus, inject_Z_opp. fold x.
    destruct Ht as [-> | ->].
    - change (inject_Z 0) with 0%Q. split; nra.
    - change (inject_Z 255) with 255%Q. split; nra. }
  destruct (Ht (if negb (Qle_bool 0 shade) then 0 else 255)) as [Hlo Hhi].
  { destruct (negb (Qle_bool 0 shade)); auto. }
  split.
  - change 0 with (Qfloor (inject_Z 0)). now apply Qfloor_resp_le.
  - pose proof (Qfloor_le (x + inject_Z ((if negb (Qle_bool 0 shade) then 0 else 255) - c) * a
                           + (1 # 2))) as Hf.
    assert (Hz : (inject_Z (Qfloor (x + inject_Z ((if negb (Qle_bool 0 shade) then 0 else 255) - c) * a
                           + (1 # 2))) < inject_Z 256)%Q).
    { change (inject_Z 256) with 256%Q. lra. }
    rewrite <- Zlt_Qlt in Hz. lia.
Qed.

Lemma hex_digits_more (fuel : nat) (z : Z) (acc : string) :
  z / 16 <> 0 ->
  hex_digits (S fuel) z acc = hex_digits fuel (z / 16) (String (hex_char (z mod 16)) acc).
Proof.
  intros H. cbn [hex_digits].
  destruct (Z.eqb_spec (z / 16) 0) as [E | _]; [contradiction | reflexivity].
Qed.

Lemma hex_digits_last (fuel : nat) (z : Z) (acc : string) :
  z / 16 = 0 ->
  hex_digits (S fuel) z acc = String (hex_char (z mod 16)) acc.
Proof. intros H. cbn [hex_digits]. now rewrite H. Qed.

(** The seven digits of [0x1000000] plus three channels. *)
Lemma toString16_channels (r g b : Z) :
  0 <= r <= 255 -> 0 <= g <= 255 -> 0 <= b <= 255 ->
  toString16 (16777216 + r * 65536 + g * 256 + b)
  = String "1" (hex2 r ++ hex2 g ++ hex2 b)%string.
Proof.
  intros Hr Hg Hb. set (z := 16777216 + r * 65536 + g * 256 + b).
  assert (Hz : 16777216 <= z < 33554432) by (unfold z; lia).
  unfold toString16.
  destruct (Z.ltb_spec z 0) as [Hneg | _]; [lia |].
  rewrite (Z.log2_unique z 24) by (change (2 ^ 24) with 16777216;
                                   change (2 ^ Z.succ 24) with 33554432; lia).
  change (S (Z.to_nat 24)) with 25%nat.
  do 6 (rewrite hex_digits_more by (Z.div_mod_to_equations; lia)).
  rewrite hex_digits_last by (Z.div_mod_to_equations; lia).
  replace (z / 16 / 16 / 16 / 16 / 16 / 16 mod 16) with 1
    by (Z.div_mod_to_equations; lia).
  replace (z / 16 / 16 / 16 / 16 / 16 mod 16) with (r / 16)
    by (unfold z; Z.div_mod_to_equations; lia).
  replace (z / 16 / 16 / 16 / 16 mod 16) with (r mod 16)
    by (unfold z; Z.div_mod_to_equations; lia).
  replace (z / 16 / 16 / 16 mod 16) with (g / 16)
    by (unfold z; Z.div_mod_to_equations; lia).
  replace (z / 16 / 16 mod 16) with (g mod 16)
    by (unfold z; Z.div_mod_to_equations; lia).
  replace (z / 16 mod 16) with (b / 16)
    by (unfold z; Z.div_mod_to_equations; lia).
  replace (z mod 16) with (b mod 16)
    by (unfold z; Z.div_mod_to_equations; lia).
  reflexivity.
Qed.

End ShadeFacts.

(** For a colour of six digits and a shade between -1 and 1 the helper
    returns the colour the specification describes. *)
Lemma shadeColor_six_digits (color : string) (shade : Q) :
  hexExpression color = true -> String.length color = 7%nat ->
  (- (1) <= shade <= 1)%Q ->
  Shade.shade_spec color shade = Some (Shade.shadeColor color shade).
Proof.
  intros Hhex Hlen Hs.
  destruct (ShadeFacts.six_digits color Hhex Hlen)
    as (c1 & c2 & c3 & c4 & c5 & c6 & -> & H1 & H2 & H3 & H4 & H5 & H6).
  destruct (ShadeFacts.hex_digit_facts c1 H1) as (d1 & E1 & R1 & _).
  destruct (ShadeFacts.hex_digit_facts c2 H2) as (d2 & E2 & R2 & _).
  destruct (ShadeFacts.hex_digit_facts c3 H3) as (d3 & E3 & R3 & _).
  destruct (ShadeFacts.hex_digit_facts c4 H4) as (d4 & E4 & R4 & _).
  destruct (ShadeFacts.hex_digit_facts c5 H5) as (d5 & E5 & R5 & _).
  destruct (ShadeFacts.hex_digit_facts c6 H6) as (d6 & E6 & R6 & _).
  unfold Shade.shade_spec, Shade.channels. rewrite E1, E2, E3, E4, E5, E6.
  unfold Shade.shadeColor. cbn [Shade.slice1].
  rewrite (ShadeFacts.parseInt_six c1 c2 c3 c4 c5 c6 d1 d2 d3 d4 d5 d6) by assumption.
  destruct (ShadeFacts.channels_of_number (16 * d1 + d2) (16 * d3 + d4) (16 * d5 + d6))
    as (HR & HG & HB); [lia | lia | lia |].
  cbv zeta in HR, HG, HB. cbv zeta. rewrite HR, HG, HB.
  rewrite !ShadeFacts.channel_interpolate.
  pose proof (ShadeFacts.interpolate_range (16 * d1 + d2) shade ltac:(lia) Hs) as Ir.
  pose proof (ShadeFacts.interpolate_range (16 * d3 + d4) shade ltac:(lia) Hs) as Ig.
  pose proof (ShadeFacts.interpolate_range (16 * d5 + d6) shade ltac:(lia) Hs) as Ib.
  rewrite ShadeFacts.toString16_channels by assumption.
  reflexivity.
Qed.

(** * Further properties of the class *)

(** ** The blocks of [_makePaths] *)

Section StackFacts.

Variable this : funnel.

Lemma body_height (i : nat) (r : row) (v : vars) :
  prevHeight (loop_body this i r v) = prevHeight v + v_dy (loop_body this i r v) /\
  nextHeight (loop_body this i r v) = prevHeight (loop_body this i r v).
Proof. unfold loop_body. now destruct (dynamicArea this). Qed.

(** The heights of the path at index [i], from the running variables. *)
Lemma path_heights (i : nat) (p : path) :
  makePaths this !! i = Some p ->
  top_y p = prevHeight (state_at this i) /\
  bottom_y this p = prevHeight (state_at this (S i)).
Proof.
  intros Hp.
  assert (Hi : (i < length (data this))%nat).
  { apply lookup_lt_Some in Hp. now rewrite makePaths_length in Hp. }
  rewrite (makePaths_lookup this i Hi) in Hp. injection Hp as <-.
  destruct (lookup_lt_is_Some_2 (data this) i Hi) as [r Hr].
  assert (Hn : nextHeight (state_at this (S i)) = prevHeight (state_at this (S i))).
  { rewrite (state_at_S this i r Hr). apply body_height. }
  unfold top_y, bottom_y, block_path. destruct (isCurved this); cbn; auto.
Qed.

End StackFacts.

(** X1.  The blocks are stacked without a gap: the top edge of a block is
    the bottom edge of the block before it, in x and in y, in every mode. *)
Theorem blocks_stacked (this : funnel) (i : nat) (p p' : path) :
  makePaths this !! i = Some p ->
  makePaths this !! S i = Some p' ->
  topLeft_x p' = bottomLeft_x this p /\
  topRight_x this p' = bottomRight_x this p /\
  top_y p' = bottom_y this p.
Proof.
  intros Hp Hp'.
  destruct (path_corners this i p Hp) as (_ & _ & _ & -> & ->).
  destruct (path_corners this (S i) p' Hp') as (_ & -> & -> & _ & _).
  destruct (path_heights this i p Hp) as [_ ->].
  destruct (path_heights this (S i) p' Hp') as [-> _].
  auto.
Qed.

Lemma blocks_stacked_witness :
  let this := init_fields (sample_settings false false true 1 (1 / 3)) sample_rows in
  topLeft_x (block_path this (state_at this 1) (state_at this 2))
  = bottomLeft_x this (block_path this (state_at this 0) (state_at this 1)) /\
  top_y (block_path this (state_at this 1) (state_at this 2))
  = bottom_y this (block_path this (state_at this 0) (state_at this 1)).
Proof.
  intros this.
  assert (H0 : (0 < length (data this))%nat) by (simpl; lia).
  assert (H1 : (1 < length (data this))%nat) by (simpl; lia).
  destruct (blocks_stacked this 0 _ _ (makePaths_lookup this 0 H0) (makePaths_lookup this 1 H1))
    as (Hl & _ & Hy).
  split; [exact Hl | exact Hy].
Defined.

(** ** Static mode: depths *)

Section StaticDepth.

Variables (s : settings) (rows : list row) (h ch : R).
Hypothesis Hh : s_height s = fin h.
Hypothesis Hch : s_isCurved s = true -> s_curveHeight s = fin ch.
Hypothesis Hd : s_dynamicArea s = false.
Hypothesis Hrows : rows <> [].

Let this := init_fields s rows.
Let H : R := if s_isCurved s then (h - ch)%R else h.
Let y0 : R := if s_isCurved s then 10%R else 0%R.

Lemma static_dy : dy this = fin (H / INR (length rows)).
Proof.
  pose proof (INR_length_pos rows Hrows) as Hn.
  unfold this, H. cbn [dy init_fields]. rewrite Hh.
  destruct (s_isCurved s).
  - rewrite Hch by reflexivity. autorewrite with num. apply ndiv_fin. lra.
  - autorewrite with num. apply ndiv_fin. lra.
Qed.

Lemma static_body_dy (k : nat) (r : row) (v : vars) :
  v_dy (loop_body this k r v) = v_dy v.
Proof.
  unfold loop_body. change (dynamicArea this) with (s_dynamicArea s). now rewrite Hd.
Qed.

Lemma static_heights (k : nat) :
  (k <= length rows)%nat ->
  v_dy (state_at this k) = fin (H / INR (length rows)) /\
  prevHeight (state_at this k) = fin (y0 + INR k * (H / INR (length rows))).
Proof.
  induction k as [| k IH]; intros Hk.
  - rewrite state_at_0. unfold vars_init. cbn [v_dy prevHeight].
    rewrite static_dy. split; [reflexivity |].
    change (isCurved this) with (s_isCurved s). unfold y0.
    destruct (s_isCurved s); f_equal; simpl INR; lra.
  - destruct IH as [Hdy Hy]; [lia |].
    destruct (lookup_lt_is_Some_2 rows k) as [r Hr]; [lia |].
    rewrite (state_at_S this k r Hr).
    destruct (body_height this k r (state_at this k)) as [-> _].
    rewrite static_body_dy, Hdy, Hy. split; [reflexivity |].
    autorewrite with num. f_equal. rewrite S_INR. lra.
Qed.

End StaticDepth.

(** X2.  Without [dynamicArea] the blocks have the same depth and fill the
    height: block [i] of [n] lies between [y0 + i * H / n] and
    [y0 + (i + 1) * H / n], where [H] is the height and [y0] is 0, or
    [H = height - curveHeight] and [y0 = 10] for a curved chart; so the last
    block ends at [y0 + H]. *)
Theorem static_depths (s : settings) (rows : list row) (h ch : R) (i : nat) (p : path) :
  s_dynamicArea s = false ->
  s_height s = fin h ->
  (s_isCurved s = true -> s_curveHeight s = fin ch) ->
  makePaths (init_fields s rows) !! i = Some p ->
  top_y p
  = fin ((if s_isCurved s then 10 else 0)
         + INR i * ((if s_isCurved s then h - ch else h) / INR (length rows))) /\
  bottom_y (init_fields s rows) p
  = fin ((if s_isCurved s then 10 else 0)
         + INR (S i) * ((if s_isCurved s then h - ch else h) / INR (length rows))) /\
  (S i = length rows ->
   bottom_y (init_fields s rows) p
   = fin ((if s_isCurved s then 10 else 0) + (if s_isCurved s then h - ch else h))).
Proof.
  intros Hd Hh Hch Hp.
  destruct (path_corners _ i p Hp) as (Hi & _).
  change (length (data (init_fields s rows))) with (length rows) in Hi.
  assert (Hrows : rows <> []) by (intros ->; simpl in Hi; lia).
  destruct (path_heights _ i p Hp) as [-> ->].
  destruct (static_heights s rows h ch Hh Hch Hd Hrows i) as [_ ->]; [lia |].
  destruct (static_heights s rows h ch Hh Hch Hd Hrows (S i)) as [_ Hy]; [lia |].
  split; [reflexivity |]. split; [exact Hy |].
  intros Hlast. rewrite Hy, Hlast. f_equal.
  pose proof (INR_length_pos rows Hrows) as Hn. field. lra.
Qed.

Lemma static_depths_witness :
  bottom_y (init_fields (sample_settings false false true 0 (1 / 3)) sample_rows)
    (block_path (init_fields (sample_settings false false true 0 (1 / 3)) sample_rows)
       (state_at (init_fields (sample_settings false false true 0 (1 / 3)) sample_rows) 2)
       (state_at (init_fields (sample_settings false false true 0 (1 / 3)) sample_rows) 3))
  = fin (10 + (400 - 20)).
Proof.
  assert (Hlen : (2 < length (data (init_fields (sample_settings false false true 0 (1 / 3))
                                      sample_rows)))%nat) by (simpl; lia).
  exact (proj2 (proj2 (static_depths (sample_settings false false true 0 (1 / 3)) sample_rows
                         400 20 2 _ eq_refl eq_refl (fun _ => eq_refl)
                         (makePaths_lookup _ 2 Hlen))) eq_refl).
Defined.

(** ** Static mode: the pinch *)

Section Pinch.

Variables (s : settings) (rows : list row) (w q : R) (pn : nat).
Hypothesis Hw : s_width s = fin w.
Hypothesis Hq : s_bottomWidth s = fin q.
Hypothesis Hd : s_dynamicArea s = false.
Hypothesis Hp : s_bottomPinch s = Z.of_nat pn.
Hypothesis Hpn : (0 < pn < length rows)%nat.

Let this := init_fields s rows.
Let m : nat := (length rows - pn)%nat.
Let d : R := ((w - w * q) / 2 / INR m)%R.

Lemma pinch_m_pos : (0 < INR m)%R.
Proof. apply lt_0_INR. unfold m. lia. Qed.

Lemma pinch_dx : dx this = fin d.
Proof.
  unfold this. rewrite (init_dx_pinch s rows w q Hw Hq) by (rewrite Hp; lia).
  unfold d. do 2 f_equal. rewrite Hp, <- Nat2Z.inj_sub by lia.
  fold m. now rewrite <- INR_IZR_INZ.
Qed.

Lemma pinch_total_step : (INR m * d = (w - w * q) / 2)%R.
Proof. unfold d. pose proof pinch_m_pos. field. lra. Qed.

(** Not inverted: the x move inward by [d] for the first [m] rows, then
    stay. *)
Lemma pinch_state (k : nat) :
  s_isInverted s = false ->
  (k <= length rows)%nat ->
  ((k <= m)%nat -> v_dx (state_at this k) = fin d) /\
  prevLeftX (state_at this k) = fin (INR (Nat.min k m) * d) /\
  prevRightX (state_at this k) = fin (w - INR (Nat.min k m) * d).
Proof.
  intros Hinv. induction k as [| k IH]; intros Hk.
  - rewrite state_at_0. unfold vars_init. cbn [v_dx prevLeftX prevRightX].
    change (isInverted this) with (s_isInverted s). rewrite Hinv, pinch_dx.
    unfold this. rewrite (init_width s rows w Hw).
    split; [reflexivity |]. simpl INR. split; f_equal; lra.
  - destruct IH as (Hdx & Hl & Hr); [lia |].
    destruct (lookup_lt_is_Some_2 rows k) as [x Hx]; [lia |].
    rewrite (state_at_S this k x Hx), body_prevLeftX, body_prevRightX.
    rewrite (body_static_dx this k x _ Hd), Hl, Hr.
    change (bottomPinch this) with (s_bottomPinch s).
    change (isInverted this) with (s_isInverted s).
    change (data this) with rows. rewrite Hinv, Hp. cbn [negb].
    destruct (Z.gtb_spec (Z.of_nat pn) 0) as [_ | Hle]; [| lia].
    destruct (Z.geb_spec (Z.of_nat k) (Z.of_nat (length rows) - Z.of_nat pn)) as [Hge | Hlt].
    + assert (Hkm : (m <= k)%nat) by (unfold m; lia).
      rewrite !Nat.min_r by lia. autorewrite with num.
      split; [intros; lia |]. split; f_equal; lra.
    + assert (Hkm : (k < m)%nat) by (unfold m; lia).
      rewrite Hdx by lia. rewrite !Nat.min_l by lia. autorewrite with num.
      split; [reflexivity |]. rewrite S_INR. split; f_equal; lra.
Qed.

(** Inverted: the x stay for the first [pn] rows, then move outward by
    [d]. *)
Lemma pinch_state_inverted (k : nat) :
  s_isInverted s = true ->
  (k <= length rows)%nat ->
  prevLeftX (state_at this k) = fin ((w - w * q) / 2 - INR (k - pn) * d) /\
  prevRightX (state_at this k) = fin (w - (w - w * q) / 2 + INR (k - pn) * d).
Proof.
  intros Hinv. induction k as [| k IH]; intros Hk.
  - rewrite state_at_0. unfold vars_init. cbn [prevLeftX prevRightX].
    change (isInverted this) with (s_isInverted s). rewrite Hinv.
    unfold this. rewrite (init_bottomLeftX s rows w q Hw Hq), (init_width s rows w Hw).
    autorewrite with num. simpl INR. split; f_equal; lra.
  - destruct IH as (Hl & Hr); [lia |].
    destruct (lookup_lt_is_Some_2 rows k) as [x Hx]; [lia |].
    rewrite (state_at_S this k x Hx), body_prevLeftX, body_prevRightX.
    rewrite (body_static_dx this k x _ Hd), Hl, Hr.
    change (bottomPinch this) with (s_bottomPinch s).
    change (isInverted this) with (s_isInverted s).
    rewrite Hinv, Hp. cbn [negb].
    destruct (Z.gtb_spec (Z.of_nat pn) 0) as [_ | Hle]; [| lia].
    destruct (Z.ltb_spec (Z.of_nat k) (Z.of_nat pn)) as [Hlt | Hge].
    + replace (S k - pn)%nat with 0%nat by lia. replace (k - pn)%nat with 0%nat by lia.
      autorewrite with num. simpl INR. split; f_equal; lra.
    + replace (S k - pn)%nat with (S (k - pn)) by lia.
      rewrite pinch_dx. autorewrite with num. rewrite S_INR. split; f_equal; lra.
Qed.

End Pinch.

(** X3.  Not inverted, no [dynamicArea], a pinch count [0 < p < n]: the
    taper ends where the pinch starts; each of the last [p] blocks is a
    rectangle as wide as the bottom width [width * bottomWidth], its left
    side at [bottomLeftX]. *)
Theorem pinched_blocks_width (s : settings) (rows : list row) (w q : R) (pn i : nat) (p : path) :
  s_width s = fin w ->
  s_bottomWidth s = fin q ->
  s_isInverted s = false ->
  s_dynamicArea s = false ->
  s_bottomPinch s = Z.of_nat pn ->
  (0 < pn < length rows)%nat ->
  (length rows - pn <= i)%nat ->
  makePaths (init_fields s rows) !! i = Some p ->
  topLeft_x p = fin ((w - w * q) / 2) /\
  topRight_x (init_fields s rows) p - topLeft_x p = fin (w * q) /\
  bottomRight_x (init_fields s rows) p - bottomLeft_x (init_fields s rows) p = fin (w * q).
Proof.
  intros Hw Hq Hinv Hd Hp Hpn Hi Hpath.
  destruct (path_corners _ i p Hpath) as (Hlt & -> & -> & -> & ->).
  change (length (data (init_fields s rows))) with (length rows) in Hlt.
  destruct (pinch_state s rows w q pn Hw Hq Hd Hp Hpn i Hinv) as (_ & -> & ->); [lia |].
  destruct (pinch_state s rows w q pn Hw Hq Hd Hp Hpn (S i) Hinv) as (_ & -> & ->); [lia |].
  rewrite !Nat.min_r by lia.
  pose proof (pinch_total_step rows w q pn Hpn) as Ht.
  autorewrite with num. repeat split; f_equal; lra.
Qed.

Lemma pinched_blocks_width_witness :
  let this := init_fields (sample_settings false false false 1 (1 / 3)) sample_rows in
  topRight_x this (block_path this (state_at this 2) (state_at this 3))
  - topLeft_x (block_path this (state_at this 2) (state_at this 3))
  = fin (350 * (1 / 3)).
Proof.
  intros this.
  assert (Hlen : (2 < length (data this))%nat) by (simpl; lia).
  refine (proj1 (proj2 (pinched_blocks_width (sample_settings false false false 1 (1 / 3))
                          sample_rows 350 (1 / 3) 1 2 _ eq_refl eq_refl eq_refl eq_refl
                          eq_refl _ _ (makePaths_lookup this 2 Hlen)))); simpl; lia.
Defined.

(** X4.  Inverted, no [dynamicArea], a pinch count [0 < p < n]: each of the
    first [p] blocks is a rectangle as wide as the bottom width, and the
    bottom edge of the last block is as wide as the chart. *)
Theorem inverted_pinch_edges (s : settings) (rows : list row) (w q : R) (pn : nat) :
  s_width s = fin w ->
  s_bottomWidth s = fin q ->
  s_isInverted s = true ->
  s_dynamicArea s = false ->
  s_bottomPinch s = Z.of_nat pn ->
  (0 < pn < length rows)%nat ->
  (forall (i : nat) (p : path),
     (i < pn)%nat ->
     makePaths (init_fields s rows) !! i = Some p ->
     topRight_x (init_fields s rows) p - topLeft_x p = fin (w * q) /\
     bottomRight_x (init_fields s rows) p - bottomLeft_x (init_fields s rows) p
     = fin (w * q)) /\
  exists last : path,
    makePaths (init_fields s rows) !! (length rows - 1)%nat = Some last /\
    bottomLeft_x (init_fields s rows) last = fin 0 /\
    bottomRight_x (init_fields s rows) last = fin w.
Proof.
  intros Hw Hq Hinv Hd Hp Hpn. split.
  - intros i p Hi Hpath.
    destruct (path_corners _ i p Hpath) as (Hlt & -> & -> & -> & ->).
    change (length (data (init_fields s rows))) with (length rows) in Hlt.
    destruct (pinch_state_inverted s rows w q pn Hw Hq Hd Hp Hpn i Hinv) as (-> & ->); [lia |].
    destruct (pinch_state_inverted s rows w q pn Hw Hq Hd Hp Hpn (S i) Hinv) as (-> & ->);
      [lia |].
    replace (S i - pn)%nat with 0%nat by lia. replace (i - pn)%nat with 0%nat by lia.
    autorewrite with num. simpl INR. split; f_equal; lra.
  - assert (Hl : (length rows - 1 < length (data (init_fields s rows)))%nat).
    { change (length (data (init_fields s rows))) with (length rows). lia. }
    eexists. split; [exact (makePaths_lookup _ _ Hl) |].
    destruct (path_corners _ _ _ (makePaths_lookup _ _ Hl)) as (_ & _ & _ & -> & ->).
    replace (S (length rows - 1)) with (length rows) by lia.
    destruct (pinch_state_inverted s rows w q pn Hw Hq Hd Hp Hpn (length rows) Hinv)
      as (-> & ->); [lia |].
    pose proof (pinch_total_step rows w q pn Hpn) as Ht.
    split; f_equal; lra.
Qed.

Lemma inverted_pinch_edges_witness :
  exists last : path,
    makePaths (init_fields (sample_settings true false false 1 (1 / 3)) sample_rows) !! 2%nat
    = Some last /\
    bottomRight_x (init_fields (sample_settings true false false 1 (1 / 3)) sample_rows) last
    = fin 350.
Proof.
  destruct (inverted_pinch_edges (sample_settings true false false 1 (1 / 3)) sample_rows
              350 (1 / 3) 1 eq_refl eq_refl eq_refl eq_refl eq_refl)
    as (_ & last & Hl & _ & Hr); [simpl; lia |].
  exists last. split; [exact Hl | exact Hr].
Defined.

(** ** Dynamic areas: where the funnel ends *)

Section DynamicEnd.

Variables (s : settings) (rows : list row) (w h q : R).
Hypothesis Hw : s_width s = fin w.
Hypothesis Hh : s_height s = fin h.
Hypothesis Hq : s_bottomWidth s = fin q.
Hypothesis Hdyn : s_dynamicArea s = true.
Hypothesis Hcur : s_isCurved s = false.
Hypothesis Hmin : s_minHeight s = None.
Hypothesis Hwpos : (0 < w)%R.
Hypothesis Hhpos : (0 < h)%R.
Hypothesis Hq1 : q <> 1%R.
Hypothesis Hq0 : (0 <= q)%R.
Hypothesis Hall : Forall positive_row rows.
Hypothesis Hrows : rows <> [].

Let this := init_fields s rows.
Let T : R := total_value rows.
Let A : R := (h * (w + w * q) / 2)%R.
Let D : R := (w * w - (w * q) * (w * q))%R.

(** The depth of a block whose bases are [t] and [b]. *)
Lemma dyn_depth (t b y : R) :
  (0 < t)%R -> (0 <= b)%R -> (b * b = t * t - y * D)%R ->
  (y * A * 2 / (t + b) = (t - b) * h / (w - w * q))%R.
Proof.
  intros Ht Hb Hsq.
  pose proof (dyn_base_diff w q Hwpos Hq1) as Hwq.
  assert (Hy : (y * A * 2 = (t * t - b * b) * h / (w - w * q))%R).
  { rewrite Hsq. unfold A, D. field. exact Hwq. }
  rewrite Hy. field. split; lra.
Qed.

(** The top base and the height reached after [k] rows. *)
Lemma dyn_profile (k : nat) :
  (k <= length rows)%nat ->
  exists t : R,
    topBase (state_at this k) = fin t /\ (0 <= t)%R /\
    (t * t = w * w - total_value (take k rows) / T * D)%R /\
    prevHeight (state_at this k) = fin ((w - t) * h / (w - w * q)).
Proof.
  pose proof (dyn_base_diff w q Hwpos Hq1) as Hwq.
  induction k as [| k IH]; intros Hk.
  - exists w. rewrite state_at_0. cbn [vars_init topBase prevHeight].
    change (isCurved this) with (s_isCurved s). rewrite Hcur.
    split; [exact Hw |]. split; [lra |]. split.
    + change (total_value (take 0 rows)) with 0%R. unfold Rdiv. ring.
    + f_equal. unfold Rdiv. ring.
  - destruct IH as (t & Ht & Ht0 & Hsq & Hy); [lia |].
    destruct (lookup_lt_is_Some_2 rows k) as [r Hr]; [lia |].
    destruct (total_value_take_lt rows k r Hall Hr) as (Hs0 & HsT & Hc0).
    destruct (share_bounds _ _ T Hs0 Hc0 HsT) as (Hx0 & Hy0 & Hxy).
    assert (Hr' : positive_row r).
    { rewrite Forall_forall in Hall. apply Hall, list_elem_of_lookup. eauto. }
    destruct (positive_row_value r Hr') as [Hc _].
    set (x := (total_value (take k rows) / T)%R) in *.
    set (c := (count_value r / T)%R) in *.
    assert (Htpos : (0 < t * t)%R).
    { rewrite Hsq. apply convex_square_pos; [assumption | lra]. }
    assert (Ht1 : (0 < t)%R) by nra.
    assert (Hrad : (t * t - c * D = w * w - (x + c) * (w * w - w * q * (w * q)))%R).
    { rewrite Hsq. unfold D. ring. }
    assert (Hnn : (0 <= t * t - c * D)%R).
    { rewrite Hrad. apply convex_square_nonneg. lra. }
    destruct (dyn_step s rows w h q Hw Hh Hq Hdyn Hcur Hmin Hwpos Hhpos Hq1 Hall Hrows
                k r (state_at this k) t (count_value r) Ht Ht1 Hc Hnn)
      as (_ & Htop & _ & Hdy).
    fold T D A c in Htop, Hdy.
    pose proof (sqrt_pos (t * t - c * D)) as Hb0.
    pose proof (sqrt_sqrt (t * t - c * D) Hnn) as Hb2.
    set (b := sqrt (t * t - c * D)) in *.
    exists b. rewrite (state_at_S this k r Hr).
    destruct (body_height this k r (state_at this k)) as [-> _].
    fold this in Htop, Hdy. rewrite Htop, Hdy, Hy. autorewrite with num.
    split; [reflexivity |]. split; [exact Hb0 |]. split.
    + rewrite Hb2, (total_value_take_S rows k r Hr), Hrad. unfold D, x, c. field.
      pose proof (dyn_T_pos rows Hall Hrows). unfold T. lra.
    + f_equal. rewrite (dyn_depth t b c Ht1 Hb0 Hb2). field. exact Hwq.
Qed.

(** After the last row the base is the bottom width and the height is
    reached. *)
Lemma dyn_profile_end :
  topBase (state_at this (length rows)) = fin (w * q) /\
  prevHeight (state_at this (length rows)) = fin h.
Proof.
  pose proof (dyn_base_diff w q Hwpos Hq1) as Hwq.
  assert (HT : (0 < T)%R) by exact (dyn_T_pos rows Hall Hrows).
  destruct (dyn_profile (length rows)) as (t & Ht & Ht0 & Hsq & Hy); [lia |].
  rewrite firstn_all in Hsq. fold T in Hsq.
  assert (Hsq' : (t * t = (w * q) * (w * q))%R).
  { rewrite Hsq. unfold D. field. lra. }
  assert (Ht' : t = (w * q)%R).
  { assert (Hwq0 : (0 <= w * q)%R) by nra. nra. }
  subst t. split; [exact Ht |]. rewrite Hy. f_equal. field. exact Hwq.
Qed.

End DynamicEnd.

(** X5.  With [dynamicArea], not curved, no [minHeight], not inverted and
    without a pinch, for positive values, a positive width and height and a
    bottom width [1/1000 <= q < 1] or [q > 1]: the funnel ends where the
    static one does; the bottom edge of the last block is as wide as the
    bottom width [width * bottomWidth] and lies at the height of the chart.
    (A bottom width at or near 0 is left out: the last radicand is then
    within the rounding error of 0, where the sign the doubles give it need
    not be the one of the exact value.) *)
Theorem dynamic_funnel_end (s : settings) (rows : list row) (w h q : R) :
  rows <> [] ->
  Forall positive_row rows ->
  s_width s = fin w -> (0 < w)%R ->
  s_height s = fin h -> (0 < h)%R ->
  s_bottomWidth s = fin q -> (1 / 1000 <= q)%R -> q <> 1%R ->
  s_dynamicArea s = true ->
  s_isCurved s = false ->
  s_minHeight s = None ->
  s_isInverted s = false ->
  (s_bottomPinch s <= 0)%Z ->
  exists last : path,
    makePaths (init_fields s rows) !! (length rows - 1)%nat = Some last /\
    bottomRight_x (init_fields s rows) last - bottomLeft_x (init_fields s rows) last
    = fin (w * q) /\
    bottom_y (init_fields s rows) last = fin h.
Proof.
  intros Hrows Hall Hw Hwpos Hh Hhpos Hq Hq0 Hq1 Hdyn Hcur Hmin Hinv Hpinch.
  assert (Hn : (0 < length rows)%nat) by (destruct rows; [contradiction | simpl; lia]).
  assert (Hl : (length rows - 1 < length (data (init_fields s rows)))%nat).
  { change (length (data (init_fields s rows))) with (length rows). lia. }
  eexists. split; [exact (makePaths_lookup _ _ Hl) |].
  destruct (path_corners _ _ _ (makePaths_lookup _ _ Hl)) as (_ & _ & _ & -> & ->).
  destruct (path_heights _ _ _ (makePaths_lookup _ _ Hl)) as [_ ->].
  replace (S (length rows - 1)) with (length rows) by lia.
  assert (Hq0' : (0 <= q)%R) by lra.
  destruct (dyn_profile_end s rows w h q Hw Hh Hq Hdyn Hcur Hmin Hwpos Hhpos Hq1 Hq0' Hall
              Hrows)
    as [Htop Hy].
  destruct (dyn_run s rows w h q Hw Hh Hq Hdyn Hcur Hmin Hwpos Hhpos Hq1 Hall Hrows Hinv Hpinch
              (length rows)) as (l & x & y & t & Hl' & Hx & _ & Ht & Hxl); [lia |].
  rewrite Htop in Ht. apply fin_inj in Ht. subst t.
  rewrite Hl', Hx, Hy. autorewrite with num. split; [f_equal; lra | reflexivity].
Qed.

Lemma dynamic_funnel_end_witness :
  exists last : path,
    makePaths (init_fields (sample_settings false true false 0 (1 / 3)) sample_rows) !! 2%nat
    = Some last /\
    bottomRight_x (init_fields (sample_settings false true false 0 (1 / 3)) sample_rows) last
    - bottomLeft_x (init_fields (sample_settings false true false 0 (1 / 3)) sample_rows) last
    = fin (350 * (1 / 3)) /\
    bottom_y (init_fields (sample_settings false true false 0 (1 / 3)) sample_rows) last
    = fin 400.
Proof.
  apply (dynamic_funnel_end (sample_settings false true false 0 (1 / 3)) sample_rows
           350 400 (1 / 3));
    [discriminate | exact sample_rows_positive | reflexivity | lra | reflexivity | lra
     | reflexivity | lra | lra | reflexivity | reflexivity | reflexivity | reflexivity
     | simpl; lia].
Defined.

(** ** What the geometry depends on *)

Section SameGeometry.

Variables a b : funnel.
Hypothesis Hlen : length (data a) = length (data b).
Hypothesis E1 : width a = width b.
Hypothesis E2 : height a = height b.
Hypothesis E3 : bottomWidth a = bottomWidth b.
Hypothesis E4 : bottomPinch a = bottomPinch b.
Hypothesis E5 : isCurved a = isCurved b.
Hypothesis E6 : curveHeight a = curveHeight b.
Hypothesis E7 : isInverted a = isInverted b.
Hypothesis E8 : dynamicArea a = dynamicArea b.
Hypothesis E9 : minHeight a = minHeight b.
Hypothesis E10 : bottomLeftX a = bottomLeftX b.
Hypothesis E11 : dx a = dx b.
Hypothesis E12 : dy a = dy b.
Hypothesis Htotal : dynamicArea a = true -> totalCount a = totalCount b.

Lemma same_body (i : nat) (r r' : row) (v : vars) :
  (dynamicArea a = true -> row_count r = row_count r') ->
  loop_body a i r v = loop_body b i r' v.
Proof.
  intros Hr. unfold loop_body, totalArea, slope, middle.
  rewrite <- Hlen, <- E1, <- E2, <- E3, <- E4, <- E5, <- E6, <- E7, <- E8, <- E9, <- E11.
  destruct (dynamicArea a) eqn:Hd; [| reflexivity].
  now rewrite <- (Hr eq_refl), <- (Htotal eq_refl).
Qed.

Lemma same_loop (l l' : list row) (i : nat) (v : vars) :
  Forall2 (fun r r' => dynamicArea a = true -> row_count r = row_count r') l l' ->
  loop a i l v = loop b i l' v.
Proof.
  intros H. revert i v. induction H as [| r r' l l' Hr _ IH]; intros i v; [reflexivity |].
  cbn [loop]. rewrite (same_body i r r' v Hr). apply IH.
Qed.

Lemma same_paths :
  Forall2 (fun r r' => dynamicArea a = true -> row_count r = row_count r') (data a) (data b) ->
  makePaths a = makePaths b.
Proof.
  intros H. unfold makePaths. rewrite <- (same_loop _ _ 0 _ H). do 2 f_equal.
  unfold vars_init. now rewrite E1, E5, E7, E10, E11, E12.
Qed.

End SameGeometry.

Lemma totalCount_map (this : funnel) :
  totalCount this = fold_left nadd (map row_count (data this)) (fin 0).
Proof.
  unfold totalCount. generalize (fin 0). induction (data this) as [| r l IH]; intros a.
  - reflexivity.
  - cbn [fold_left map]. apply IH.
Qed.

Lemma init_colors_counts (colorScale : nat -> string) (i : nat) (rows : list row) :
  map row_count (init_colors colorScale i rows) = map row_count rows.
Proof.
  revert i. induction rows as [| r rows IH]; intros i; [reflexivity |].
  cbn [init_colors map]. now rewrite IH.
Qed.

(** Two lists of rows of the same length give the same chart fields but
    for the rows. *)
Lemma same_rows_paths (s : settings) (rows rows' : list row) :
  length rows = length rows' ->
  (s_dynamicArea s = true -> map row_count rows = map row_count rows') ->
  makePaths (init_fields s rows) = makePaths (init_fields s rows').
Proof.
  intros Hlen Hmap.
  apply same_paths; try reflexivity; try exact Hlen.
  - unfold init_fields. cbn [dx]. now rewrite Hlen.
  - unfold init_fields. cbn [dy]. now rewrite Hlen.
  - intros Hd. rewrite !totalCount_map. cbn [data init_fields]. now rewrite (Hmap Hd).
  - cbn [data init_fields dynamicArea].
    revert rows' Hlen Hmap. induction rows as [| r rows IH]; intros [| r' rows'] Hlen Hmap;
      try discriminate; constructor.
    + intros Hd. specialize (Hmap Hd). now injection Hmap.
    + apply IH; [now injection Hlen |]. intros Hd. specialize (Hmap Hd). now injection Hmap.
Qed.

(** X6.  The paths depend on the rows through their values only, and
    without [dynamicArea] through their number only; in particular the
    colours [_initialize] writes into the rows leave the paths as they
    are. *)
Theorem geometry_ignores_labels_and_colors (s : settings) (rows rows' : list row) :
  (map row_count rows = map row_count rows' ->
   makePaths (init_fields s rows) = makePaths (init_fields s rows')) /\
  (s_dynamicArea s = false -> length rows = length rows' ->
   makePaths (init_fields s rows) = makePaths (init_fields s rows')) /\
  (forall colorScale : nat -> string,
     makePaths (init_fields s (init_colors colorScale 0 rows))
     = makePaths (init_fields s rows)).
Proof.
  assert (Hcounts : forall l l' : list row, map row_count l = map row_count l' ->
            makePaths (init_fields s l) = makePaths (init_fields s l')).
  { intros l l' Hmap. apply same_rows_paths; [| now intros _].
    rewrite <- (length_map row_count l), Hmap. apply length_map. }
  split; [apply Hcounts |]. split.
  - intros Hd Hlen. apply same_rows_paths; [exact Hlen | congruence].
  - intros colorScale. apply Hcounts, init_colors_counts.
Qed.

Lemma geometry_ignores_labels_and_colors_witness :
  makePaths (init_fields (sample_settings false false false 0 (1 / 3))
               [plain_row "X" 1; plain_row "Y" 2; plain_row "Z" 3])
  = makePaths (init_fields (sample_settings false false false 0 (1 / 3)) sample_rows).
Proof.
  exact (proj1 (proj2 (geometry_ignores_labels_and_colors
                         (sample_settings false false false 0 (1 / 3))
                         [plain_row "X" 1; plain_row "Y" 2; plain_row "Z" 3] sample_rows))
               eq_refl eq_refl).
Defined.

(** ** [shadeColor] on colours of six digits *)

Module ShadeMore.

Import Shade.

Local Open Scope Z_scope.

Lemma digit_value_hex_char (d : Z) :
  0 <= d < 16 -> digit_value (hex_char d) = Some d /\ is_hex_digit (hex_char d) = true.
Proof.
  intros Hd.
  assert (H : d = 0 \/ d = 1 \/ d = 2 \/ d = 3 \/ d = 4 \/ d = 5 \/ d = 6 \/ d = 7 \/
              d = 8 \/ d = 9 \/ d = 10 \/ d = 11 \/ d = 12 \/ d = 13 \/ d = 14 \/ d = 15)
    by lia.
  repeat (destruct H as [-> | H]; [split; reflexivity |]). subst d. split; reflexivity.
Qed.

(** Reading back the colour written from three channels. *)
Lemma channels_of_hex (r g b : Z) :
  0 <= r <= 255 -> 0 <= g <= 255 -> 0 <= b <= 255 ->
  channels (String "#" (hex2 r ++ hex2 g ++ hex2 b)%string) = Some (r, g, b) /\
  hexExpression (String "#" (hex2 r ++ hex2 g ++ hex2 b)%string) = true.
Proof.
  intros Hr Hg Hb. unfold hex2.
  change (String "#" (String (hex_char (r / 16)) (String (hex_char (r mod 16)) EmptyString)
                      ++ String (hex_char (g / 16)) (String (hex_char (g mod 16)) EmptyString)
                      ++ String (hex_char (b / 16)) (String (hex_char (b mod 16)) EmptyString))%string)
    with (String "#" (String (hex_char (r / 16)) (String (hex_char (r mod 16))
            (String (hex_char (g / 16)) (String (hex_char (g mod 16))
            (String (hex_char (b / 16)) (String (hex_char (b mod 16)) EmptyString))))))).
  destruct (digit_value_hex_char (r / 16)) as [E1 F1]; [Z.div_mod_to_equations; lia |].
  destruct (digit_value_hex_char (r mod 16)) as [E2 F2]; [Z.div_mod_to_equations; lia |].
  destruct (digit_value_hex_char (g / 16)) as [E3 F3]; [Z.div_mod_to_equations; lia |].
  destruct (digit_value_hex_char (g mod 16)) as [E4 F4]; [Z.div_mod_to_equations; lia |].
  destruct (digit_value_hex_char (b / 16)) as [E5 F5]; [Z.div_mod_to_equations; lia |].
  destruct (digit_value_hex_char (b mod 16)) as [E6 F6]; [Z.div_mod_to_equations; lia |].
  split.
  - cbn [channels]. rewrite E1, E2, E3, E4, E5, E6.
    do 2 f_equal; [f_equal |]; Z.div_mod_to_equations; lia.
  - cbn [hexExpression all_hex String.length]. rewrite F1, F2, F3, F4, F5, F6. reflexivity.
Qed.

(** The channels of a colour of six digits. *)
Lemma channels_six (color : string) :
  hexExpression color = true -> String.length color = 7%nat ->
  exists r g b : Z,
    channels color = Some (r, g, b) /\ 0 <= r <= 255 /\ 0 <= g <= 255 /\ 0 <= b <= 255.
Proof.
  intros Hhex Hlen.
  destruct (ShadeFacts.six_digits color Hhex Hlen)
    as (c1 & c2 & c3 & c4 & c5 & c6 & -> & H1 & H2 & H3 & H4 & H5 & H6).
  destruct (ShadeFacts.hex_digit_facts c1 H1) as (d1 & E1 & R1 & _).
  destruct (ShadeFacts.hex_digit_facts c2 H2) as (d2 & E2 & R2 & _).
  destruct (ShadeFacts.hex_digit_facts c3 H3) as (d3 & E3 & R3 & _).
  destruct (ShadeFacts.hex_digit_facts c4 H4) as (d4 & E4 & R4 & _).
  destruct (ShadeFacts.hex_digit_facts c5 H5) as (d5 & E5 & R5 & _).
  destruct (ShadeFacts.hex_digit_facts c6 H6) as (d6 & E6 & R6 & _).
  exists (16 * d1 + d2), (16 * d3 + d4), (16 * d5 + d6).
  cbn [channels]. rewrite E1, E2, E3, E4, E5, E6. repeat split; lia.
Qed.

(** A negative shade moves a channel down, another one up. *)
Lemma interpolate_direction (c : Z) (shade : Q) :
  0 <= c <= 255 -> (- (1) <= shade <= 1)%Q ->
  ((shade <= 0)%Q -> interpolate c shade <= c) /\
  ((0 <= shade)%Q -> c <= interpolate c shade).
Proof.
  intros Hc Hs. unfold interpolate, round.
  assert (Hq : (0 <= inject_Z c <= 255)%Q).
  { split; [change 0%Q with (inject_Z 0) | change 255%Q with (inject_Z 255)];
      rewrite <- Zle_Qle; lia. }
  assert (Ha : (0 <= Qabs shade <= 1)%Q).
  { split; [apply Qabs_nonneg | apply Qabs_Qle_condition; lra]. }
  split; intros Hsign.
  - destruct (Qle_bool 0 shade) eqn:E; cbn [negb].
    + apply Qle_bool_iff in E.
      assert (H0 : (Qabs shade == 0)%Q) by (rewrite Qabs_pos by lra; lra).
      rewrite (Qfloor_comp _ (inject_Z c + (1 # 2))%Q) by (rewrite H0; ring).
      apply Z.eq_le_incl, ShadeFacts.Qfloor_unique; [lra |].
      rewrite inject_Z_plus. change (inject_Z 1) with 1%Q. lra.
    + unfold Z.sub. rewrite inject_Z_plus, inject_Z_opp. change (inject_Z 0) with 0%Q.
      set (a := Qabs shade) in *. set (x := inject_Z c) in *.
      pose proof (Qfloor_le (x + (0 + - x) * a + (1 # 2))) as Hf.
      assert (Hz : (inject_Z (Qfloor (x + (0 + - x) * a + (1 # 2))) < inject_Z (c + 1))%Q).
      { rewrite inject_Z_plus. fold x. change (inject_Z 1) with 1%Q. nra. }
      rewrite <- Zlt_Qlt in Hz. lia.
  - assert (E : Qle_bool 0 shade = true) by now apply Qle_bool_iff.
    rewrite E. cbn [negb].
    unfold Z.sub. rewrite inject_Z_plus, inject_Z_opp. change (inject_Z 255) with 255%Q.
    set (a := Qabs shade) in *. set (x := inject_Z c) in *.
    replace c with (Qfloor (inject_Z c)) at 1 by apply Qfloor_Z.
    apply Qfloor_resp_le. fold x. nra.
Qed.

Lemma interpolate_extremes (c : Z) (shade : Q) :
  0 <= c <= 255 ->
  ((shade == 0)%Q -> interpolate c shade = c) /\
  ((shade == - (1))%Q -> interpolate c shade = 0) /\
  ((shade == 1)%Q -> interpolate c shade = 255).
Proof.
  intros Hc. unfold interpolate, round.
  assert (Hq : (0 <= inject_Z c <= 255)%Q).
  { split; [change 0%Q with (inject_Z 0) | change 255%Q with (inject_Z 255)];
      rewrite <- Zle_Qle; lia. }
  split; [| split]; intros Hs.
  - assert (Ha : (Qabs shade == 0)%Q) by (rewrite Hs; reflexivity).
    apply ShadeFacts.Qfloor_unique; rewrite ?inject_Z_plus; change (inject_Z 1) with 1%Q;
      rewrite Ha; lra.
  - assert (Ha : (Qabs shade == 1)%Q) by (rewrite Hs; reflexivity).
    assert (E : Qle_bool 0 shade = false).
    { destruct (Qle_bool 0 shade) eqn:E; [| reflexivity].
      apply Qle_bool_iff in E. rewrite Hs in E. lra. }
    rewrite E. cbn [negb]. unfold Z.sub. rewrite inject_Z_plus, inject_Z_opp.
    apply ShadeFacts.Qfloor_unique; change (inject_Z (0 + 1)) with 1%Q;
      change (inject_Z 0) with 0%Q; rewrite Ha; lra.
  - assert (Ha : (Qabs shade == 1)%Q) by (rewrite Hs; reflexivity).
    assert (E : Qle_bool 0 shade = true).
    { apply Qle_bool_iff. rewrite Hs. lra. }
    rewrite E. cbn [negb]. unfold Z.sub. rewrite inject_Z_plus, inject_Z_opp.
    apply ShadeFacts.Qfloor_unique; change (inject_Z (255 + 1)) with 256%Q;
      change (inject_Z 255) with 255%Q; rewrite Ha; lra.
Qed.

End ShadeMore.

(** The colour [shadeColor] returns for a colour of six digits, from its
    channels. *)
Lemma shadeColor_result (color : string) (shade : Q) :
  hexExpression color = true -> String.length color = 7%nat ->
  (- (1) <= shade <= 1)%Q ->
  exists r g b : Z,
    Shade.channels color = Some (r, g, b) /\
    (0 <= r <= 255)%Z /\ (0 <= g <= 255)%Z /\ (0 <= b <= 255)%Z /\
    Shade.shadeColor color shade
    = String "#" (Shade.hex2 (Shade.interpolate r shade)
                  ++ Shade.hex2 (Shade.interpolate g shade)
                  ++ Shade.hex2 (Shade.interpolate b shade))%string.
Proof.
  intros Hhex Hlen Hs.
  destruct (ShadeMore.channels_six color Hhex Hlen) as (r & g & b & Hc & Hr & Hg & Hb).
  pose proof (shadeColor_six_digits color shade Hhex Hlen Hs) as H.
  unfold Shade.shade_spec in H. rewrite Hc in H.
  assert (Hsome : forall x y : string, Some x = Some y -> y = x) by (intros x y [= ->]; reflexivity).
  apply Hsome in H.
  exists r, g, b. repeat split; try assumption; lia.
Qed.

(** X7.  For a colour [#rrggbb] and a shade between -1 and 1, the colour
    [shadeColor] returns is again a colour of six digits that the resolver
    accepts, and its channels are those of the input, each moved toward 0
    (negative shade) or 255 by [|shade|] and rounded. *)
Theorem shadeColor_channels (color : string) (shade : Q) :
  hexExpression color = true -> String.length color = 7%nat ->
  (- (1) <= shade <= 1)%Q ->
  exists r g b : Z,
    Shade.channels color = Some (r, g, b) /\
    Shade.channels (Shade.shadeColor color shade)
    = Some (Shade.interpolate r shade, Shade.interpolate g shade, Shade.interpolate b shade) /\
    hexExpression (Shade.shadeColor color shade) = true /\
    String.length (Shade.shadeColor color shade) = 7%nat.
Proof.
  intros Hhex Hlen Hs.
  destruct (shadeColor_result color shade Hhex Hlen Hs) as (r & g & b & Hc & Hr & Hg & Hb & ->).
  pose proof (ShadeFacts.interpolate_range r shade Hr Hs) as Ir.
  pose proof (ShadeFacts.interpolate_range g shade Hg Hs) as Ig.
  pose proof (ShadeFacts.interpolate_range b shade Hb Hs) as Ib.
  destruct (ShadeMore.channels_of_hex _ _ _ Ir Ig Ib) as [Hch Hhx].
  exists r, g, b. split; [exact Hc |]. split; [exact Hch |]. split; [exact Hhx |].
  reflexivity.
Qed.

Lemma shadeColor_channels_witness :
  exists r g b : Z,
    Shade.channels "#1f77b4" = Some (r, g, b) /\
    Shade.channels (Shade.shadeColor "#1f77b4" (-1 # 4))
    = Some (Shade.interpolate r (-1 # 4), Shade.interpolate g (-1 # 4),
            Shade.interpolate b (-1 # 4)) /\
    hexExpression (Shade.shadeColor "#1f77b4" (-1 # 4)) = true.
Proof.
  destruct (shadeColor_channels "#1f77b4" (-1 # 4) eq_refl eq_refl)
    as (r & g & b & Hc & Hs & Hh & _).
  - split; discriminate.
  - exists r, g, b. repeat split; assumption.
Defined.

(** X8.  A shade in [-1, 0] never raises a channel of a colour [#rrggbb],
    and a shade in [0, 1] never lowers one; the channels stay between 0 and
    255. *)
Theorem shadeColor_direction (color : string) (shade : Q) :
  hexExpression color = true -> String.length color = 7%nat ->
  (- (1) <= shade <= 1)%Q ->
  exists r g b r' g' b' : Z,
    Shade.channels color = Some (r, g, b) /\
    Shade.channels (Shade.shadeColor color shade) = Some (r', g', b') /\
    ((shade <= 0)%Q -> (0 <= r' <= r)%Z /\ (0 <= g' <= g)%Z /\ (0 <= b' <= b)%Z) /\
    ((0 <= shade)%Q -> (r <= r' <= 255)%Z /\ (g <= g' <= 255)%Z /\ (b <= b' <= 255)%Z).
Proof.
  intros Hhex Hlen Hs.
  destruct (shadeColor_result color shade Hhex Hlen Hs) as (r & g & b & Hc & Hr & Hg & Hb & ->).
  pose proof (ShadeFacts.interpolate_range r shade Hr Hs) as Ir.
  pose proof (ShadeFacts.interpolate_range g shade Hg Hs) as Ig.
  pose proof (ShadeFacts.interpolate_range b shade Hb Hs) as Ib.
  destruct (ShadeMore.channels_of_hex _ _ _ Ir Ig Ib) as [Hch _].
  destruct (ShadeMore.interpolate_direction r shade Hr Hs) as [Dr Ur].
  destruct (ShadeMore.interpolate_direction g shade Hg Hs) as [Dg Ug].
  destruct (ShadeMore.interpolate_direction b shade Hb Hs) as [Db Ub].
  exists r, g, b, (Shade.interpolate r shade), (Shade.interpolate g shade),
    (Shade.interpolate b shade).
  split; [exact Hc |]. split; [exact Hch |]. split; intros Hsign.
  - specialize (Dr Hsign). specialize (Dg Hsign). specialize (Db Hsign). lia.
  - specialize (Ur Hsign). specialize (Ug Hsign). specialize (Ub Hsign). lia.
Qed.

Lemma shadeColor_direction_witness :
  exists r g b r' g' b' : Z,
    Shade.channels "#ff7f0e" = Some (r, g, b) /\
    Shade.channels (Shade.shadeColor "#ff7f0e" (-2 # 5)) = Some (r', g', b') /\
    (0 <= r' <= r)%Z /\ (0 <= g' <= g)%Z /\ (0 <= b' <= b)%Z.
Proof.
  destruct (shadeColor_direction "#ff7f0e" (-2 # 5) eq_refl eq_refl)
    as (r & g & b & r' & g' & b' & Hc & Hc' & Hdown & _).
  - split; discriminate.
  - exists r, g, b, r', g', b'. split; [exact Hc |]. split; [exact Hc' |].
    apply Hdown. discriminate.
Defined.

(** X9.  For every colour [#rrggbb]: the shade -1 gives black, the shade 1
    gives white, and the shade 0 gives the colour back (its channels are
    unchanged; the digits come out in lower case). *)
Theorem shadeColor_extremes (color : string) (shade : Q) :
  hexExpression color = true -> String.length color = 7%nat ->
  ((shade == - (1))%Q -> Shade.shadeColor color shade = "#000000") /\
  ((shade == 1)%Q -> Shade.shadeColor color shade = "#ffffff") /\
  ((shade == 0)%Q ->
   Shade.channels (Shade.shadeColor color shade) = Shade.channels color).
Proof.
  intros Hhex Hlen.
  assert (Hres : (- (1) <= shade <= 1)%Q ->
            exists r g b : Z,
              Shade.channels color = Some (r, g, b) /\
              (0 <= r <= 255)%Z /\ (0 <= g <= 255)%Z /\ (0 <= b <= 255)%Z /\
              Shade.shadeColor color shade
              = String "#" (Shade.hex2 (Shade.interpolate r shade)
                            ++ Shade.hex2 (Shade.interpolate g shade)
                            ++ Shade.hex2 (Shade.interpolate b shade))%string)
    by (intros Hs; now apply shadeColor_result).
  split; [| split]; intros Hs.
  - destruct Hres as (r & g & b & _ & Hr & Hg & Hb & ->); [rewrite Hs; split; discriminate |].
    rewrite (proj1 (proj2 (ShadeMore.interpolate_extremes r shade Hr)) Hs).
    rewrite (proj1 (proj2 (ShadeMore.interpolate_extremes g shade Hg)) Hs).
    rewrite (proj1 (proj2 (ShadeMore.interpolate_extremes b shade Hb)) Hs).
    reflexivity.
  - destruct Hres as (r & g & b & _ & Hr & Hg & Hb & ->); [rewrite Hs; split; discriminate |].
    rewrite (proj2 (proj2 (ShadeMore.interpolate_extremes r shade Hr)) Hs).
    rewrite (proj2 (proj2 (ShadeMore.interpolate_extremes g shade Hg)) Hs).
    rewrite (proj2 (proj2 (ShadeMore.interpolate_extremes b shade Hb)) Hs).
    reflexivity.
  - destruct Hres as (r & g & b & Hc & Hr & Hg & Hb & ->); [rewrite Hs; split; discriminate |].
    rewrite (proj1 (ShadeMore.interpolate_extremes r shade Hr) Hs).
    rewrite (proj1 (ShadeMore.interpolate_extremes g shade Hg) Hs).
    rewrite (proj1 (ShadeMore.interpolate_extremes b shade Hb) Hs).
    rewrite Hc. now apply ShadeMore.channels_of_hex.
Qed.

Lemma shadeColor_extremes_witness :
  Shade.shadeColor "#2CA02C" (- (1)) = "#000000" /\
  Shade.shadeColor "#2CA02C" 1 = "#ffffff" /\
  Shade.channels (Shade.shadeColor "#2CA02C" 0) = Shade.channels "#2CA02C".
Proof.
  destruct (shadeColor_extremes "#2CA02C" (- (1)) eq_refl eq_refl) as (Hb & _ & _).
  destruct (shadeColor_extremes "#2CA02C" 1 eq_refl eq_refl) as (_ & Hw & _).
  destruct (shadeColor_extremes "#2CA02C" 0 eq_refl eq_refl) as (_ & _ & Hz).
  split; [apply Hb; reflexivity |]. split; [apply Hw; reflexivity | apply Hz; reflexivity].
Defined.

(** ** [_initialize]: size, label and colours *)

(** X10.  The width [_initialize] resolves comes from the [width] option,
    or else from the computed width of the container; when that is a number
    above 0 it is kept, when it is a number that is not it is replaced by
    350; so a resolved width that is a number is above 0.  The same holds
    for the height, with 400. *)
Theorem resolved_size (c : chart) (o : options) (x : R) :
  (default (num_of_parse (parseInt (style_width c) 10)) (o_width o) = fin x ->
   s_width (resolve c o) = fin (if Rle_dec x 0 then 350 else x)) /\
  (default (num_of_parse (parseInt (style_height c) 10)) (o_height o) = fin x ->
   s_height (resolve c o) = fin (if Rle_dec x 0 then 400 else x)) /\
  (s_width (resolve c o) = fin x -> (0 < x)%R) /\
  (s_height (resolve c o) = fin x -> (0 < x)%R).
Proof.
  split; [| split; [| apply fix_size_positive]].
  - intros Hx. unfold resolve, fix_size, merge_options, measured. cbn [s_width].
    rewrite Hx. unfold nle, fin. now destruct (Rle_dec x 0).
  - intros Hx. unfold resolve, fix_size, merge_options, measured. cbn [s_height].
    rewrite Hx. unfold nle, fin. now destruct (Rle_dec x 0).
Qed.

Lemma resolved_size_witness :
  s_width (resolve (new_chart [] "0px" "-20px") no_options) = fin 350 /\
  s_height (resolve (new_chart [] "0px" "-20px") no_options) = fin 400.
Proof.
  destruct (resolved_size (new_chart [] "0px" "-20px") no_options 0) as (Hw & _ & _ & _).
  destruct (resolved_size (new_chart [] "0px" "-20px") no_options (-20)) as (_ & Hh & _ & _).
  specialize (Hw eq_refl). specialize (Hh eq_refl).
  destruct (Rle_dec 0 0) as [_ | N]; [| exfalso; apply N; lra].
  destruct (Rle_dec (-20) 0) as [_ | N]; [| exfalso; apply N; lra].
  split; [exact Hw | exact Hh].
Defined.

Lemma merge_label_only_label (lbl user : gmap string jsval) (o : options) :
  o_label o = Some user -> merge_label lbl o = merge_label lbl (label_options user).
Proof. intros H. unfold merge_label. now rewrite H. Qed.

(** X11.  The label settings after [_initialize]: a key of
    [options.label] whose name contains neither [fontSize] nor [fill] never
    reaches them; a value given for [fontSize] or [fill] replaces the stored
    one; every key the user does not give keeps its stored value; and
    without a [label] option nothing changes. *)
Theorem label_settings_merge (lbl user : gmap string jsval) (o : options) (k : string) :
  (o_label o = None -> merge_label lbl o = lbl) /\
  (o_label o = Some user ->
   (validLabelOptions k = false -> merge_label lbl o !! k = lbl !! k) /\
   (user !! k = None -> merge_label lbl o !! k = lbl !! k) /\
   (forall v : jsval,
      k = "fontSize" \/ k = "fill" -> user !! k = Some v -> merge_label lbl o !! k = Some v)).
Proof.
  split.
  - intros H. unfold merge_label. now rewrite H.
  - intros H. rewrite (merge_label_only_label lbl user o H), merge_label_lookup.
    split; [| split].
    + intros Hk. rewrite Hk. now destruct (user !! k).
    + intros Hk. now rewrite Hk.
    + intros v [-> | ->] Hv; rewrite Hv; reflexivity.
Qed.

Lemma label_settings_merge_witness :
  merge_label (defaults_label sample_chart)
    (label_options {[ "fill" := JStr "#000"; "color" := JStr "red" ]}) !! "fill"
  = Some (JStr "#000") /\
  merge_label (defaults_label sample_chart)
    (label_options {[ "fill" := JStr "#000"; "color" := JStr "red" ]}) !! "color"
  = None /\
  merge_label (defaults_label sample_chart)
    (label_options {[ "fill" := JStr "#000"; "color" := JStr "red" ]}) !! "fontSize"
  = Some (JStr "14px").
Proof.
  pose (user := ({[ "fill" := JStr "#000"; "color" := JStr "red" ]} : gmap string jsval)).
  destruct (label_settings_merge (defaults_label sample_chart) user (label_options user) "fill")
    as [_ Hfill].
  destruct (label_settings_merge (defaults_label sample_chart) user (label_options user) "color")
    as [_ Hcolor].
  destruct (label_settings_merge (defaults_label sample_chart) user (label_options user)
              "fontSize") as [_ Hfont].
  destruct (Hfill eq_refl) as (_ & _ & Hf).
  destruct (Hcolor eq_refl) as (Hc & _ & _).
  destruct (Hfont eq_refl) as (_ & Hs & _).
  split; [exact (Hf (JStr "#000") (or_intror eq_refl) eq_refl) |].
  split; [exact (Hc eq_refl) | exact (Hs eq_refl)].
Defined.

(** X12.  After [_initialize] the rows are the same rows with a colour
    each: a colour that matches the pattern [#rgb] or [#rrggbb] is kept, a
    missing or other one is replaced by [colorScale(i)] for the index [i] of
    the row; labels, values and label colours are untouched.  When the scale
    gives colours that match the pattern, every row ends with one. *)
Theorem colors_resolved (colorScale : nat -> string) (rows : list row) :
  length (init_colors colorScale 0 rows) = length rows /\
  (forall (k : nat) (r : row),
     rows !! k = Some r ->
     exists r' : row,
       init_colors colorScale 0 rows !! k = Some r' /\
       r_label r' = r_label r /\ r_value r' = r_value r /\
       r_labelColor r' = r_labelColor r /\
       r_color r' = match r_color r with
                    | Some c => if hexExpression c then Some c else Some (colorScale k)
                    | None => Some (colorScale k)
                    end) /\
  ((forall j : nat, hexExpression (colorScale j) = true) ->
   Forall (fun r' => exists c : string, r_color r' = Some c /\ hexExpression c = true)
          (init_colors colorScale 0 rows)).
Proof.
  assert (Hlook : forall (l : list row) (i k : nat) (r : row),
            l !! k = Some r ->
            exists r' : row,
              init_colors colorScale i l !! k = Some r' /\
              r_label r' = r_label r /\ r_value r' = r_value r /\
              r_labelColor r' = r_labelColor r /\
              r_color r' = match r_color r with
                           | Some c => if hexExpression c then Some c
                                       else Some (colorScale (i + k)%nat)
                           | None => Some (colorScale (i + k)%nat)
                           end).
  { induction l as [| x l IH]; intros i k r Hk; [discriminate |].
    destruct k as [| k]; cbn [init_colors].
    - injection Hk as ->. eexists. split; [reflexivity |]. cbn.
      rewrite Nat.add_0_r. repeat split. destruct (r_color r) as [c |]; [| reflexivity].
      now destruct (hexExpression c).
    - destruct (IH (S i) k r Hk) as (r' & Hr' & H1 & H2 & H3 & H4).
      exists r'. split; [exact Hr' |]. repeat split; try assumption.
      rewrite H4. now replace (S i + k)%nat with (i + S k)%nat by lia. }
  split; [| split].
  - generalize 0%nat. induction rows as [| r rows IH]; intros i; [reflexivity |].
    cbn [init_colors length]. now rewrite IH.
  - intros k r Hk. exact (Hlook rows 0%nat k r Hk).
  - intros Hscale. generalize 0%nat. induction rows as [| r rows IH]; intros i; constructor.
    + cbn. destruct (r_color r) as [c |]; [| eauto].
      destruct (hexExpression c) eqn:E; eauto.
    + apply IH.
Qed.

Lemma category10_valid (j : nat) : hexExpression (category10 j) = true.
Proof.
  unfold category10.
  assert (H : (j mod 10 < 10)%nat) by (apply Nat.mod_upper_bound; lia).
  destruct (j mod 10)%nat as [| [| [| [| [| [| [| [| [| [| n]]]]]]]]]]; try reflexivity. lia.
Qed.

Lemma colors_resolved_witness :
  Forall (fun r' => exists c : string, r_color r' = Some c /\ hexExpression c = true)
         (init_colors category10 0 sample_rows).
Proof.
  exact (proj2 (proj2 (colors_resolved category10 sample_rows)) category10_valid).
Defined.

(** ** [destroy] and [draw] *)

Lemma remove_svg_is_free (n : node) : forallb svg_free (remove_svg n) = true.
Proof.
  revert n. fix IH 1. intros [tag children]. cbn [remove_svg].
  destruct (String.eqb tag "svg") eqn:E; [reflexivity |].
  cbn [forallb svg_free]. rewrite E. cbn [negb andb]. rewrite andb_true_r.
  induction children as [| c cs IHcs]; [reflexivity |].
  cbn [flat_map]. rewrite forallb_app, (IH c), IHcs. reflexivity.
Qed.

Lemma flat_remove_svg_is_free (l : list node) :
  forallb svg_free (flat_map remove_svg l) = true.
Proof.
  induction l as [| n l IH]; [reflexivity |].
  cbn [flat_map]. now rewrite forallb_app, remove_svg_is_free, IH.
Qed.

Lemma flat_remove_svg_free (l : list node) :
  forallb svg_free l = true -> flat_map remove_svg l = l.
Proof.
  induction l as [| n l IH]; [reflexivity |].
  cbn [forallb flat_map]. intros H. apply andb_prop in H as [Hn Hl].
  now rewrite (remove_svg_free n Hn), IH.
Qed.

Lemma svg_free_count (n : node) : svg_free n = true -> svg_count n = 0%nat.
Proof.
  revert n. fix IH 1. intros [tag children] H. cbn [svg_free svg_count] in *.
  apply andb_prop in H as [Htag Hch].
  destruct (String.eqb tag "svg"); [discriminate |]. cbn [Nat.add].
  clear Htag. induction children as [| c cs IHcs]; [reflexivity |].
  change (list_sum (map svg_count (c :: cs)))
    with (svg_count c + list_sum (map svg_count cs))%nat.
  cbn [forallb] in Hch. apply andb_prop in Hch as [Hc Hcs].
  now rewrite (IH c Hc), IHcs.
Qed.

Lemma svg_free_list_count (l : list node) :
  forallb svg_free l = true -> list_sum (map svg_count l) = 0%nat.
Proof.
  induction l as [| n l IH]; [reflexivity |].
  change (list_sum (map svg_count (n :: l)))
    with (svg_count n + list_sum (map svg_count l))%nat.
  cbn [forallb]. intros H. apply andb_prop in H as [Hn Hl].
  now rewrite (svg_free_count n Hn), IH.
Qed.

(** X13.  [destroy] removes every [svg] element of the container, at any
    depth, and nothing else.  No [svg] is left, a container without [svg] is
    left as it is, a second [destroy] changes nothing, and the fields of the
    chart are untouched.  What stays is fixed by the shape of the container:
    the result for a container [a ++ b] is the result for [a] followed by
    the one for [b]; a single [svg] element goes with all it holds; a single
    element of another tag stays, with its children treated as a container
    of their own.  So an [svg] among elements that hold none is the only
    element removed. *)
Theorem destroy_removes_svg (c : chart) :
  forallb svg_free (container (destroy c)) = true /\
  list_sum (map svg_count (container (destroy c))) = 0%nat /\
  destroy (destroy c) = destroy c /\
  (forallb svg_free (container c) = true -> destroy c = c) /\
  fields (destroy c) = fields c /\ label (destroy c) = label c /\
  blockPaths (destroy c) = blockPaths c /\
  defaults_label (destroy c) = defaults_label c /\
  (forall a b : chart,
     container c = container a ++ container b ->
     container (destroy c) = container (destroy a) ++ container (destroy b)) /\
  (forall kids : list node,
     container c = [Node "svg" kids] -> container (destroy c) = []) /\
  (forall (tag : string) (kids : list node) (inner : chart),
     tag <> "svg" -> container c = [Node tag kids] -> container inner = kids ->
     container (destroy c) = [Node tag (container (destroy inner))]) /\
  (forall (pre kids post : list node),
     container c = pre ++ Node "svg" kids :: post ->
     forallb svg_free pre = true -> forallb svg_free post = true ->
     container (destroy c) = pre ++ post).
Proof.
  assert (Hfree : forallb svg_free (container (destroy c)) = true)
    by apply flat_remove_svg_is_free.
  split; [exact Hfree |]. split; [now apply svg_free_list_count |].
  split; [now apply destroy_svg_free |]. split; [apply destroy_svg_free |].
  do 4 (split; [reflexivity |]).
  cbn [destroy container]. split; [| split; [| split]].
  - intros a b ->. apply flat_map_app.
  - intros kids ->. reflexivity.
  - intros tag kids inner Htag -> <-. cbn [flat_map remove_svg].
    destruct (String.eqb_spec tag "svg") as [E | _]; [contradiction |].
    apply app_nil_r.
  - intros pre kids post -> Hpre Hpost. rewrite flat_map_app. cbn [flat_map remove_svg].
    change (String.eqb "svg" "svg") with true. cbn iota. cbn [app].
    now rewrite (flat_remove_svg_free pre Hpre), (flat_remove_svg_free post Hpost).
Qed.

Lemma destroy_removes_svg_witness : destroy (destroy drawn_chart) = destroy drawn_chart /\
  destroy sample_chart = sample_chart /\
  container (destroy drawn_chart) = [Node "h1" []].
Proof.
  split; [| split].
  - exact (proj1 (proj2 (proj2 (destroy_removes_svg drawn_chart)))).
  - exact (proj1 (proj2 (proj2 (proj2 (destroy_removes_svg sample_chart)))) eq_refl).
  - exact (proj2 (proj2 (proj2 (proj2 (proj2 (proj2 (proj2 (proj2 (proj2 (proj2 (proj2
             (destroy_removes_svg drawn_chart)))))))))))
             [Node "h1" []] [Node "g" [Node "path" []; Node "text" []]] [] eq_refl eq_refl
             eq_refl).
Defined.

Lemma init_colors_length (colorScale : nat -> string) (i : nat) (rows : list row) :
  length (init_colors colorScale i rows) = length rows.
Proof.
  revert i. induction rows as [| r rows IH]; intros i; [reflexivity |].
  cbn [init_colors length]. now rewrite IH.
Qed.

Lemma rows_of_js_arrays (l : list jsval) :
  Forall (fun v => isArray v = true) l ->
  exists rows : list row, rows_of_js l = Some rows /\ length rows = length l.
Proof.
  induction 1 as [| v l Hv _ (rows & Hrows & Hlen)].
  - exists []. auto.
  - destruct v; try discriminate Hv. cbn [rows_of_js]. rewrite Hrows.
    cbn [row_of_js]. eexists. split; [reflexivity |]. cbn [length]. now rewrite Hlen.
Qed.

(** What [draw] does with data that pass the test of [_initialize] and
    whose rows are arrays. *)
Lemma draw_valid (colorScale : nat -> string) (l : list jsval) (o : options) (c : chart)
    (rows : list row) :
  invalid_data (JArr l) = false ->
  rows_of_js l = Some rows ->
  draw colorScale (JArr l) o c
  = (fst (drawBlock (match s_animation (resolve c o) with Some _ => true | None => false end)
                    l),
     {| container :=
          flat_map remove_svg (container c)
          ++ [Node "svg" (chart_children
                            (init_fields (resolve c o) (init_colors colorScale 0 rows)) l)];
        style_width := style_width c;
        style_height := style_height c;
        defaults_label := merge_label (defaults_label c) o;
        label := merge_label (defaults_label c) o;
        fields := Some (init_fields (resolve c o) (init_colors colorScale 0 rows));
        blockPaths :=
          makePaths (init_fields (resolve c o) (init_colors colorScale 0 rows)) |}).
Proof.
  intros Hvalid Hrows. unfold draw, initialize. rewrite Hvalid, Hrows. reflexivity.
Qed.

(** The groups of [_drawBlock] when every value can be formatted. *)
Lemma drawBlock_groups (animated : bool) (rows : list jsval) :
  Forall (fun v => value_throws v = false) rows ->
  drawBlock animated rows
  = (None, repeat (Node "g" [Node "path" []; Node "text" []])
                  (if animated then Nat.min 1 (length rows) else length rows)).
Proof.
  induction 1 as [| v rows Hv _ IH]; [now destruct animated |].
  cbn [drawBlock]. rewrite Hv. destruct animated; [reflexivity |].
  rewrite IH. reflexivity.
Qed.

(** Without an animation, the first value that cannot be formatted stops
    [_drawBlock]: the groups up to it hold a path only. *)
Lemma drawBlock_throws (before : list jsval) (v : jsval) (after : list jsval) :
  Forall (fun v => value_throws v = false) before ->
  value_throws v = true ->
  drawBlock false (before ++ v :: after)
  = (Some TypeError, repeat (Node "g" [Node "path" []]) (S (length before))).
Proof.
  intros Hbefore Hv. induction Hbefore as [| u before Hu _ IH].
  - cbn [app drawBlock]. now rewrite Hv.
  - cbn [app drawBlock]. rewrite Hu, IH. reflexivity.
Qed.

Lemma repeat_svg_free (n : node) (k : nat) :
  svg_free n = true -> forallb svg_free (repeat n k) = true.
Proof. intros H. induction k as [| k IH]; [reflexivity |]. cbn. now rewrite H, IH. Qed.

Lemma drawBlock_free (animated : bool) (rows : list jsval) :
  forallb svg_free (snd (drawBlock animated rows)) = true.
Proof.
  induction rows as [| v rows IH]; [reflexivity |].
  cbn [drawBlock]. destruct (value_throws v); [reflexivity |].
  destruct animated; [reflexivity |].
  destruct (drawBlock false rows) as [[e |] groups]; cbn [snd] in *;
    cbn [forallb svg_free]; now rewrite IH.
Qed.

Lemma defineColorGradients_stops (rows : list row) :
  defineColorGradients rows
  = Node "defs" (repeat (Node "linearGradient" (repeat (Node "stop" []) 4)) (length rows)).
Proof.
  unfold defineColorGradients. f_equal.
  induction rows as [| r rows IH]; [reflexivity |]. cbn [map length]. rewrite IH. reflexivity.
Qed.

Lemma chart_children_free (this : funnel) (rows : list jsval) :
  forallb svg_free (chart_children this rows) = true.
Proof.
  unfold chart_children. rewrite !forallb_app, drawBlock_free, defineColorGradients_stops.
  assert (Hdefs : forall k : nat,
            svg_free (Node "defs" (repeat (Node "linearGradient" (repeat (Node "stop" []) 4)) k))
            = true).
  { intros k. cbn [svg_free].
    now rewrite (repeat_svg_free (Node "linearGradient" (repeat (Node "stop" []) 4)) k eq_refl). }
  destruct (String.eqb (fillType this) "gradient"), (isCurved this); cbn [forallb];
    rewrite ?Hdefs; reflexivity.
Qed.

Lemma invalid_data_rows (l : list jsval) : invalid_data (JArr l) = false -> l <> [].
Proof. intros H ->. discriminate H. Qed.

(** One [svg] element in a container without [svg] to which one was
    appended. *)
Lemma one_svg_appended (pre kids : list node) :
  forallb svg_free kids = true ->
  list_sum (map svg_count (flat_map remove_svg pre ++ [Node "svg" kids])) = 1%nat.
Proof.
  intros Hk. rewrite map_app, list_sum_app.
  rewrite (svg_free_list_count _ (flat_remove_svg_is_free pre)).
  cbn [map list_sum svg_count String.eqb Ascii.eqb Bool.eqb].
  rewrite (svg_free_list_count kids Hk). reflexivity.
Qed.

(** [destroy] on a container that [draw] left. *)
Lemma remove_drawn_svg (pre kids : list node) :
  flat_map remove_svg (flat_map remove_svg pre ++ [Node "svg" kids]) = flat_map remove_svg pre.
Proof.
  rewrite flat_map_app. cbn [flat_map remove_svg String.eqb Ascii.eqb Bool.eqb].
  rewrite app_nil_r. apply flat_remove_svg_free, flat_remove_svg_is_free.
Qed.

(** X14.  For data that pass the test of [_initialize] and whose rows are
    all arrays, [draw] appends one [svg] element to what [destroy] left of
    the container and stores one block path per row.  The [svg] holds a
    [defs] with one gradient of four stops per row when the fill type is
    [gradient], a path for the top oval when the chart is curved, and then
    the groups of the blocks.  When no value is [undefined] or [null],
    nothing is thrown and there is one group of a path and a text per row, or
    the group of the first row only when an animation is set (the others
    follow the transitions).  Without an animation, the first row whose
    value is [undefined] or [null] makes [draw] throw a [TypeError]; the
    groups up to that row are left, each with its path and without a text.
    With an animation only the first row is drawn before [draw] returns, and
    only its value can make [draw] throw. *)
Theorem draw_renders (colorScale : nat -> string) (l : list jsval) (o : options) (c : chart) :
  invalid_data (JArr l) = false ->
  Forall (fun v => isArray v = true) l ->
  exists groups : list node,
    container (snd (draw colorScale (JArr l) o c))
    = flat_map remove_svg (container c)
      ++ [Node "svg"
            ((if String.eqb (s_fillType (resolve c o)) "gradient"
              then [Node "defs" (repeat (Node "linearGradient" (repeat (Node "stop" []) 4))
                                        (length l))]
              else [])
             ++ (if s_isCurved (resolve c o) then [Node "path" []] else [])
             ++ groups)] /\
    length (blockPaths (snd (draw colorScale (JArr l) o c))) = length l /\
    (Forall (fun v => value_throws v = false) l ->
     fst (draw colorScale (JArr l) o c) = None /\
     groups = repeat (Node "g" [Node "path" []; Node "text" []])
                (match s_animation (resolve c o) with Some _ => 1 | None => length l end)) /\
    (forall (k : nat) (v : jsval),
       s_animation (resolve c o) = None ->
       l !! k = Some v -> value_throws v = true ->
       Forall (fun u => value_throws u = false) (take k l) ->
       fst (draw colorScale (JArr l) o c) = Some TypeError /\
       groups = repeat (Node "g" [Node "path" []]) (S k)) /\
    (forall (a : num) (v : jsval),
       s_animation (resolve c o) = Some a ->
       l !! 0%nat = Some v ->
       fst (draw colorScale (JArr l) o c)
       = (if value_throws v then Some TypeError else None) /\
       groups = [Node "g" (if value_throws v then [Node "path" []]
                           else [Node "path" []; Node "text" []])]).
Proof.
  intros Hvalid Harr.
  destruct (rows_of_js_arrays l Harr) as (rows & Hrows & Hlen).
  pose proof (invalid_data_rows l Hvalid) as Hne.
  rewrite (draw_valid colorScale l o c rows Hvalid Hrows). cbn [fst snd container blockPaths].
  exists (snd (drawBlock (match s_animation (resolve c o) with Some _ => true | None => false end)
                         l)).
  split; [| split; [| split; [| split]]].
  - do 3 f_equal. unfold chart_children. rewrite defineColorGradients_stops.
    cbn [data init_fields fillType isCurved animation].
    now rewrite init_colors_length, Hlen.
  - rewrite makePaths_length. cbn [data init_fields].
    now rewrite init_colors_length.
  - intros Hok. rewrite (drawBlock_groups _ l Hok). cbn [fst snd].
    split; [reflexivity |]. destruct (s_animation (resolve c o)); [| reflexivity].
    destruct l; [contradiction | reflexivity].
  - intros k v Han Hk Hv Hbefore. rewrite Han.
    rewrite <- (take_drop_middle l k v Hk) at 1 2.
    rewrite (drawBlock_throws _ v _ Hbefore Hv). cbn [fst snd].
    rewrite length_take_le by (apply lookup_lt_Some in Hk; lia). auto.
  - intros a v Han Hv. rewrite Han. destruct l as [| u rest]; [discriminate |].
    injection Hv as ->. cbn [drawBlock]. destruct (value_throws v); auto.
Qed.

Lemma draw_renders_witness :
  fst (draw category10 (JArr [JArr [JStr "A"; JNum (fin 1)]; JArr [JStr "B"]])
         no_options drawn_chart) = Some TypeError /\
  container (snd (draw category10 (JArr [JArr [JStr "A"; JNum (fin 1)]; JArr [JStr "B"]])
                    no_options drawn_chart))
  = [Node "h1" []; Node "svg" [Node "g" [Node "path" []]; Node "g" [Node "path" []]]].
Proof.
  destruct (draw_renders category10 [JArr [JStr "A"; JNum (fin 1)]; JArr [JStr "B"]]
              no_options drawn_chart eq_refl)
    as (groups & Hc & _ & _ & Hthrow & _); [repeat constructor |].
  destruct (Hthrow 1%nat (JArr [JStr "B"]) eq_refl eq_refl eq_refl) as [He Hg];
    [repeat constructor |].
  split; [exact He |]. rewrite Hc, Hg. reflexivity.
Defined.

(** X15.  After a [draw] on data that pass the test of [_initialize] and
    whose rows are arrays, the container holds exactly one [svg] element,
    last, whatever was drawn in it before and whether or not [_drawBlock]
    threw.  A second [draw] on the same instance leaves one [svg] again,
    after the elements that are not charts.  Its chart fields and block
    paths are those a [draw] of the same data and options gives on the
    instance as it was before the first [draw]; its label settings are not:
    the label options of both calls are merged into them. *)
Theorem redraw_replaces_chart (colorScale : nat -> string) (l1 l2 : list jsval)
    (o1 o2 : options) (c : chart) :
  invalid_data (JArr l1) = false -> Forall (fun v => isArray v = true) l1 ->
  invalid_data (JArr l2) = false -> Forall (fun v => isArray v = true) l2 ->
  exists chart1 chart2 : list node,
    container (snd (draw colorScale (JArr l1) o1 c))
    = flat_map remove_svg (container c) ++ [Node "svg" chart1] /\
    list_sum (map svg_count (container (snd (draw colorScale (JArr l1) o1 c)))) = 1%nat /\
    container (snd (draw colorScale (JArr l2) o2 (snd (draw colorScale (JArr l1) o1 c))))
    = flat_map remove_svg (container c) ++ [Node "svg" chart2] /\
    list_sum (map svg_count
                (container (snd (draw colorScale (JArr l2) o2
                                   (snd (draw colorScale (JArr l1) o1 c)))))) = 1%nat /\
    fields (snd (draw colorScale (JArr l2) o2 (snd (draw colorScale (JArr l1) o1 c))))
    = fields (snd (draw colorScale (JArr l2) o2 c)) /\
    blockPaths (snd (draw colorScale (JArr l2) o2 (snd (draw colorScale (JArr l1) o1 c))))
    = blockPaths (snd (draw colorScale (JArr l2) o2 c)) /\
    label (snd (draw colorScale (JArr l2) o2 (snd (draw colorScale (JArr l1) o1 c))))
    = merge_label (merge_label (defaults_label c) o1) o2.
Proof.
  intros Hv1 Ha1 Hv2 Ha2.
  destruct (rows_of_js_arrays l1 Ha1) as (rows1 & Hrows1 & _).
  destruct (rows_of_js_arrays l2 Ha2) as (rows2 & Hrows2 & _).
  rewrite (draw_valid colorScale l1 o1 c rows1 Hv1 Hrows1).
  rewrite !(draw_valid colorScale l2 o2 _ rows2 Hv2 Hrows2).
  cbn [snd container fields blockPaths label defaults_label].
  rewrite remove_drawn_svg.
  eexists _, _. split; [reflexivity |].
  split; [apply one_svg_appended, chart_children_free |].
  split; [reflexivity |].
  split; [apply one_svg_appended, chart_children_free |].
  repeat split.
Qed.

Lemma redraw_replaces_chart_witness :
  list_sum (map svg_count
              (container (snd (draw category10 sample_data no_options drawn_chart)))) = 1%nat.
Proof.
  destruct (redraw_replaces_chart category10
              [JArr [JStr "A"; JNum (fin 40)]; JArr [JStr "B"; JNum (fin 20)];
               JArr [JStr "C"; JNum (fin 10)]]
              [JArr [JStr "A"; JNum (fin 40)]]
              no_options no_options drawn_chart eq_refl)
    as (chart1 & chart2 & _ & H & _); [repeat constructor | reflexivity | repeat constructor |].
  exact H.
Defined.

(** X16.  A [draw] that succeeds, followed by [destroy], leaves the
    container as [destroy] alone would: no [svg] element, and the elements
    that are not charts in place. *)
Theorem draw_then_destroy (colorScale : nat -> string) (l : list jsval) (o : options)
    (c : chart) :
  invalid_data (JArr l) = false ->
  Forall (fun v => isArray v = true) l ->
  container (destroy (snd (draw colorScale (JArr l) o c))) = container (destroy c) /\
  forallb svg_free (container (destroy (snd (draw colorScale (JArr l) o c)))) = true.
Proof.
  intros Hvalid Harr.
  destruct (rows_of_js_arrays l Harr) as (rows & Hrows & _).
  rewrite (draw_valid colorScale l o c rows Hvalid Hrows). cbn [snd destroy container].
  split; [apply remove_drawn_svg | apply flat_remove_svg_is_free].
Qed.

Lemma draw_then_destroy_witness :
  container (destroy (snd (draw category10 sample_data no_options drawn_chart)))
  = [Node "h1" []].
Proof.
  refine (proj1 (draw_then_destroy category10
                   [JArr [JStr "A"; JNum (fin 40)]; JArr [JStr "B"; JNum (fin 20)];
                    JArr [JStr "C"; JNum (fin 10)]]
                   no_options drawn_chart eq_refl _)).
  repeat constructor.
Defined.

(** X17.  The label settings are kept in the label object of the defaults
    of the instance: after a [draw] that succeeds, that object holds the
    merged settings, and a later [draw] on the same instance without a
    [label] option resolves these settings, not the ones of the
    constructor. *)
Theorem label_settings_persist (colorScale : nat -> string) (l1 l2 : list jsval)
    (o1 o2 : options) (c : chart) :
  invalid_data (JArr l1) = false -> Forall (fun v => isArray v = true) l1 ->
  invalid_data (JArr l2) = false -> Forall (fun v => isArray v = true) l2 ->
  o_label o2 = None ->
  label (snd (draw colorScale (JArr l1) o1 c)) = merge_label (defaults_label c) o1 /\
  defaults_label (snd (draw colorScale (JArr l1) o1 c)) = merge_label (defaults_label c) o1 /\
  label (snd (draw colorScale (JArr l2) o2 (snd (draw colorScale (JArr l1) o1 c))))
  = merge_label (defaults_label c) o1.
Proof.
  intros Hv1 Ha1 Hv2 Ha2 Ho2.
  destruct (rows_of_js_arrays l1 Ha1) as (rows1 & Hrows1 & _).
  destruct (rows_of_js_arrays l2 Ha2) as (rows2 & Hrows2 & _).
  rewrite (draw_valid colorScale l1 o1 c rows1 Hv1 Hrows1).
  rewrite (draw_valid colorScale l2 o2 _ rows2 Hv2 Hrows2).
  cbn [snd label defaults_label]. repeat split.
  unfold merge_label at 1. now rewrite Ho2.
Qed.

Lemma label_settings_persist_witness :
  label (snd (draw category10 sample_data no_options
                (snd (draw category10 sample_data (label_options {[ "fill" := JStr "#000" ]})
                        sample_chart)))) !! "fill"
  = Some (JStr "#000").
Proof.
  pose proof (label_settings_persist category10
                [JArr [JStr "A"; JNum (fin 40)]; JArr [JStr "B"; JNum (fin 20)];
                 JArr [JStr "C"; JNum (fin 10)]]
                [JArr [JStr "A"; JNum (fin 40)]; JArr [JStr "B"; JNum (fin 20)];
                 JArr [JStr "C"; JNum (fin 10)]]
                (label_options {[ "fill" := JStr "#000" ]}) no_options sample_chart
                eq_refl ltac:(repeat constructor) eq_refl ltac:(repeat constructor) eq_refl)
    as (_ & _ & H).
  change (draw category10 sample_data) with
    (draw category10 (JArr [JArr [JStr "A"; JNum (fin 40)]; JArr [JStr "B"; JNum (fin 20)];
                            JArr [JStr "C"; JNum (fin 10)]])).
  rewrite H, merge_label_lookup, lookup_singleton_eq. reflexivity.
Defined.

(** ** Fills, gradients and labels *)

Lemma gradient_id_inj (i j : nat) :
  ("gradient-" ++ pretty i)%string = ("gradient-" ++ pretty j)%string -> i = j.
Proof.
  intros H. cbv [String.append] in H. injection H as H. now apply (inj pretty) in H.
Qed.

Lemma colorGradients_ids (rows : list row) (i : nat) :
  Forall (fun r => is_Some (r_color r)) rows ->
  exists gs : list gradient,
    colorGradients i rows = Some gs /\
    map g_id gs = map (fun j => ("gradient-" ++ pretty j)%string) (seq i (length rows)) /\
    forall (k : nat) (r : row),
      rows !! k = Some r ->
      exists color : string, r_color r = Some color /\ gs !! k = Some (gradient_of (i + k) color).
Proof.
  intros H. revert i. induction H as [| r rows [color Hc] _ IH]; intros i.
  - exists []. repeat split. intros k r Hk. discriminate.
  - destruct (IH (S i)) as (gs & Hgs & Hids & Hk).
    exists (gradient_of i color :: gs). cbn [colorGradients]. rewrite Hc, Hgs.
    split; [reflexivity |]. split.
    + cbn [map length seq]. now rewrite Hids.
    + intros [| k] r' Hr'.
      * injection Hr' as <-. exists color. rewrite Nat.add_0_r. auto.
      * destruct (Hk k r' Hr') as (color' & Hc' & Hg). exists color'.
        split; [exact Hc' |].
        change ((gradient_of i color :: gs) !! S k) with (gs !! k).
        rewrite Hg. do 2 f_equal. lia.
Qed.

(** X18.  With the fill type [gradient] and a colour in every row (as
    after [_initialize]), [_defineColorGradients] defines one gradient per
    row, with pairwise different ids; the fill [_getColor] gives a block is
    the reference [url(#id)] to the gradient of its own row, whose stops are
    the colour of the row at 40% and 60% and its shade by -0.25 at 0% and
    100%. *)
Theorem gradients_match_fills (this : funnel) :
  fillType this = "gradient" ->
  Forall (fun r => is_Some (r_color r)) (data this) ->
  exists gs : list gradient,
    colorGradients 0 (data this) = Some gs /\
    length gs = length (data this) /\
    NoDup (map g_id gs) /\
    forall (k : nat) (r : row),
      data this !! k = Some r ->
      exists (g : gradient) (color : string),
        gs !! k = Some g /\ r_color r = Some color /\
        getColor this k = Some ("url(#" ++ g_id g ++ ")")%string /\
        g_stops g = [("0%", Shade.shadeColor color (-1 # 4)); ("40%", color);
                     ("60%", color); ("100%", Shade.shadeColor color (-1 # 4))].
Proof.
  intros Hfill Hall.
  destruct (colorGradients_ids (data this) 0 Hall) as (gs & Hgs & Hids & Hk).
  exists gs. split; [exact Hgs |]. split; [| split].
  - rewrite <- (length_map g_id gs), Hids. now rewrite length_map, length_seq.
  - rewrite Hids. apply NoDup_fmap_2; [| apply NoDup_seq].
    intros i j. apply gradient_id_inj.
  - intros k r Hr. destruct (Hk k r Hr) as (color & Hc & Hg).
    exists (gradient_of k color), color. repeat split; try assumption.
    unfold getColor. rewrite Hfill. reflexivity.
Qed.

Lemma gradients_match_fills_witness :
  exists gs : list gradient,
    colorGradients 0 (init_colors category10 0 sample_rows) = Some gs /\
    NoDup (map g_id gs).
Proof.
  destruct (gradients_match_fills
              {| data := init_colors category10 0 sample_rows; width := fin 350;
                 height := fin 400; bottomWidth := fin (350 / 3); bottomPinch := 0;
                 isCurved := false; curveHeight := fin 20; fillType := "gradient";
                 isInverted := false; hoverEffects := false; dynamicArea := false;
                 minHeight := None; animation := None; bottomLeftX := fin (350 / 3);
                 dx := fin 1; dy := fin 1; onItemClick := false |} eq_refl)
    as (gs & Hgs & _ & Hnd & _).
  - repeat constructor; eexists; reflexivity.
  - exists gs. split; [exact Hgs | exact Hnd].
Defined.

(** X19.  The label of a block: [_addBlockLabel] places it at the middle
    of the chart, which is the middle of the top and of the bottom edge of
    the block whenever their x are finite, and halfway between the two edges
    in y, lowered by [curveHeight / n] on a curved chart.  Its fill is the
    label colour of the row when the row has a non-empty one, else the [fill]
    of the label settings. *)
Theorem label_position (toLocaleString : num -> string) (this : funnel)
    (lbl : gmap string jsval) (i : nat) (r : row) (p : path) :
  data this !! i = Some r ->
  makePaths this !! i = Some p ->
  exists t : text_label,
    addBlockLabel toLocaleString this lbl (makePaths this) i = Some t /\
    t_y t = (if isCurved this
             then (top_y p + bottom_y this p) / fin 2
                  + curveHeight this / of_nat (length (data this))
             else (top_y p + bottom_y this p) / fin 2) /\
    (forall w a b : R,
       width this = fin w ->
       (topLeft_x p = fin a /\ topRight_x this p = fin b) \/
       (bottomLeft_x this p = fin a /\ bottomRight_x this p = fin b) ->
       t_x t = fin ((a + b) / 2)) /\
    t_fill t = match r_labelColor r with
               | Some s => if String.eqb s "" then lbl !! "fill" else Some (JStr s)
               | None => lbl !! "fill"
               end /\
    t_text t = (r_label r ++ ": " ++ formattedValue toLocaleString r)%string.
Proof.
  intros Hr Hp. unfold addBlockLabel. rewrite Hr, Hp. eexists. split; [reflexivity |].
  cbn [t_y t_x t_fill t_text].
  destruct (path_corners this i p Hp) as (Hi & Htl & Htr & Hbr & Hbl).
  split; [| split; [| split; reflexivity]].
  - assert (Hi' : (i < length (data this))%nat) by exact Hi.
    pose proof Hp as Hp'. rewrite (makePaths_lookup this i Hi') in Hp'. injection Hp' as <-.
    unfold top_y, bottom_y, block_path. now destruct (isCurved this).
  - intros w a b Hw Hab. rewrite Hw.
    assert (Hc : forall k, (k <= length (data this))%nat ->
               prevLeftX (state_at this k) = fin a -> prevRightX (state_at this k) = fin b ->
               (a + b = w)%R).
    { intros k Hk Ha Hb. pose proof (centred_state this w k Hw Hk) as C.
      unfold centred in C. now rewrite Ha, Hb in C. }
    assert (Hsum : (a + b = w)%R).
    { destruct Hab as [[Ha Hb] | [Ha Hb]].
      - rewrite Htl in Ha. rewrite Htr in Hb. apply (Hc i); [lia | assumption | assumption].
      - rewrite Hbl in Ha. rewrite Hbr in Hb. apply (Hc (S i)); [lia | assumption | assumption]. }
    rewrite ndiv_fin by lra. now rewrite Hsum.
Qed.

Lemma label_position_witness :
  let this := init_fields (sample_settings false false false 0 (1 / 3)) sample_rows in
  exists t : text_label,
    addBlockLabel (fun _ => "40") this (defaults_label sample_chart) (makePaths this) 0
    = Some t /\
    t_text t = "A: 40" /\ t_fill t = Some (JStr "#fff").
Proof.
  intros this.
  assert (Hlen : (0 < length (data this))%nat) by (simpl; lia).
  destruct (label_position (fun _ => "40") this (defaults_label sample_chart) 0
              (plain_row "A" 40) _ eq_refl (makePaths_lookup this 0 Hlen))
    as (t & Ht & _ & _ & Hfill & Htext).
  exists t. split; [exact Ht |]. split; [exact Htext | exact Hfill].
Defined.
